(** * copcPotree: the conversion scripts, embedded and checked

    The repository is a set of Python scripts that drive two external
    tools (PDAL and PotreeConverter).  The scripts are embedded as
    programs of a small state-and-exception monad over a model of the
    file system, the console and the external processes:

    - [convert_copc_to_potree.py]  : [reproject_copc_to_las],
      [convert_las_to_potree], [verify_potree_metadata], [copc_main];
    - [convert_las_to_tiled_copc.py] : [tiles], [split_las_to_tiles];
    - [convert_all_copc_to_potree.py] : [convert_single_file], [batch_main];
    - [convert_to_potree.py] : [check_potree_converter],
      [convert_las_to_copc], [convert_copc_to_potree],
      [convert_hdf_to_potree].

    Strings are [string] (characters are code points below 256); the
    decorative glyphs of the console messages are left out of the
    message texts.  A parsed JSON number is its exact rational value. *)

From Stdlib Require Import ZArith QArith Qabs Lia Lqa List Ascii String Bool.
From stdpp Require Import base gmap strings list pretty sorting.

Open Scope string_scope.
Open Scope list_scope.
Set Warnings "-register-all".
Set Default Proof Using "Type".

(** ** Python values

    The values a JSON document is made of: [None], booleans, numbers,
    strings, lists and dictionaries (in insertion order, keys are
    strings).  The type is parametric in the numbers: a document read by
    [json.load] carries the exact rational value of each number
    ([doc]); a pipeline descriptor carries the decimal text that [repr]
    prints for its floats ([descriptor], below). *)

Inductive pyval (N : Type) : Type :=
| PNone
| PBool (b : bool)
| PNum (n : N)
| PStr (s : string)
| PList (l : list (pyval N))
| PDict (d : list (string * pyval N)).
Arguments PNone {N}.
Arguments PBool {N} b.
Arguments PNum {N} n.
Arguments PStr {N} s.
Arguments PList {N} l.
Arguments PDict {N} d.

Abbreviation doc := (pyval Q).

(** ** Exceptions *)

Inductive exn : Type :=
| SystemExit (code : Z)
| CalledProcessError (returncode : Z) (out err : string)
| FileNotFoundError
| FileExistsError
| EOFError
| JSONDecodeError
| AttributeError
| TypeError
| ValueError
| KeyError
| RuntimeError (msg : string)
| OtherError (msg : string).

(** [except Exception] catches everything but [SystemExit]. *)
Definition is_Exception (e : exn) : bool :=
  match e with SystemExit _ => false | _ => true end.

Inductive outcome (A : Type) : Type :=
| Ret (a : A)
| Raise (e : exn).
Arguments Ret {A} a.
Arguments Raise {A} e.

(** ** The world: file system, console input, and a log of effects *)

Inductive node : Type :=
| Dir
| File (content : string).

Inductive event : Type :=
| Print (template : string) (args : list doc)
| Prompt (msg : string)
| Spawn (argv : list string) (input : option string)
| Mkdir (p : string)
| MkTemp (p : string)
| Unlink (p : string)
| Call (fn : string) (args : list string).

Record world : Type := World {
  fs : gmap string node;
  stdin : list string;
  log : list event
}.

(** What an external program does when it is started. *)
Record completed : Type := Completed {
  returncode : Z;
  c_stdout : string;
  c_stderr : string;
  c_writes : list (string * string)
}.

Inductive spawned : Type :=
| Exited (c : completed)
| NoSuchProgram.

(** Everything the scripts do not decide themselves. *)
Record env : Type := Env {
  (* the external programs: argv, standard input, file system *)
  e_spawn : list string -> option string -> gmap string node -> spawned;
  (* [json.load] on the text of a file; [None] is a decode error *)
  e_json_load : string -> option doc;
  (* the name [tempfile.NamedTemporaryFile] picks for a suffix *)
  e_temp_name : string -> gmap string node -> string;
  (* [shutil.which] *)
  e_which : string -> gmap string node -> option string;
  (* [Path.home()] *)
  e_home : string;
  (* [calipso_to_las.convert_calipso_to_las]: the files it writes, and
     the exception it ends with, if any *)
  e_calipso_to_las : string -> string -> gmap string node ->
                     list (string * string) * option exn
}.

(** ** The monad *)

Definition M (A : Type) : Type := world -> outcome A * world.

Definition ret {A} (a : A) : M A := fun w => (Ret a, w).

Definition bind {A B} (m : M A) (k : A -> M B) : M B :=
  fun w => match m w with
           | (Ret a, w') => k a w'
           | (Raise e, w') => (Raise e, w')
           end.

Definition raise {A} (e : exn) : M A := fun w => (Raise e, w).

Definition lift {A} (o : outcome A) : M A := fun w => (o, w).

Notation "x <- m ;; k" := (bind m (fun x => k))
  (at level 100, m at next level, right associativity, only parsing).
Notation "m ;; k" := (bind m (fun _ => k))
  (at level 100, right associativity, only parsing).

(** [try: body finally: final].  An exception of [final] replaces the
    outcome of [body]. *)
Definition try_finally {A} (body : M A) (final : M unit) : M A :=
  fun w => match body w with
           | (r, w') =>
               match final w' with
               | (Ret _, w'') => (r, w'')
               | (Raise e, w'') => (Raise e, w'')
               end
           end.

(** [try: body except ...: handler].  [handler e = None] means that no
    clause matches [e]; an exception raised inside a handler is not
    caught by the other clauses. *)
Definition try_except {A} (body : M A) (handler : exn -> option (M A)) : M A :=
  fun w => match body w with
           | (Ret a, w') => (Ret a, w')
           | (Raise e, w') =>
               match handler e with
               | Some h => h w'
               | None => (Raise e, w')
               end
           end.

Definition emit (ev : event) : M unit :=
  fun w => (Ret tt, World (fs w) (stdin w) (log w ++ [ev])).

Definition print (template : string) (args : list doc) : M unit :=
  emit (Print template args).

Definition get_fs : M (gmap string node) := fun w => (Ret (fs w), w).

Definition set_fs (f : gmap string node) : M unit :=
  fun w => (Ret tt, World f (stdin w) (log w)).

(** [os.path.exists] / [Path.exists] *)
Definition path_exists (p : string) : M bool :=
  f <- get_fs;; ret (bool_decide (is_Some (f !! p))).

(** [Path.mkdir(exist_ok=True)]: an existing directory is accepted, an
    existing file is an error.  Parent directories are not modelled. *)
Definition mkdir (p : string) : M unit :=
  f <- get_fs;;
  match f !! p with
  | Some Dir => ret tt
  | Some (File _) => raise FileExistsError
  | None => emit (Mkdir p) ;; set_fs (<[p := Dir]> f)
  end.

(** [os.unlink] / [Path.unlink] *)
Definition unlink (p : string) : M unit :=
  f <- get_fs;;
  match f !! p with
  | Some (File _) => emit (Unlink p) ;; set_fs (delete p f)
  | _ => raise FileNotFoundError
  end.

(** The files a program leaves behind, written over the file system. *)
Definition write_all (ws : list (string * string)) (f : gmap string node)
  : gmap string node :=
  foldl (fun acc kv => <[kv.1 := File kv.2]> acc) f ws.

(** [input(prompt)] *)
Definition input (msg : string) : M string :=
  fun w => match stdin w with
           | [] => (Raise EOFError, World (fs w) [] (log w ++ [Prompt msg]))
           | l :: ls => (Ret l, World (fs w) ls (log w ++ [Prompt msg]))
           end.

(** [sys.exit] *)
Definition sys_exit {A} (code : Z) : M A := raise (SystemExit code).

(** The exit status of a script whose body is [m]: 0 when it returns,
    the code of [sys.exit], and 1 for an uncaught exception. *)
Definition exit_status {A} (r : outcome A) : Z :=
  match r with
  | Ret _ => 0
  | Raise (SystemExit c) => c
  | Raise _ => 1
  end.

(** [Path(a) / b] *)
Definition path_join (a b : string) : string := a +:+ "/" +:+ b.

(** ** Dynamic operations on Python values *)

Fixpoint assoc {N} (k : string) (d : list (string * pyval N)) : option (pyval N) :=
  match d with
  | [] => None
  | (k', v) :: d' => if String.eqb k k' then Some v else assoc k d'
  end.

(** [v.get(k, default)] *)
Definition py_get (v : doc) (k : string) (default : doc) : outcome doc :=
  match v with
  | PDict d => Ret (match assoc k d with Some x => x | None => default end)
  | _ => Raise AttributeError
  end.

(** [len(v)] *)
Definition py_len (v : doc) : outcome nat :=
  match v with
  | PList l => Ret (List.length l)
  | PStr s => Ret (String.length s)
  | PDict d => Ret (List.length d)
  | _ => Raise TypeError
  end.

(** [v[i]] for a literal index [i] *)
Definition py_index (v : doc) (i : nat) : outcome doc :=
  match v with
  | PList l => match nth_error l i with
               | Some x => Ret x
               | None => Raise (OtherError "IndexError")
               end
  | PStr s => match String.get i s with
              | Some c => Ret (PStr (String c EmptyString))
              | None => Raise (OtherError "IndexError")
              end
  | PDict _ => Raise KeyError
  | _ => Raise TypeError
  end.

(** The numeric value of a number; [bool] is a subclass of [int]. *)
Definition py_number (v : doc) : option Q :=
  match v with
  | PNum q => Some q
  | PBool b => Some (if b then 1 else 0)%Q
  | _ => None
  end.

(** [format(v, spec)] for the numeric specs [.6f], [.3f] and [,]: a
    string is rejected with [ValueError], a non-number with [TypeError]. *)
Definition py_format_num (v : doc) : outcome unit :=
  match v with
  | PNum _ | PBool _ => Ret tt
  | PStr _ => Raise ValueError
  | _ => Raise TypeError
  end.

(** [abs(v) > bound] *)
Definition py_abs_gt (v : doc) (bound : Z) : outcome bool :=
  match py_number v with
  | Some q => Ret (negb (Qle_bool (Qabs q) (inject_Z bound)))
  | None => Raise TypeError
  end.

(** [v > bound] *)
Definition py_gt (v : doc) (bound : Z) : outcome bool :=
  match py_number v with
  | Some q => Ret (negb (Qle_bool q (inject_Z bound)))
  | None => Raise TypeError
  end.


(** ** JSON text: [json.dumps] and [json.loads]

    The descriptors are written with [json.dump(pipeline, f, indent=2)]
    and [json.dumps(pipeline)].  Both are the encoder of Python's [json]
    module with [ensure_ascii] on; it is written out here together with
    the decoder of the same module, for the values of [descriptor]. *)

(** A number as [repr] prints it in positional notation: sign, integer
    digits and, for a float, the digits after the point. *)
Record numlit : Type := NumLit {
  n_neg : bool;
  n_int : string;
  n_frac : option string
}.

Abbreviation descriptor := (pyval numlit).

Definition dquote : ascii := "034"%char.
Definition backslash : ascii := "092"%char.
Definition newline : ascii := "010"%char.

Definition is_digit (c : ascii) : bool :=
  (48 <=? nat_of_ascii c)%nat && (nat_of_ascii c <=? 57)%nat.

Fixpoint all_digits (s : string) : bool :=
  match s with
  | EmptyString => true
  | String c r => is_digit c && all_digits r
  end.

(** The digits [NUMBER_RE] accepts before the point: a single zero, or
    digits that do not start with a zero. *)
Definition int_digits_ok (s : string) : bool :=
  match s with
  | EmptyString => false
  | String c r =>
      if Ascii.eqb c "0" then String.eqb r "" else is_digit c && all_digits r
  end.

Definition frac_digits_ok (o : option string) : bool :=
  match o with
  | None => true
  | Some f => negb (String.eqb f "") && all_digits f
  end.

Definition numlit_ok (n : numlit) : bool :=
  int_digits_ok (n_int n) && frac_digits_ok (n_frac n).

Definition repr_num (n : numlit) : string :=
  (if n_neg n then "-" else "") +:+ n_int n +:+
  match n_frac n with Some f => "." +:+ f | None => "" end.

Definition hex_digit (n : nat) : ascii :=
  if (n <? 10)%nat then ascii_of_nat (48 + n) else ascii_of_nat (87 + n).

(** [ESCAPE_ASCII] and [ESCAPE_DCT] of [json.encoder] *)
Definition escape_char (c : ascii) : string :=
  let n := nat_of_ascii c in
  if Ascii.eqb c dquote then String backslash (String dquote "")
  else if Ascii.eqb c backslash then String backslash (String backslash "")
  else if (n =? 8)%nat then String backslash "b"
  else if (n =? 12)%nat then String backslash "f"
  else if (n =? 10)%nat then String backslash "n"
  else if (n =? 13)%nat then String backslash "r"
  else if (n =? 9)%nat then String backslash "t"
  else if (32 <=? n)%nat && (n <=? 126)%nat then String c ""
  else String backslash
         (String "u" (String "0" (String "0"
            (String (hex_digit (n / 16)) (String (hex_digit (n mod 16)) ""))))).

Fixpoint escape (s : string) : string :=
  match s with
  | EmptyString => EmptyString
  | String c r => escape_char c +:+ escape r
  end.

(** [py_encode_basestring_ascii] *)
Definition encode_string (s : string) : string :=
  String dquote (escape s +:+ String dquote "").

Fixpoint spaces (n : nat) : string :=
  match n with O => "" | S k => String " " (spaces k) end.

Definition newline_indent (indent : option nat) (level : nat) : string :=
  match indent with
  | Some n => String newline (spaces (n * level))
  | None => ""
  end.

Definition item_separator (indent : option nat) (level : nat) : string :=
  match indent with
  | Some _ => "," +:+ newline_indent indent level
  | None => ", "
  end.

Definition key_separator : string := ": ".

(** [_iterencode] at nesting depth [level] *)
Fixpoint encode (indent : option nat) (level : nat) (v : descriptor) : string :=
  match v with
  | PNone => "null"
  | PBool b => if b then "true" else "false"
  | PNum n => repr_num n
  | PStr s => encode_string s
  | PList [] => "[]"
  | PList l =>
      "[" +:+ newline_indent indent (S level) +:+
      String.concat (item_separator indent (S level))
                    (map (encode indent (S level)) l) +:+
      newline_indent indent level +:+ "]"
  | PDict [] => "{}"
  | PDict d =>
      "{" +:+ newline_indent indent (S level) +:+
      String.concat (item_separator indent (S level))
        (map (fun kv : string * descriptor =>
                let (k, x) := kv in
                encode_string k +:+ key_separator +:+ encode indent (S level) x) d) +:+
      newline_indent indent level +:+ "}"
  end.

(** [json.dumps(v, indent=indent)] *)
Definition dumps (indent : option nat) (v : descriptor) : string :=
  encode indent 0 v.

(** *** The decoder *)

Definition is_ws (c : ascii) : bool :=
  let n := nat_of_ascii c in
  (n =? 32)%nat || (n =? 9)%nat || (n =? 10)%nat || (n =? 13)%nat.

Fixpoint skip_ws (s : string) : string :=
  match s with
  | String c r => if is_ws c then skip_ws r else s
  | EmptyString => s
  end.

Definition hex_value (c : ascii) : option nat :=
  let n := nat_of_ascii c in
  if (48 <=? n)%nat && (n <=? 57)%nat then Some (n - 48)
  else if (97 <=? n)%nat && (n <=? 102)%nat then Some (n - 87)
  else if (65 <=? n)%nat && (n <=? 70)%nat then Some (n - 55)
  else None.

Definition hex4 (a b c d : ascii) : option nat :=
  match hex_value a, hex_value b, hex_value c, hex_value d with
  | Some x, Some y, Some z, Some t => Some (((x * 16 + y) * 16 + z) * 16 + t)
  | _, _, _, _ => None
  end.

(** [BACKSLASH] of [json.decoder] *)
Definition unescape (e : ascii) : option ascii :=
  if Ascii.eqb e dquote then Some dquote
  else if Ascii.eqb e backslash then Some backslash
  else if Ascii.eqb e "/" then Some "/"%char
  else if Ascii.eqb e "b" then Some (ascii_of_nat 8)
  else if Ascii.eqb e "f" then Some (ascii_of_nat 12)
  else if Ascii.eqb e "n" then Some (ascii_of_nat 10)
  else if Ascii.eqb e "r" then Some (ascii_of_nat 13)
  else if Ascii.eqb e "t" then Some (ascii_of_nat 9)
  else None.

Definition cons_char (c : ascii) (r : option (string * string))
  : option (string * string) :=
  match r with
  | Some (t, rest) => Some (String c t, rest)
  | None => None
  end.

(** [py_scanstring] in strict mode, from just after the opening quote:
    the decoded text and what follows the closing quote.  A [\u] escape
    of a code point from 256 on has no counterpart in [string] and is
    refused. *)
Fixpoint scanstring (s : string) : option (string * string) :=
  match s with
  | EmptyString => None
  | String c r =>
      if Ascii.eqb c dquote then Some (EmptyString, r)
      else if Ascii.eqb c backslash then
        match r with
        | EmptyString => None
        | String e r1 =>
            if Ascii.eqb e "u" then
              match r1 with
              | String h1 (String h2 (String h3 (String h4 r2))) =>
                  match hex4 h1 h2 h3 h4 with
                  | Some n =>
                      if (n <? 256)%nat
                      then cons_char (ascii_of_nat n) (scanstring r2)
                      else None
                  | None => None
                  end
              | _ => None
              end
            else
              match unescape e with
              | Some ch => cons_char ch (scanstring r1)
              | None => None
              end
        end
      else if (nat_of_ascii c <? 32)%nat then None
      else cons_char c (scanstring r)
  end.

(** The longest prefix of digits, and the rest. *)
Fixpoint span_digits (s : string) : string * string :=
  match s with
  | String c r =>
      if is_digit c
      then let (d, rest) := span_digits r in (String c d, rest)
      else (EmptyString, s)
  | EmptyString => (EmptyString, EmptyString)
  end.

(** [NUMBER_RE]: an optional minus sign, the integer digits, an optional
    point with at least one digit, an optional exponent.  A number with
    an exponent is outside [numlit] and refused. *)
Definition scan_int_digits (s : string) : option (string * string) :=
  match s with
  | String c r =>
      if Ascii.eqb c "0" then Some ("0", r)
      else if is_digit c then Some (span_digits s)
      else None
  | EmptyString => None
  end.

Definition scan_frac (s : string) : option string * string :=
  match s with
  | String c r =>
      if Ascii.eqb c "." then
        match span_digits r with
        | (EmptyString, _) => (None, s)
        | (f, rest) => (Some f, rest)
        end
      else (None, s)
  | EmptyString => (None, s)
  end.

Definition has_exponent (s : string) : bool :=
  match s with
  | String c r =>
      if Ascii.eqb c "e" || Ascii.eqb c "E" then
        match r with
        | String d r' =>
            if is_digit d then true
            else if Ascii.eqb d "+" || Ascii.eqb d "-" then
              match r' with String d' _ => is_digit d' | _ => false end
            else false
        | EmptyString => false
        end
      else false
  | EmptyString => false
  end.

Definition scan_number (s : string) : option (numlit * string) :=
  let (neg, s1) := match s with
                   | String c r => if Ascii.eqb c "-" then (true, r) else (false, s)
                   | EmptyString => (false, s)
                   end in
  match scan_int_digits s1 with
  | Some (i, s2) =>
      let (f, s3) := scan_frac s2 in
      if has_exponent s3 then None else Some (NumLit neg i f, s3)
  | None => None
  end.

(** [dict(pairs)]: a repeated key keeps its first position and takes the
    last value. *)
Fixpoint dict_set {N} (d : list (string * pyval N)) (k : string) (v : pyval N)
  : list (string * pyval N) :=
  match d with
  | [] => [(k, v)]
  | (k', v') :: d' =>
      if String.eqb k k' then (k, v) :: d' else (k', v') :: dict_set d' k v
  end.

Definition dict_of_pairs {N} (ps : list (string * pyval N))
  : list (string * pyval N) :=
  foldl (fun d kv => dict_set d kv.1 kv.2) [] ps.

(** [s] without its prefix [p], when it has it. *)
Fixpoint strip_prefix (p s : string) : option string :=
  match p with
  | EmptyString => Some s
  | String a p' =>
      match s with
      | String b s' => if Ascii.eqb a b then strip_prefix p' s' else None
      | EmptyString => None
      end
  end.

Definition expect (c : ascii) (s : string) : option string :=
  match s with
  | String c' r => if Ascii.eqb c c' then Some r else None
  | EmptyString => None
  end.

(** [scan_once], [JSONArray] and [JSONObject].  [decode_value] starts at
    the first character of a value; [decode_elems] and [decode_members]
    start at the first element or key, white space already skipped, and
    read up to and including the closing bracket. *)
Fixpoint decode_value (fuel : nat) (s : string) : option (descriptor * string) :=
  match fuel with
  | O => None
  | S fuel' =>
      match s with
      | EmptyString => None
      | String c r =>
          if Ascii.eqb c dquote then
            match scanstring r with
            | Some (t, rest) => Some (PStr t, rest)
            | None => None
            end
          else if Ascii.eqb c "{" then
            match skip_ws r with
            | String c' r' =>
                if Ascii.eqb c' "}" then Some (PDict [], r')
                else match decode_members fuel' (String c' r') with
                     | Some (ps, rest) => Some (PDict (dict_of_pairs ps), rest)
                     | None => None
                     end
            | EmptyString => None
            end
          else if Ascii.eqb c "[" then
            match skip_ws r with
            | String c' r' =>
                if Ascii.eqb c' "]" then Some (PList [], r')
                else match decode_elems fuel' (String c' r') with
                     | Some (vs, rest) => Some (PList vs, rest)
                     | None => None
                     end
            | EmptyString => None
            end
          else
            match strip_prefix "null" s, strip_prefix "true" s,
                  strip_prefix "false" s with
            | Some rest, _, _ => Some (PNone, rest)
            | _, Some rest, _ => Some (PBool true, rest)
            | _, _, Some rest => Some (PBool false, rest)
            | _, _, _ =>
                match scan_number s with
                | Some (n, rest) => Some (PNum n, rest)
                | None => None
                end
            end
      end
  end
with decode_elems (fuel : nat) (s : string) : option (list descriptor * string) :=
  match fuel with
  | O => None
  | S fuel' =>
      match decode_value fuel' s with
      | Some (v, rest) =>
          match skip_ws rest with
          | String c r =>
              if Ascii.eqb c "]" then Some ([v], r)
              else if Ascii.eqb c "," then
                match decode_elems fuel' (skip_ws r) with
                | Some (vs, rest') => Some (v :: vs, rest')
                | None => None
                end
              else None
          | EmptyString => None
          end
      | None => None
      end
  end
with decode_members (fuel : nat) (s : string)
  : option (list (string * descriptor) * string) :=
  match fuel with
  | O => None
  | S fuel' =>
      match expect dquote s with
      | Some s1 =>
          match scanstring s1 with
          | Some (k, s2) =>
              match expect ":" (skip_ws s2) with
              | Some s3 =>
                  match decode_value fuel' (skip_ws s3) with
                  | Some (v, rest) =>
                      match skip_ws rest with
                      | String c r =>
                          if Ascii.eqb c "}" then Some ([(k, v)], r)
                          else if Ascii.eqb c "," then
                            match decode_members fuel' (skip_ws r) with
                            | Some (ps, rest') => Some ((k, v) :: ps, rest')
                            | None => None
                            end
                          else None
                      | EmptyString => None
                      end
                  | None => None
                  end
              | None => None
              end
          | None => None
          end
      | None => None
      end
  end.

(** [json.loads]: white space, one value, white space, end of text. *)
Definition loads (s : string) : option descriptor :=
  match decode_value (S (String.length s)) (skip_ws s) with
  | Some (v, rest) =>
      match skip_ws rest with
      | EmptyString => Some v
      | _ => None
      end
  | None => None
  end.

(** ** Paths and strings *)

(** [s] cut at the last occurrence of [c]. *)
Fixpoint split_last (c : ascii) (s : string) : option (string * string) :=
  match s with
  | EmptyString => None
  | String a r =>
      match split_last c r with
      | Some (u, v) => Some (String a u, v)
      | None => if Ascii.eqb a c then Some (EmptyString, r) else None
      end
  end.

(** [Path(p).name] *)
Definition path_name (p : string) : string :=
  match split_last "/" p with Some (_, b) => b | None => p end.

(** [Path(p).parent], for a path with a directory part *)
Definition path_parent (p : string) : option string :=
  match split_last "/" p with Some (d, _) => Some d | None => None end.

(** [Path(p).stem]: the name without its last suffix; a name that
    starts with its only dot, or ends with a dot, has no suffix. *)
Definition path_stem (p : string) : string :=
  let b := path_name p in
  match split_last "." b with
  | Some (EmptyString, _) => b
  | Some (_, EmptyString) => b
  | Some (u, _) => u
  | None => b
  end.

(** [s.replace(pat, rep)] for a non-empty [pat]; [skip] characters of a
    match just replaced are still to be passed over. *)
Fixpoint replace_from (pat rep : string) (skip : nat) (s : string) : string :=
  match s with
  | EmptyString => EmptyString
  | String c r =>
      match skip with
      | S k => replace_from pat rep k r
      | O =>
          if String.prefix pat s
          then rep +:+ replace_from pat rep (String.length pat - 1) r
          else String c (replace_from pat rep 0 r)
      end
  end.

Definition str_replace (pat rep s : string) : string :=
  replace_from pat rep 0 s.

(** [c.lower()] on the code points below 256 *)
Definition lower_char (c : ascii) : ascii :=
  let n := nat_of_ascii c in
  if ((65 <=? n) && (n <=? 90) ||
      (192 <=? n) && (n <=? 222) && negb (n =? 215))%nat
  then ascii_of_nat (n + 32) else c.

Fixpoint str_lower (s : string) : string :=
  match s with
  | EmptyString => EmptyString
  | String c r => String (lower_char c) (str_lower r)
  end.

Definition ends_with (suffix s : string) : bool :=
  String.prefix (String.rev suffix) (String.rev s).

(** [Path(dir).glob("*" + suffix)]: the entries of [dir] whose name ends
    with [suffix], in the order the file system lists them. *)
Definition glob_suffix (dir suffix : string) (f : gmap string node)
  : list string :=
  filter (fun p => path_parent p = Some dir /\ ends_with suffix (path_name p) = true)
         (map fst (map_to_list f)).

(** [" ".join(l)] *)
Definition str_join (sep : string) (l : list string) : string :=
  String.concat sep l.

(** [str(e)] for the messages that print an exception *)
Definition exn_str (e : exn) : string :=
  match e with
  | SystemExit c => pretty c
  | CalledProcessError rc _ _ =>
      "Command returned non-zero exit status " +:+ pretty rc +:+ "."
  | FileNotFoundError => "[Errno 2] No such file or directory"
  | FileExistsError => "[Errno 17] File exists"
  | EOFError => "EOF when reading a line"
  | JSONDecodeError => "Expecting value"
  | AttributeError => "object has no attribute"
  | TypeError => "unsupported operand or format"
  | ValueError => "invalid format specifier"
  | KeyError => "0"
  | RuntimeError msg => msg
  | OtherError msg => msg
  end.

(** ** convert_copc_to_potree.py *)

Section Scripts.
Context (E : env).

(** [tempfile.NamedTemporaryFile(suffix=suffix, delete=False)], written
    with [content] and closed; the result is its name. *)
Definition named_temporary_file (suffix content : string) : M string :=
  f <- get_fs;;
  let name := e_temp_name E suffix f in
  emit (MkTemp name);;
  set_fs (<[name := File content]> f);;
  ret name.

(** [subprocess.run(argv, input=input, capture_output=True, check=True)] *)
Definition subprocess_run (argv : list string) (input : option string)
  : M completed :=
  emit (Spawn argv input);;
  f <- get_fs;;
  match e_spawn E argv input f with
  | NoSuchProgram => raise FileNotFoundError
  | Exited c =>
      set_fs (write_all (c_writes c) f);;
      if (returncode c =? 0)%Z then ret c
      else raise (CalledProcessError (returncode c) (c_stdout c) (c_stderr c))
  end.

(** [p.stat().st_size / (1024 * 1024)] *)
Definition stat_size_mb (p : string) : M Q :=
  f <- get_fs;;
  match f !! p with
  | Some (File text) =>
      ret (inject_Z (Z.of_nat (String.length text)) / inject_Z 1048576)%Q
  | Some Dir => ret 0%Q
  | None => raise FileNotFoundError
  end.

Definition pdal_bin : string := "/opt/anaconda3/envs/pdal/bin/pdal".

Definition reproject_pipeline (input_copc output_las : string) : descriptor :=
  PDict [("pipeline", PList [
    PDict [("type", PStr "readers.copc");
           ("filename", PStr input_copc)];
    PDict [("type", PStr "filters.reprojection");
           ("in_srs", PStr "EPSG:3857");
           ("out_srs", PStr "EPSG:4326")];
    PDict [("type", PStr "writers.las");
           ("filename", PStr output_las);
           ("scale_x", PStr "0.0000001");
           ("scale_y", PStr "0.0000001");
           ("scale_z", PStr "0.001");
           ("offset_x", PStr "auto");
           ("offset_y", PStr "auto");
           ("offset_z", PStr "auto");
           ("a_srs", PStr "EPSG:4326")]])].

Definition reproject_copc_to_las (input_copc output_las : string) : M bool :=
  print "Reprojecting {} from EPSG:3857 to EPSG:4326..." [PStr input_copc];;
  let pipeline := reproject_pipeline input_copc output_las in
  pipeline_file <- named_temporary_file ".json" (dumps (Some 2) pipeline);;
  try_finally
    (try_except
       (subprocess_run [pdal_bin; "pipeline"; pipeline_file] None;;
        print "Reprojection complete: {}" [PStr output_las];;
        ret true)
       (fun e =>
          match e with
          | CalledProcessError _ out err =>
              Some (print "PDAL reprojection failed:" [];;
                    print "  stdout: {}" [PStr out];;
                    print "  stderr: {}" [PStr err];;
                    ret false)
          | _ => None
          end))
    (unlink pipeline_file).

Definition potree_converter : string :=
  "/Users/klesinger/github/deckGL/callipsoVizCOPC/PotreeConverter/build/PotreeConverter".

Definition potree_cmd (input_las output_dir : string) : list string :=
  [potree_converter; input_las; "-o"; output_dir; "--overwrite";
   "--generate-page"; "index";
   "--projection"; "+proj=longlat +ellps=WGS84 +datum=WGS84 +no_defs"].

Definition convert_las_to_potree (input_las output_dir : string) : M bool :=
  print "Converting {} to Potree format..." [PStr input_las];;
  let cmd := potree_cmd input_las output_dir in
  print "Running: {}" [PStr (str_join " " cmd)];;
  try_except
    (result <- subprocess_run cmd None;;
     print "Potree conversion complete: {}" [PStr output_dir];;
     print "Output:" [];;
     print "{}" [PStr (c_stdout result)];;
     ret true)
    (fun e =>
       match e with
       | CalledProcessError _ out err =>
           Some (print "PotreeConverter failed:" [];;
                 print "  stdout: {}" [PStr out];;
                 print "  stderr: {}" [PStr err];;
                 ret false)
       | FileNotFoundError =>
           Some (print "PotreeConverter not found!" [];;
                 print "Please install PotreeConverter: https://github.com/potree/PotreeConverter" [];;
                 ret false)
       | _ => None
       end).

(** [with open(p) as f: json.load(f)] *)
Definition json_load (p : string) : M doc :=
  f <- get_fs;;
  match f !! p with
  | Some (File text) =>
      match e_json_load E text with
      | Some v => ret v
      | None => raise JSONDecodeError
      end
  | _ => raise FileNotFoundError
  end.

(** [f"{v[i]:.6f}"]: index, then format *)
Definition fmt_coord (v : doc) (i : nat) : M doc :=
  x <- lift (py_index v i);;
  lift (py_format_num x);;
  ret x.

(** [abs(v[i]) > bound] *)
Definition abs_coord_gt (v : doc) (i : nat) (bound : Z) : M bool :=
  x <- lift (py_index v i);; lift (py_abs_gt x bound).

(** [v[i] > bound] *)
Definition coord_gt (v : doc) (i : nat) (bound : Z) : M bool :=
  x <- lift (py_index v i);; lift (py_gt x bound).

(** [a or b], evaluated left to right *)
Definition or_else (a b : M bool) : M bool :=
  bind a (fun x : bool => if x then ret true else b).

(** [a and b], evaluated left to right *)
Definition and_then (a b : M bool) : M bool :=
  bind a (fun x : bool => if x then b else ret false).

Definition msg_lon_warning : string :=
  "  WARNING: Longitude outside valid range [-180, 180]!".
Definition msg_lat_warning : string :=
  "  WARNING: Latitude outside valid range [-90, 90]!".
Definition msg_alt_warning : string :=
  "  WARNING: Altitude > 100 km (suspicious for CALIPSO data)".
Definition msg_bounds_ok : string := "  Bounds look reasonable!".
Definition msg_no_bounds : string := "  Could not read bounds from metadata".
Definition msg_no_metadata : string := "Warning: metadata.json not found at {}".

Definition verify_potree_metadata (output_dir : string) : M bool :=
  let metadata_path := path_join output_dir "metadata.json" in
  ex <- path_exists metadata_path;;
  if negb ex then
    print msg_no_metadata [PStr metadata_path];;
    ret false
  else
    metadata <- json_load metadata_path;;
    bbox <- lift (py_get metadata "boundingBox" (PDict []));;
    min_coords <- lift (py_get bbox "min" (PList []));;
    max_coords <- lift (py_get bbox "max" (PList []));;
    print "Potree Metadata Verification:" [];;
    version <- lift (py_get metadata "version" (PStr "unknown"));;
    print "  Version: {}" [version];;
    points <- lift (py_get metadata "points" (PNum 0%Q));;
    lift (py_format_num points);;
    print "  Points: {:,}" [points];;
    print "  Bounds:" [];;
    have_bounds <- and_then (n <- lift (py_len min_coords);; ret (3 <=? n)%nat)
                           (n <- lift (py_len max_coords);; ret (3 <=? n)%nat);;
    if have_bounds then
      lon0 <- fmt_coord min_coords 0;; lon1 <- fmt_coord max_coords 0;;
      print "    Longitude: {:.6f} to {:.6f}" [lon0; lon1];;
      lat0 <- fmt_coord min_coords 1;; lat1 <- fmt_coord max_coords 1;;
      print "    Latitude:  {:.6f} to {:.6f}" [lat0; lat1];;
      alt0 <- fmt_coord min_coords 2;; alt1 <- fmt_coord max_coords 2;;
      print "    Altitude:  {:.3f} to {:.3f} km" [alt0; alt1];;
      bad_lon <- or_else (abs_coord_gt min_coords 0 180)
                        (abs_coord_gt max_coords 0 180);;
      if bad_lon then print msg_lon_warning [];; ret false
      else
        bad_lat <- or_else (abs_coord_gt min_coords 1 90)
                          (abs_coord_gt max_coords 1 90);;
        if bad_lat then print msg_lat_warning [];; ret false
        else
          bad_alt <- coord_gt max_coords 2 100;;
          if bad_alt then print msg_alt_warning [];; ret false
          else print msg_bounds_ok [];; ret true
    else
      print msg_no_bounds [];;
      ret false.


Definition msg_input_not_found : string := "Input file not found: {}".
Definition msg_success : string := "Success! Potree data created at: {}".

(** The [finally] clause of [main] *)
Definition cleanup_temp (temp_las : string) : M unit :=
  ex <- path_exists temp_las;;
  if ex then
    unlink temp_las;;
    print "Cleaned up temp file: {}" [PStr temp_las]
  else ret tt.

(** [main] of convert_copc_to_potree.py, on [sys.argv] *)
Definition copc_main (argv : list string) : M unit :=
  match argv with
  | [_; input_copc; output_potree_dir] =>
      ex <- path_exists input_copc;;
      if negb ex then
        print msg_input_not_found [PStr input_copc];;
        sys_exit 1
      else
        mkdir output_potree_dir;;
        temp_las <- named_temporary_file ".las" "";;
        try_finally
          (ok1 <- reproject_copc_to_las input_copc temp_las;;
           if negb ok1 then
             print "Reprojection failed, aborting" [];;
             sys_exit 1
           else
             ok2 <- convert_las_to_potree temp_las output_potree_dir;;
             if negb ok2 then
               print "Potree conversion failed, aborting" [];;
               sys_exit 1
             else
               verify_potree_metadata output_potree_dir;;
               print msg_success [PStr output_potree_dir];;
               print "   Open {}/index.html to view" [PStr output_potree_dir])
          (cleanup_temp temp_las)
  | _ =>
      print "__doc__" [];;
      sys_exit 1
  end.

(** ** convert_las_to_tiled_copc.py *)

Record tile : Type := Tile {
  name : string;
  lat_min : Z;
  lat_max : Z
}.

Definition tiles : list tile :=
  [ Tile "south" (-90) (-30);
    Tile "south_mid" (-30) 0;
    Tile "north_mid" 0 30;
    Tile "north" 30 90 ].

Definition float_0_0001 : numlit := NumLit false "0" (Some "0001").
Definition float_0_001 : numlit := NumLit false "0" (Some "001").

(** [f"Y[{tile['lat_min']}:{tile['lat_max']}]"] *)
Definition tile_limits (t : tile) : string :=
  "Y[" +:+ pretty (lat_min t) +:+ ":" +:+ pretty (lat_max t) +:+ "]".

(** [output_dir / f"{base_name}_tile_{tile['name']}.copc.laz"] *)
Definition tile_copc_path (output_dir base_name : string) (t : tile) : string :=
  path_join output_dir (base_name +:+ "_tile_" +:+ name t +:+ ".copc.laz").

Definition writers_copc (copc_path : string) : descriptor :=
  PDict [("type", PStr "writers.copc");
         ("filename", PStr copc_path);
         ("forward", PStr "all");
         ("a_srs", PStr "EPSG:4326");
         ("scale_x", PNum float_0_0001);
         ("scale_y", PNum float_0_0001);
         ("scale_z", PNum float_0_001);
         ("offset_x", PStr "auto");
         ("offset_y", PStr "auto");
         ("offset_z", PStr "auto")].

Definition tile_pipeline (las_path copc_path : string) (t : tile) : descriptor :=
  PDict [("pipeline", PList [
    PDict [("type", PStr "readers.las");
           ("filename", PStr las_path)];
    PDict [("type", PStr "filters.range");
           ("limits", PStr (tile_limits t))];
    PDict [("type", PStr "filters.stats");
           ("dimensions", PStr "X,Y,Z,Intensity")];
    writers_copc copc_path])].

Definition pdal_stdin_cmd (pdal_path : string) : list string :=
  [pdal_path; "pipeline"; "--stdin"].

Definition msg_tile_created : string := "  Created {} ({:.1f} MB)".
Definition msg_tile_error : string := "  Error: {}".

(** The body of the loop over [tiles]. *)
Definition process_tile (las_path output_dir base_name : string) (t : tile)
  : M unit :=
  let copc_path := tile_copc_path output_dir base_name t in
  print "Processing tile: {} (lat: {} to {})"
        [PStr (name t); PNum (inject_Z (lat_min t)); PNum (inject_Z (lat_max t))];;
  let pipeline := tile_pipeline las_path copc_path t in
  try_except
    (let pipeline_json := dumps None pipeline in
     subprocess_run (pdal_stdin_cmd pdal_bin) (Some pipeline_json);;
     size_mb <- stat_size_mb copc_path;;
     print msg_tile_created [PStr (path_name copc_path); PNum size_mb])
    (fun e =>
       match e with
       | CalledProcessError _ _ err =>
           Some (print msg_tile_error [PStr (exn_str e)];;
                 print "  stderr: {}" [PStr err])
       | _ =>
           if is_Exception e
           then Some (print msg_tile_error [PStr (exn_str e)])
           else None
       end).

(** [for x in l: body x] *)
Fixpoint for_each {A} (l : list A) (body : A -> M unit) : M unit :=
  match l with
  | [] => ret tt
  | x :: l' => body x;; for_each l' body
  end.

Definition split_las_to_tiles (las_path output_dir : string) : M unit :=
  mkdir output_dir;;
  let base_name := path_stem las_path in
  print "Converting {} to tiled COPC files..." [PStr (path_name las_path)];;
  print "Output directory: {}" [PStr output_dir];;
  print "Creating {} latitude tiles" [PNum (inject_Z (Z.of_nat (List.length tiles)))];;
  for_each tiles (process_tile las_path output_dir base_name);;
  print "Tile conversion complete!" [];;
  print "Output directory: {}" [PStr output_dir].

(** ** convert_all_copc_to_potree.py *)

(** [convert_single_file((copc_file, output_base_dir))]: the name, the
    success flag and the message. *)
Definition convert_single_file (copc_file output_base_dir : string)
  : M (string * bool * string) :=
  let stem := str_replace ".copc" "" (path_stem copc_file) in
  let output_dir := path_join output_base_dir stem in
  print "Converting: {}" [PStr (path_name copc_file)];;
  print "Output: {}" [PStr output_dir];;
  let cmd := ["python3"; "convert_copc_to_potree.py"; copc_file; output_dir] in
  try_except
    (result <- subprocess_run cmd None;;
     print "{}" [PStr (c_stdout result)];;
     ret (path_name copc_file, true, "Success"))
    (fun e =>
       match e with
       | CalledProcessError _ _ err =>
           let error_msg := "Failed: " +:+ err in
           Some (print "{}" [PStr error_msg];;
                 ret (path_name copc_file, false, error_msg))
       | _ => None
       end).

(** [[f x for x in l]], one call after the other *)
Fixpoint map_m {A B} (f : A -> M B) (l : list A) : M (list B) :=
  match l with
  | [] => ret []
  | x :: l' => y <- f x;; ys <- map_m f l';; ret (y :: ys)
  end.

Definition msg_dir_not_found : string := "Input directory not found: {}".
Definition msg_aborted : string := "Aborted by user".

(** [main] of convert_all_copc_to_potree.py, on [sys.argv].  With
    [max_workers = 1] only the sequential branch runs. *)
Definition batch_main (argv : list string) : M unit :=
  match argv with
  | [_; copc_dir; output_base_dir] =>
      ex <- path_exists copc_dir;;
      if negb ex then
        print msg_dir_not_found [PStr copc_dir];;
        sys_exit 1
      else
        f <- get_fs;;
        let copc_files := glob_suffix copc_dir ".copc.laz" f in
        match copc_files with
        | [] =>
            print "No .copc.laz files found in {}" [PStr copc_dir];;
            sys_exit 1
        | _ =>
            let n := PNum (inject_Z (Z.of_nat (List.length copc_files))) in
            print "Found {} COPC file(s) to convert:" [n];;
            for_each copc_files (fun f => print "  - {}" [PStr (path_name f)]);;
            mkdir output_base_dir;;
            response <- input "Convert {} file(s)? [y/N]: ";;
            if negb (String.eqb (str_lower response) "y") then
              print msg_aborted [];;
              sys_exit 0
            else
              print "Starting conversion (max_workers={})..." [PNum 1%Q];;
              results <- map_m (fun f => convert_single_file f output_base_dir)
                               copc_files;;
              print "CONVERSION SUMMARY" [];;
              let successes := filter (fun r => r.1.2 = true) results in
              let failures := filter (fun r => r.1.2 = false) results in
              let total := PNum (inject_Z (Z.of_nat (List.length results))) in
              print "Successful: {}/{}"
                    [PNum (inject_Z (Z.of_nat (List.length successes))); total];;
              for_each successes (fun r => print "   - {}" [PStr r.1.1]);;
              (match failures with
               | [] => ret tt
               | _ =>
                   print "Failed: {}/{}"
                         [PNum (inject_Z (Z.of_nat (List.length failures))); total];;
                   for_each failures
                     (fun r => print "   - {}: {}" [PStr r.1.1; PStr r.2])
               end);;
              print "Output directory: {}" [PStr output_base_dir]
        end
  | _ =>
      print "__doc__" [];;
      sys_exit 1
  end.

(** ** convert_to_potree.py *)

(** The first path of [paths] that exists. *)
Fixpoint first_existing (paths : list string) : M (option string) :=
  match paths with
  | [] => ret None
  | p :: ps =>
      ex <- path_exists p;;
      if ex then ret (Some p) else first_existing ps
  end.

Definition common_paths : list string :=
  [ "/usr/local/bin/PotreeConverter";
    "/usr/bin/PotreeConverter";
    path_join (path_join (path_join (e_home E) "PotreeConverter") "build")
              "PotreeConverter";
    path_join (path_join (e_home E) "bin") "PotreeConverter" ].

(** A string option as a condition: [None] and the empty string are
    false. *)
Definition truthy (o : option string) : option string :=
  match o with
  | Some s => if String.eqb s "" then None else Some s
  | None => None
  end.

Definition msg_not_at_path : string :=
  "PotreeConverter not found at specified path: {}".

Definition check_potree_converter (potree_path : option string)
  : M (option string) :=
  match truthy potree_path with
  | Some p =>
      ex <- path_exists p;;
      if ex then ret (Some p)
      else
        print msg_not_at_path [PStr p];;
        ret None
  | None =>
      f <- get_fs;;
      match truthy (e_which E "PotreeConverter" f) with
      | Some p => ret (Some p)
      | None => first_existing common_paths
      end
  end.

Definition msg_install_title : string :=
  "PotreeConverter Installation Instructions".

Definition installation_lines : list string :=
  [ msg_install_title;
    "PotreeConverter is required but not found. Please install it:";
    "1. From Source (Recommended):";
    "   git clone https://github.com/potree/PotreeConverter.git";
    "   cd PotreeConverter";
    "   mkdir build && cd build";
    "   cmake ../";
    "   make";
    "2. Add to PATH or specify location:";
    "   - Add PotreeConverter to your PATH, or";
    "   - Use --potree-path flag to specify the executable location";
    "3. Verify installation:";
    "   PotreeConverter --help";
    "For more details, visit: https://github.com/potree/PotreeConverter" ].

Definition print_installation_instructions : M unit :=
  for_each installation_lines (fun line => print line []).

Definition las_to_copc_pipeline (las_path copc_path : string) : descriptor :=
  PDict [("pipeline", PList [
    PDict [("type", PStr "readers.las");
           ("filename", PStr las_path)];
    PDict [("type", PStr "filters.stats");
           ("dimensions", PStr "X,Y,Z,Intensity")];
    writers_copc copc_path])].

Definition convert_las_to_copc (las_path copc_path pdal_path : string) : M unit :=
  print "Converting LAS to COPC..." [];;
  print "  Input: {}" [PStr las_path];;
  print "  Output: {}" [PStr copc_path];;
  let pipeline_json := dumps None (las_to_copc_pipeline las_path copc_path) in
  try_except
    (subprocess_run (pdal_stdin_cmd pdal_path) (Some pipeline_json);;
     size_mb <- stat_size_mb copc_path;;
     print "Created COPC file: {}" [PStr copc_path];;
     print "  File size: {:.1f} MB" [PNum size_mb])
    (fun e =>
       match e with
       | CalledProcessError _ _ err =>
           Some (print "Error converting to COPC: {}" [PStr (exn_str e)];;
                 print "  stderr: {}" [PStr err];;
                 raise e)
       | _ => None
       end).

Definition convert_copc_to_potree
  (copc_path potree_output_dir potree_converter_path : string) : M unit :=
  print "Converting COPC to Potree format..." [];;
  print "  Input: {}" [PStr copc_path];;
  print "  Output directory: {}" [PStr potree_output_dir];;
  mkdir potree_output_dir;;
  let cmd := [potree_converter_path; copc_path; "-o"; potree_output_dir] in
  try_except
    (result <- subprocess_run cmd None;;
     print "Created Potree format files in: {}" [PStr potree_output_dir];;
     if String.eqb (c_stdout result) "" then ret tt
     else print "  PotreeConverter output: {}" [PStr (c_stdout result)])
    (fun e =>
       match e with
       | CalledProcessError _ _ err =>
           Some (print "Error converting to Potree: {}" [PStr (exn_str e)];;
                 (if String.eqb err "" then ret tt
                  else print "  stderr: {}" [PStr err]);;
                 raise e)
       | _ => None
       end).

(** [calipso_to_las.convert_calipso_to_las(hdf_path, las_path)], which
    is not part of these scripts *)
Definition convert_calipso_to_las (hdf_path las_path : string) : M unit :=
  emit (Call "convert_calipso_to_las" [hdf_path; las_path]);;
  f <- get_fs;;
  let (ws, err) := e_calipso_to_las E hdf_path las_path f in
  set_fs (write_all ws f);;
  match err with
  | Some e => raise e
  | None => ret tt
  end.

(** [if p.exists(): p.unlink(); print(...)] *)
Definition remove_if_exists (p : string) : M unit :=
  ex <- path_exists p;;
  if ex then
    unlink p;;
    print "  Removed: {}" [PStr p]
  else ret tt.

Definition msg_tool_not_found : string :=
  "PotreeConverter not found. Please install and try again.".

Definition convert_hdf_to_potree
  (hdf_path : string) (output_dir potree_converter_path : option string)
  (pdal_path : string) (keep_intermediate : bool) : M string :=
  potree_exec <- check_potree_converter potree_converter_path;;
  match potree_exec with
  | None =>
      print_installation_instructions;;
      raise (RuntimeError msg_tool_not_found)
  | Some potree_exec =>
      print "Found PotreeConverter: {}" [PStr potree_exec];;
      let output_dir := match output_dir with
                        | None => "potree_data"
                        | Some d => d
                        end in
      mkdir output_dir;;
      let base_name := path_stem hdf_path in
      let las_path := path_join output_dir (base_name +:+ ".las") in
      let copc_path := path_join output_dir (base_name +:+ ".copc.laz") in
      let potree_output := path_join output_dir base_name in
      print "Converting {} to Potree format" [PStr (path_name hdf_path)];;
      print "Pipeline: HDF -> LAS -> COPC -> Potree" [];;
      print "Output directory: {}" [PStr output_dir];;
      try_except
        (print "Step 1/3: Converting HDF to LAS..." [];;
         convert_calipso_to_las hdf_path las_path;;
         print "Created LAS file: {}" [PStr las_path];;
         print "Step 2/3: Converting LAS to COPC..." [];;
         convert_las_to_copc las_path copc_path pdal_path;;
         print "Step 3/3: Converting COPC to Potree..." [];;
         convert_copc_to_potree copc_path potree_output potree_exec;;
         (if negb keep_intermediate then
            print "Cleaning up intermediate files..." [];;
            remove_if_exists las_path;;
            remove_if_exists copc_path
          else ret tt);;
         print "Conversion complete!" [];;
         print "Potree output: {}" [PStr potree_output];;
         ret potree_output)
        (fun e =>
           if is_Exception e
           then Some (print "Conversion failed: {}" [PStr (exn_str e)];;
                      raise e)
           else None)
  end.

End Scripts.

(** ** Vocabulary of the statements *)

(** The metadata document that [json.load] reads in [dir]. *)
Definition metadata_on_disk (E : env) (w : world) (dir : string) (d : doc)
  : Prop :=
  exists text, fs w !! path_join dir "metadata.json" = Some (File text) /\
               e_json_load E text = Some d.

(** [d] is an object whose bounding box (an object, or absent) has the
    entries [mn] and [mx] under [min] and [max] (or their defaults). *)
Definition bounding_box (d mn mx : doc) : Prop :=
  exists bbox, py_get d "boundingBox" (PDict []) = Ret bbox /\
               py_get bbox "min" (PList []) = Ret mn /\
               py_get bbox "max" (PList []) = Ret mx.

(** The point count of [d] is absent or a number. *)
Definition points_printable (d : doc) : Prop :=
  exists p, py_get d "points" (PNum 0%Q) = Ret p /\ py_format_num p = Ret tt.

Definition triple (x y z : Q) : doc := PList [PNum x; PNum y; PNum z].

Definition within (lo hi : Z) (q : Q) : Prop :=
  (inject_Z lo <= q /\ q <= inject_Z hi)%Q.

(** The events of [w'] that are not yet in [w]. *)
Definition new_events (w w' : world) : list event :=
  drop (List.length (log w)) (log w').

Definition is_spawn (ev : event) : bool :=
  match ev with Spawn _ _ => true | _ => false end.

Definition spawns (evs : list event) : list event := List.filter is_spawn evs.

Definition printed (template : string) (ev : event) : bool :=
  match ev with Print t _ => String.eqb t template | _ => false end.

Definition count_printed (template : string) (evs : list event) : nat :=
  List.length (List.filter (printed template) evs).

(** What the range tests of [verify_potree_metadata] decide for numeric
    bounds: the result and the closing message. *)
Definition bad_abs (q : Q) (bound : Z) : bool :=
  negb (Qle_bool (Qabs q) (inject_Z bound)).

Definition verdict (a0 a1 b0 b1 b2 : Q) : bool * string :=
  if bad_abs a0 180 || bad_abs b0 180 then (false, msg_lon_warning)
  else if bad_abs a1 90 || bad_abs b1 90 then (false, msg_lat_warning)
  else if negb (Qle_bool b2 (inject_Z 100)) then (false, msg_alt_warning)
  else (true, msg_bounds_ok).

Definition report_head (ver p : doc) : list event :=
  [ Print "Potree Metadata Verification:" [];
    Print "  Version: {}" [ver];
    Print "  Points: {:,}" [p];
    Print "  Bounds:" [] ].

Definition bounds_report (ver p : doc) (a0 a1 a2 b0 b1 b2 : Q) : list event :=
  report_head ver p ++
  [ Print "    Longitude: {:.6f} to {:.6f}" [PNum a0; PNum b0];
    Print "    Latitude:  {:.6f} to {:.6f}" [PNum a1; PNum b1];
    Print "    Altitude:  {:.3f} to {:.3f} km" [PNum a2; PNum b2] ].

(** The result and the files of a started program, as
    [subprocess.run(..., check=True)] reports them. *)
Definition spawn_outcome (s : spawned) : outcome completed :=
  match s with
  | NoSuchProgram => Raise FileNotFoundError
  | Exited c =>
      if (returncode c =? 0)%Z then Ret c
      else Raise (CalledProcessError (returncode c) (c_stdout c) (c_stderr c))
  end.

Definition spawn_writes (s : spawned) : list (string * string) :=
  match s with
  | NoSuchProgram => []
  | Exited c => c_writes c
  end.

(** [q] is not a directory. *)
Definition file_or_absent (f : gmap string node) (q : string) : Prop :=
  f !! q = None \/ exists c, f !! q = Some (File c).

(** A computation that only reads and prints. *)
Definition reads_only {A} (m : M A) : Prop :=
  forall w, exists r evs, m w = (r, World (fs w) (stdin w) (log w ++ evs)).

(** A computation that turns no file, and no free name, into a
    directory. *)
Definition keeps_files {A} (m : M A) : Prop :=
  forall w q, file_or_absent (fs w) q -> file_or_absent (fs (m w).2) q.

Definition tile_spawn (las_path output_dir base_name : string) (t : tile)
  : event :=
  Spawn (pdal_stdin_cmd pdal_bin)
        (Some (dumps None
                 (tile_pipeline las_path (tile_copc_path output_dir base_name t) t))).

Definition can_mkdir (f : gmap string node) (p : string) : Prop :=
  forall c, f !! p <> Some (File c).

(** A step of a job: it returns, leaves the console input alone, and
    adds the events [evs] to the log. *)
Definition steps_with {A} (m : M A) (w : world) (a : A) (w' : world)
  (evs : list event) : Prop :=
  m w = (Ret a, w') /\ stdin w' = stdin w /\ log w' = log w ++ evs.

(** A range of PDAL's [filters.range], in its notation: the dimension,
    then the two ends separated by a colon; a square bracket closes an
    end (the value belongs to the range), a parenthesis opens it. *)
Record range : Type := Range {
  r_dim : string;
  r_lo_closed : bool;
  r_lo : Z;
  r_hi : Z;
  r_hi_closed : bool
}.

Definition range_text (r : range) : string :=
  r_dim r +:+ (if r_lo_closed r then "[" else "(") +:+ pretty (r_lo r) +:+
  ":" +:+ pretty (r_hi r) +:+ (if r_hi_closed r then "]" else ")").

Definition in_range (r : range) (y : Q) : Prop :=
  (if r_lo_closed r then inject_Z (r_lo r) <= y else inject_Z (r_lo r) < y)%Q /\
  (if r_hi_closed r then y <= inject_Z (r_hi r) else y < inject_Z (r_hi r))%Q.

(** The range that [tile_limits] writes. *)
Definition tile_range (t : tile) : range :=
  Range "Y" true (lat_min t) (lat_max t) true.

(** The file system once [mkdir p] has run. *)
Definition fs_after_mkdir (f : gmap string node) (p : string) : gmap string node :=
  match f !! p with None => <[p := Dir]> f | Some _ => f end.

(** [p] exists in [f]. *)
Definition exists_in (f : gmap string node) (p : string) : bool :=
  bool_decide (is_Some (f !! p)).

(** The paths of [convert_hdf_to_potree]. *)
Definition hdf_output_dir (output_dir : option string) : string :=
  match output_dir with None => "potree_data" | Some d => d end.

Definition hdf_las_path (hdf_path : string) (output_dir : option string) : string :=
  path_join (hdf_output_dir output_dir) (path_stem hdf_path +:+ ".las").

Definition hdf_copc_path (hdf_path : string) (output_dir : option string) : string :=
  path_join (hdf_output_dir output_dir) (path_stem hdf_path +:+ ".copc.laz").

(** ** Sample environments and worlds *)

(** A Potree metadata document. *)
Definition sample_doc (points mn mx : doc) : doc :=
  PDict [("version", PStr "2.0"); ("points", points);
         ("boundingBox", PDict [("min", mn); ("max", mx)])].

(** Every program exits with [rc] and writes nothing; every file parses
    to [d]. *)
Definition quiet_env (rc : Z) (d : doc) : env :=
  Env (fun _ _ _ => Exited (Completed rc "" "" []))
      (fun _ => Some d)
      (fun suffix _ => "/tmp/tmp0" +:+ suffix)
      (fun _ _ => None)
      "/home/user"
      (fun _ _ _ => ([], None)).

Definition sample_world : world :=
  World {[ "in.copc.laz" := File "copc";
           "out" := Dir;
           "out/metadata.json" := File "{}" ]} [] [].

Definition in_range_doc : doc :=
  sample_doc (PNum 1000%Q) (triple (-10)%Q 0%Q 0%Q) (triple 45%Q 1%Q 2%Q).

Definition null_points_doc : doc :=
  sample_doc PNone (PList []) (PList []).

Definition short_bounds_doc : doc :=
  sample_doc (PNum 1000%Q) (PList [PNum 1%Q; PNum 2%Q]) (triple 45%Q 1%Q 2%Q).

Definition deep_min_doc : doc :=
  sample_doc (PNum 1000%Q) (triple (-10)%Q 0%Q (-5000)%Q) (triple 45%Q 1%Q 2%Q).

Definition south : tile := Tile "south" (-90) (-30).
Definition south_mid : tile := Tile "south_mid" (-30) 0.

(** PDAL fails on the south band of [orbit.las] and writes the tiles of
    the other bands. *)
Definition south_job : string :=
  dumps None (tile_pipeline "orbit.las" (tile_copc_path "tiles" "orbit" south) south).

Definition tiler_env : env :=
  Env (fun _ input _ =>
         match input with
         | Some text =>
             if String.eqb text south_job
             then Exited (Completed 1 "" "readers.las: bad header" [])
             else Exited (Completed 0 "" ""
                    (map (fun t => (tile_copc_path "tiles" "orbit" t, "copc")) tiles))
         | None => NoSuchProgram
         end)
      (fun _ => None)
      (fun suffix _ => "/tmp/tmp0" +:+ suffix)
      (fun _ _ => None)
      "/home/user"
      (fun _ _ _ => ([], None)).

(** The converter is on the search path; every program exits with [rc];
    the HDF reader writes the LAS file. *)
Definition hdf_env (rc : Z) : env :=
  Env (fun _ _ _ => Exited (Completed rc "" "pdal: failed" []))
      (fun _ => None)
      (fun suffix _ => "/tmp/tmp0" +:+ suffix)
      (fun _ _ => Some "/usr/bin/PotreeConverter")
      "/home/user"
      (fun _ las _ => ([(las, "las")], None)).

Definition hdf_world : world :=
  World {[ "/usr/bin/PotreeConverter" := File "elf";
           "orbit.hdf" := File "hdf" ]} [] [].

Definition batch_world : world :=
  World {[ "copc" := Dir; "copc/a.copc.laz" := File "copc" ]} ["n"] [].

(** Every program succeeds; PDAL and the HDF reader write their output
    files. *)
Definition good_hdf_env : env :=
  Env (fun _ _ _ =>
         Exited (Completed 0 "" "" [("potree_data/orbit.copc.laz", "copc")]))
      (fun _ => None)
      (fun suffix _ => "/tmp/tmp0" +:+ suffix)
      (fun _ _ => Some "/usr/bin/PotreeConverter")
      "/home/user"
      (fun _ las _ => ([(las, "las")], None)).

(** A computation that only adds to the log. *)
Definition log_grows {A} (m : M A) : Prop :=
  forall w, exists evs, log (m w).2 = log w ++ evs.

(** The job stops at the resolution of the converter, in the world [w']
    that the resolution leaves: the error, and the installation
    instructions as the only further output. *)
Definition tool_not_found_failure (w' : world) (res : outcome string * world)
  : Prop :=
  res = (Raise (RuntimeError msg_tool_not_found),
         World (fs w') (stdin w')
               (log w' ++ map (fun line => Print line []) installation_lines)).

(** What may follow a value in a document: the end of the text, a
    comma, a closing bracket or white space. *)
Definition is_delim (c : ascii) : bool :=
  Ascii.eqb c "," || Ascii.eqb c "]" || Ascii.eqb c "}" || is_ws c.

Definition delimited (s : string) : bool :=
  match s with
  | EmptyString => true
  | String c _ => is_delim c
  end.

Fixpoint all_ws (s : string) : bool :=
  match s with
  | EmptyString => true
  | String c r => is_ws c && all_ws r
  end.

(** The first character of [s], if any, is not white space. *)
Definition head_not_ws (s : string) : bool :=
  match s with
  | EmptyString => true
  | String c _ => negb (is_ws c)
  end.

Definition head_not_digit (s : string) : bool :=
  match s with
  | EmptyString => true
  | String c _ => negb (is_digit c)
  end.

(** The characters a value can start with. *)
Definition value_head (s : string) : bool :=
  match s with
  | EmptyString => false
  | String c _ =>
      negb (is_ws c) && negb (Ascii.eqb c "]") && negb (Ascii.eqb c "}")
  end.

Fixpoint nodup_keys (ks : list string) : bool :=
  match ks with
  | [] => true
  | k :: r => negb (existsb (String.eqb k) r) && nodup_keys r
  end.

(** A value that [json.dumps] can be given and [numlit] can hold: the
    numbers are well-formed, and no dictionary has a key twice. *)
Fixpoint wf_value (v : descriptor) : bool :=
  match v with
  | PNum n => numlit_ok n
  | PList l => forallb wf_value l
  | PDict d =>
      nodup_keys (map fst d) && forallb (fun kv => wf_value (snd kv)) d
  | _ => true
  end.

(** Fuel that suffices to decode the text of [v]. *)
Fixpoint need (v : descriptor) : nat :=
  match v with
  | PList l => S (fold_right (fun x acc => S (need x + acc)) 0%nat l)
  | PDict d => S (fold_right (fun kv acc => S (need (snd kv) + acc)) 0%nat d)
  | _ => 1
  end.

Definition need_elems (l : list descriptor) : nat :=
  fold_right (fun x acc => S (need x + acc)) 0%nat l.

Definition need_members (d : list (string * descriptor)) : nat :=
  fold_right (fun kv acc => S (need (snd kv) + acc)) 0%nat d.

(** [json.dumps] of one entry of a dictionary *)
Definition encode_member (indent : option nat) (level : nat)
  (kv : string * descriptor) : string :=
  let (k, x) := kv in
  encode_string k +:+ key_separator +:+ encode indent level x.

(** What the induction gives for a value [v]: its text, followed by
    [rest], decodes to [v] and [rest], with enough fuel. *)
Definition decodes (indent : option nat) (v : descriptor) : Prop :=
  wf_value v = true ->
  forall level fuel rest,
    (need v <= fuel)%nat -> delimited rest = true ->
    decode_value fuel (encode indent level v +:+ rest) = Some (v, rest).

(** A document with every kind of value. *)
Definition sample_value : descriptor :=
  PDict [("name", PStr (String dquote "a b")); ("none", PNone);
         ("flags", PList [PBool true; PBool false]);
         ("scale", PNum (NumLit true "12" (Some "50")));
         ("empty", PDict [])].

(** The printable characters of ASCII. *)
Definition printable (c : ascii) : bool :=
  (32 <=? nat_of_ascii c)%nat && (nat_of_ascii c <=? 126)%nat.

Definition printable_or_newline (c : ascii) : bool :=
  printable c || Ascii.eqb c newline.

Fixpoint all_chars (P : ascii -> bool) (s : string) : bool :=
  match s with
  | EmptyString => true
  | String c r => P c && all_chars P r
  end.

(** ** The rest of the scripts *)

Section MoreScripts.
Context (E : env).

(** [for i, x in enumerate(l, start): body i x] *)
Fixpoint for_each_from {A} (start : nat) (l : list A) (body : nat -> A -> M unit)
  : M unit :=
  match l with
  | [] => ret tt
  | x :: l' => body start x;; for_each_from (S start) l' body
  end.

(** [sorted(paths)] *)
Definition sorted_paths (l : list string) : list string :=
  merge_sort String.le l.

Definition msg_no_las : string := "No LAS files found in {}".

(** [process_all_las_files] of convert_las_to_tiled_copc.py *)
Definition process_all_las_files (las_dir output_dir : string) : M unit :=
  f <- get_fs;;
  let las_files := sorted_paths (glob_suffix las_dir ".las" f) in
  match las_files with
  | [] => print msg_no_las [PStr las_dir]
  | _ =>
      let n := PNum (inject_Z (Z.of_nat (List.length las_files))) in
      print "Found {} LAS files to process" [n];;
      print "Input directory: {}" [PStr las_dir];;
      print "Output directory: {}" [PStr output_dir];;
      for_each_from 1 las_files
        (fun i las_file =>
           print "[{}/{}] Processing {}"
                 [PNum (inject_Z (Z.of_nat i)); n; PStr (path_name las_file)];;
           split_las_to_tiles E las_file output_dir)
  end.

(** The degree sign, in UTF-8 *)
Definition degree : string := String "194" (String "176" EmptyString).

Definition tiler_usage : list string :=
  [ "Usage:";
    "  Single file:  python convert_las_to_tiled_copc.py <input.las> [output_dir]";
    "  All files:    python convert_las_to_tiled_copc.py --all <las_dir> <output_dir>";
    "This script creates 4 latitude-based COPC tiles:";
    "  - south:      -90" +:+ degree +:+ " to -30" +:+ degree;
    "  - south_mid:  -30" +:+ degree +:+ " to 0" +:+ degree;
    "  - north_mid:   0" +:+ degree +:+ " to 30" +:+ degree;
    "  - north:      30" +:+ degree +:+ " to 90" +:+ degree;
    "Latitude tiling avoids COPC cube calculation issues for orbital data." ].

Definition default_tiled_dir : string := "public/potree_data/tiled".

(** The handler of the scripts' outermost [except Exception as e]: the
    message (on standard error, with the traceback) and [sys.exit(1)]. *)
Definition exit_on_exception {A} (e : exn) : option (M A) :=
  if is_Exception e
  then Some (print "Error: {}" [PStr (exn_str e)];; sys_exit 1)
  else None.

(** The [__main__] block of convert_las_to_tiled_copc.py, on [sys.argv] *)
Definition tiler_main (argv : list string) : M unit :=
  match argv with
  | _ :: arg1 :: rest =>
      try_except
        (if String.eqb arg1 "--all" then
           match rest with
           | las_dir :: output_dir :: _ =>
               process_all_las_files las_dir output_dir
           | _ =>
               print "Error: --all requires <las_dir> and <output_dir>" [];;
               sys_exit 1
           end
         else
           let output_dir := match rest with
                             | o :: _ => o
                             | [] => default_tiled_dir
                             end in
           split_las_to_tiles E arg1 output_dir)
        exit_on_exception
  | _ =>
      for_each tiler_usage (fun line => print line []);;
      sys_exit 1
  end.

(** The command line of convert_to_potree.py, as [argparse] returns it *)
Record hdf_args : Type := HdfArgs {
  a_input : string;
  a_output_dir : string;
  a_potree_path : option string;
  a_pdal_path : string;
  a_keep_intermediate : bool
}.

(** [main] of convert_to_potree.py, after [parser.parse_args()] *)
Definition hdf_main (args : hdf_args) : M unit :=
  try_except
    (convert_hdf_to_potree E (a_input args) (Some (a_output_dir args))
       (a_potree_path args) (a_pdal_path args) (a_keep_intermediate args);;
     ret tt)
    exit_on_exception.

End MoreScripts.

(** ** run_copc_tests.py *)

(** [sub in s] *)
Fixpoint contains (sub s : string) : bool :=
  String.prefix sub s ||
  match s with
  | String _ r => contains sub r
  | EmptyString => false
  end.

(** The category that [generate_test_summary] reads off the name of a
    test. *)
Definition infer_category (name : string) : string :=
  if contains "Mobile" name then "Mobile"
  else if contains "Desktop" name then "Desktop"
  else if contains "Balanced" name then "Balanced"
  else if contains "Progressive" name then "Progressive"
  else if contains "Decimation" name then "Decimation"
  else if contains "Altitude" name then "Altitude Filters"
  else if contains "Backscatter" name then "Backscatter Filters"
  else if contains "Recommended" name then "Recommended"
  else if contains "Detail" name then "Detail Levels"
  else if contains "Budget" name then "Point Budget"
  else "Other".

Definition category_keywords : list string :=
  [ "Mobile"; "Desktop"; "Balanced"; "Progressive"; "Decimation"; "Altitude";
    "Backscatter"; "Recommended"; "Detail"; "Budget" ].

(** A test configuration, as far as the grouping uses it. *)
Record test_config : Type := TestConfig {
  test_id : string;
  test_name : string;
  expected_fps : string
}.

(** [if cat not in categories: categories[cat] = []] and
    [categories[cat].append(test)] *)
Fixpoint group_add {A} (groups : list (string * list A)) (cat : string) (x : A)
  : list (string * list A) :=
  match groups with
  | [] => [(cat, [x])]
  | (c, xs) :: groups' =>
      if String.eqb cat c then (c, xs ++ [x]) :: groups'
      else (c, xs) :: group_add groups' cat x
  end.

(** The dictionary [categories] of [generate_test_summary], in insertion
    order. *)
Definition categories (tests : list test_config)
  : list (string * list test_config) :=
  foldl (fun groups t => group_add groups (infer_category (test_name t)) t)
        [] tests.

(** The group of [generate_quick_reference] for an expected frame rate. *)
Definition fps_group (fps : string) : string :=
  if contains "60" fps && negb (contains "45" fps) then "60 FPS"
  else if contains "45-60" fps then "45-60 FPS"
  else if contains "30" fps then
    if contains "15" fps || contains "<" fps then "Below 30 FPS"
    else "30-45 FPS"
  else "Below 30 FPS".

(** The dictionary [fps_groups] of [generate_quick_reference]: the four
    keys it starts with, then one [append] for each test. *)
Definition fps_keys : list string :=
  [ "60 FPS"; "45-60 FPS"; "30-45 FPS"; "Below 30 FPS" ].

Definition fps_groups (tests : list test_config)
  : list (string * list test_config) :=
  foldl (fun groups t => group_add groups (fps_group (expected_fps t)) t)
        (map (fun k => (k, [])) fps_keys) tests.

(** [sorted(categories.items())]: the keys differ, so they decide. *)
Definition sorted_categories (tests : list test_config)
  : list (string * list test_config) :=
  merge_sort (fun a b => String.le a.1 b.1) (categories tests).

(** The counts that the summary prints, one line for each category. *)
Definition category_counts (tests : list test_config) : list (string * nat) :=
  map (fun g => (g.1, List.length g.2)) (sorted_categories tests).

(** The tests whose name puts them in the category [cat], in the order
    of the file. *)
Definition in_category (cat : string) (tests : list test_config)
  : list test_config :=
  List.filter (fun t => String.eqb (infer_category (test_name t)) cat) tests.

Definition in_fps_group (key : string) (tests : list test_config)
  : list test_config :=
  List.filter (fun t => String.eqb (fps_group (expected_fps t)) key) tests.

(** ** Vocabulary of the further statements *)

(** A computation that keeps the property [I] of the file system. *)
Definition preserves {A} (I : gmap string node -> Prop) (m : M A) : Prop :=
  forall w, I (fs w) -> I (fs (m w).2).

(** A computation whose exceptions all satisfy [P]. *)
Definition raises_only {A} (P : exn -> Prop) (m : M A) : Prop :=
  forall w e, (m w).1 = Raise e -> P e.

(** An exception that [except Exception] catches. *)
Definition an_exception (e : exn) : Prop := is_Exception e = true.

(** No program writes at the path [p]. *)
Definition programs_spare (E : env) (p : string) : Prop :=
  forall argv input f c,
    e_spawn E argv input f = Exited c -> ~ In p (map fst (c_writes c)).

(** Every program can be started. *)
Definition programs_start (E : env) : Prop :=
  forall argv input f, e_spawn E argv input f <> NoSuchProgram.

(** The child process that [convert_single_file] starts for a file. *)
Definition batch_spawn (output_base_dir copc_file : string) : event :=
  Spawn ["python3"; "convert_copc_to_potree.py"; copc_file;
         path_join output_base_dir
                   (str_replace ".copc" "" (path_stem copc_file))] None.

(** The number of entries of all the groups of a dictionary of lists. *)
Definition group_sizes {A} (groups : list (string * list A)) : nat :=
  List.length (concat (map snd groups)).

(** The elements of [l] whose key is [c]. *)
Definition keyed {B} (key : B -> string) (c : string) (l : list B) : list B :=
  List.filter (fun t => String.eqb (key t) c) l.

(** A directory with two LAS files, and nothing where the tiles go. *)
Definition las_world : world :=
  World {[ "las" := Dir;
           "las/b.las" := File "las";
           "las/a.las" := File "las";
           "las/notes.txt" := File "text" ]} [] [].

(** The processes that tiling the files [las_files] starts. *)
Definition tiling_spawns (las_files : list string) (output_dir : string)
  : list event :=
  concat (map (fun las => map (tile_spawn las output_dir (path_stem las)) tiles)
              las_files).

(** The command line is too short for the tiler. *)
Definition tiler_usage_error (argv : list string) : Prop :=
  (List.length argv < 2)%nat \/
  (nth_error argv 1 = Some "--all" /\ (List.length argv < 4)%nat).

(** A computation that returns after messages only. *)
Definition says {A} (m : M A) : Prop :=
  forall w, exists a evs,
    m w = (Ret a, World (fs w) (stdin w) (log w ++ evs)) /\
    Forall (fun ev => exists t args, ev = Print t args) evs.

(** The batch of [batch_world], with the answer [y]. *)
Definition batch_yes_world : world :=
  World {[ "copc" := Dir;
           "copc/a.copc.laz" := File "copc";
           "copc/b.copc.laz" := File "copc" ]} ["Y"] [].

(** PDAL, called on a descriptor file, exits with an error. *)
Definition pdal_fails (E : env) : Prop :=
  forall p f, exists c,
    e_spawn E [pdal_bin; "pipeline"; p] None f = Exited c /\
    returncode c <> 0%Z.

Definition is_print (ev : event) : Prop := exists t args, ev = Print t args.

(** A computation that leaves the files and the console input alone and
    only prints, whether it returns or raises. *)
Definition reports_only {A} (m : M A) : Prop :=
  forall w, exists r evs,
    m w = (r, World (fs w) (stdin w) (log w ++ evs)) /\ Forall is_print evs.

(** What PDAL leaves of the job of [convert_las_to_copc]. *)
Definition las_to_copc_spawn (las_path copc_path pdal_path : string) : event :=
  Spawn (pdal_stdin_cmd pdal_path)
        (Some (dumps None (las_to_copc_pipeline las_path copc_path))).

(** The HDF reader ends with an error that [except Exception] catches,
    or without error. *)
Definition reader_raises_exceptions (E : env) : Prop :=
  forall hdf las f e, (e_calipso_to_las E hdf las f).2 = Some e -> an_exception e.

(** The HDF reader fails on every file, whatever it has written. *)
Definition reader_fails (E : env) (e : exn) : Prop :=
  forall hdf las f, (e_calipso_to_las E hdf las f).2 = Some e.

Definition failing_reader_env : env :=
  Env (fun _ _ _ => Exited (Completed 0 "" "" []))
      (fun _ => None)
      (fun suffix _ => "/tmp/tmp0" +:+ suffix)
      (fun _ _ => Some "/usr/bin/PotreeConverter")
      "/home/user"
      (fun _ las _ => ([(las, "")], Some (OtherError "not a CALIPSO file"))).

Definition sample_hdf_args (keep : bool) : hdf_args :=
  HdfArgs "orbit.hdf" "potree_data" None pdal_bin keep.

(** When the computation returns, its value satisfies [V] and the
    processes it has started are [l], in this order. *)
Definition returns_with {A} (m : M A) (V : A -> Prop) (l : list event) : Prop :=
  forall w a w', m w = (Ret a, w') ->
    V a /\ exists evs, log w' = log w ++ evs /\ spawns evs = l.

(** A computation that never returns. *)
Definition no_return {A} (m : M A) : Prop :=
  forall w a w', m w <> (Ret a, w').

Definition hdf_potree_output (hdf_path : string) (output_dir : option string)
  : string :=
  path_join (hdf_output_dir output_dir) (path_stem hdf_path).

(** The character [c] does not occur in [s]. *)
Fixpoint no_char (c : ascii) (s : string) : bool :=
  match s with
  | EmptyString => true
  | String a r => negb (Ascii.eqb a c) && no_char c r
  end.

(** A file name without its suffixes: not empty, no slash, no dot. *)
Definition plain_name (s : string) : Prop :=
  s <> "" /\ no_char "/" s = true /\ no_char "." s = true.

Definition sample_tests : list test_config :=
  [ TestConfig "T001" "Mobile Low Detail" "60";
    TestConfig "T002" "Desktop High Detail" "45-60";
    TestConfig "T003" "Mobile Balanced" "30-45";
    TestConfig "T004" "Stress" "<30" ].

(** * Properties *)

(** ** The monad and the primitive effects *)

Lemma path_exists_some p n w :
  fs w !! p = Some n -> path_exists p w = (Ret true, w).
Proof.
  intros H. unfold path_exists, bind, get_fs, ret. rewrite H. reflexivity.
Qed.

Lemma path_exists_none p w :
  fs w !! p = None -> path_exists p w = (Ret false, w).
Proof.
  intros H. unfold path_exists, bind, get_fs, ret. rewrite H. reflexivity.
Qed.

Lemma within_abs (b : Z) (q : Q) :
  negb (Qle_bool (Qabs q) (inject_Z b)) = false <-> within (- b) b q.
Proof.
  unfold within. rewrite negb_false_iff, Qle_bool_iff, Qabs_Qle_condition.
  rewrite inject_Z_opp. reflexivity.
Qed.

Lemma at_most (b : Z) (q : Q) :
  negb (Qle_bool q (inject_Z b)) = false <-> (q <= inject_Z b)%Q.
Proof. rewrite negb_false_iff. apply Qle_bool_iff. Qed.

Lemma file_or_absent_insert f p c q :
  file_or_absent f q -> file_or_absent (<[p := File c]> f) q.
Proof.
  intros H. unfold file_or_absent. destruct (decide (p = q)) as [->|Hne].
  - right. exists c. apply lookup_insert_eq.
  - rewrite lookup_insert_ne by done. exact H.
Qed.

Lemma file_or_absent_delete f p q :
  file_or_absent f q -> file_or_absent (delete p f) q.
Proof.
  intros H. unfold file_or_absent. destruct (decide (p = q)) as [->|Hne].
  - left. apply lookup_delete_eq.
  - rewrite lookup_delete_ne by done. exact H.
Qed.

Lemma file_or_absent_write_all ws f q :
  file_or_absent f q -> file_or_absent (write_all ws f) q.
Proof.
  revert f. induction ws as [|[k c] ws IH]; intros f H; simpl; [exact H|].
  apply IH. apply file_or_absent_insert. exact H.
Qed.

Lemma write_all_file ws f p c :
  f !! p = Some (File c) -> exists c', write_all ws f !! p = Some (File c').
Proof.
  revert f c. induction ws as [|[k c0] ws IH]; intros f c H; simpl; [eauto|].
  destruct (decide (k = p)) as [->|Hne].
  - apply (IH _ c0). apply lookup_insert_eq.
  - apply (IH _ c). rewrite lookup_insert_ne by done. exact H.
Qed.

(** Symbolic execution of the primitive effects. *)
Ltac run :=
  repeat (progress
    (cbv delta [bind try_finally try_except print emit get_fs set_fs ret
                raise lift unlink sys_exit named_temporary_file];
     cbn [fs stdin log])).

Lemma world_eta w : w = World (fs w) (stdin w) (log w ++ []).
Proof. destruct w. rewrite app_nil_r. reflexivity. Qed.

(** *** Computations that only read and print *)

Lemma ro_ret {A} (a : A) : reads_only (ret a).
Proof. intros w. exists (Ret a), []. unfold ret. f_equal. apply world_eta. Qed.

Lemma ro_raise {A} e : reads_only (@raise A e).
Proof. intros w. exists (Raise e), []. unfold raise. f_equal. apply world_eta. Qed.

Lemma ro_lift {A} (o : outcome A) : reads_only (lift o).
Proof. intros w. exists o, []. unfold lift. f_equal. apply world_eta. Qed.

Lemma ro_print t a : reads_only (print t a).
Proof. intros w. exists (Ret tt), [Print t a]. reflexivity. Qed.

Lemma ro_bind {A B} (m : M A) (k : A -> M B) :
  reads_only m -> (forall a, reads_only (k a)) -> reads_only (bind m k).
Proof.
  intros Hm Hk w. destruct (Hm w) as (r & evs & Hr). unfold bind. rewrite Hr.
  destruct r as [a|e].
  - destruct (Hk a (World (fs w) (stdin w) (log w ++ evs))) as (r' & evs' & Hr').
    rewrite Hr'. cbn [fs stdin log]. exists r', (evs ++ evs').
    rewrite app_assoc. reflexivity.
  - exists (Raise e), evs. reflexivity.
Qed.

Lemma ro_path_exists p : reads_only (path_exists p).
Proof. unfold path_exists, get_fs. apply ro_bind; [|intros; apply ro_ret].
  intros w. exists (Ret (fs w)), []. f_equal. apply world_eta. Qed.

Lemma ro_if {A} (b : bool) (m1 m2 : M A) :
  reads_only m1 -> reads_only m2 -> reads_only (if b then m1 else m2).
Proof. destruct b; auto. Qed.

Lemma ro_world {A} (m : M A) w :
  reads_only m -> fs (m w).2 = fs w /\ stdin (m w).2 = stdin w.
Proof. intros H. destruct (H w) as (r & evs & ->). auto. Qed.

(** *** Computations that make no directory *)

Lemma kf_reads_only {A} (m : M A) : reads_only m -> keeps_files m.
Proof. intros H w q Hq. destruct (H w) as (r & evs & ->). exact Hq. Qed.

Lemma kf_bind {A B} (m : M A) (k : A -> M B) :
  keeps_files m -> (forall a, keeps_files (k a)) -> keeps_files (bind m k).
Proof.
  intros Hm Hk w q Hq. specialize (Hm w q Hq). unfold bind.
  destruct (m w) as [[a|e] w']; cbn [snd] in *; [apply Hk|]; exact Hm.
Qed.

Lemma kf_try_except {A} (m : M A) h :
  keeps_files m -> (forall e k, h e = Some k -> keeps_files k) ->
  keeps_files (try_except m h).
Proof.
  intros Hm Hh w q Hq. specialize (Hm w q Hq). unfold try_except.
  destruct (m w) as [[a|e] w']; cbn [snd] in *; [exact Hm|].
  destruct (h e) as [k|] eqn:Hk; [apply (Hh _ _ Hk)|]; exact Hm.
Qed.

Lemma kf_try_finally {A} (m : M A) final :
  keeps_files m -> keeps_files final -> keeps_files (try_finally m final).
Proof.
  intros Hm Hf w q Hq. specialize (Hm w q Hq). unfold try_finally.
  destruct (m w) as [r w']; cbn [snd] in *. specialize (Hf w' q Hm).
  destruct (final w') as [[[]|e] w'']; exact Hf.
Qed.

Lemma kf_if {A} (b : bool) (m1 m2 : M A) :
  keeps_files m1 -> keeps_files m2 -> keeps_files (if b then m1 else m2).
Proof. destruct b; auto. Qed.

Lemma kf_unlink p : keeps_files (unlink p).
Proof.
  intros w q Hq. unfold unlink. run.
  destruct (fs w !! p) as [[|c]|]; cbn [snd fs]; try exact Hq.
  apply file_or_absent_delete, Hq.
Qed.

Lemma kf_ret {A} (a : A) : keeps_files (ret a).
Proof. apply kf_reads_only, ro_ret. Qed.
Lemma kf_raise {A} e : keeps_files (@raise A e).
Proof. apply kf_reads_only, ro_raise. Qed.
Lemma kf_print t a : keeps_files (print t a).
Proof. apply kf_reads_only, ro_print. Qed.

Create HintDb effects.
#[local] Hint Resolve kf_ret kf_raise kf_print kf_unlink : effects.

Ltac effects :=
  repeat first
    [ solve [auto with effects]
    | apply kf_bind; [|intros ?]
    | apply kf_try_finally
    | apply kf_if
    | apply kf_try_except;
      [| let e := fresh "e" in let k := fresh "k" in let Hk := fresh "Hk" in
         intros e k Hk; destruct e; cbn in Hk; try discriminate Hk;
         injection Hk as <- ] ].


Lemma spawns_app a b : spawns (a ++ b) = spawns a ++ spawns b.
Proof. apply List.filter_app. Qed.

Lemma count_printed_app t a b :
  count_printed t (a ++ b) = (count_printed t a + count_printed t b)%nat.
Proof. unfold count_printed. rewrite List.filter_app, length_app. reflexivity. Qed.

Lemma new_events_app w w' evs : log w' = log w ++ evs -> new_events w w' = evs.
Proof. intros H. unfold new_events. rewrite H. apply drop_app_length. Qed.

Arguments dumps : simpl never.
Arguments tile_pipeline : simpl never.
Arguments tile_copc_path : simpl never.


Lemma bind_ret_inv {A B} (m : M A) (k : A -> M B) w b w' :
  bind m k w = (Ret b, w') ->
  exists a w1, m w = (Ret a, w1) /\ k a w1 = (Ret b, w').
Proof.
  unfold bind. destruct (m w) as [[a|e] w1]; [eauto | discriminate].
Qed.

Lemma print_inv t a w r w' :
  print t a w = (r, w') ->
  r = Ret tt /\ w' = World (fs w) (stdin w) (log w ++ [Print t a]).
Proof. intros [= <- <-]. auto. Qed.


Section ScriptFacts.
Context (E : env).

Lemma subprocess_run_eq argv input w :
  subprocess_run E argv input w =
    (spawn_outcome (e_spawn E argv input (fs w)),
     World (write_all (spawn_writes (e_spawn E argv input (fs w))) (fs w))
           (stdin w) (log w ++ [Spawn argv input])).
Proof.
  unfold subprocess_run. run.
  destruct (e_spawn E argv input (fs w)) as [c|]; cbn; [|reflexivity].
  destruct (returncode c =? 0)%Z; reflexivity.
Qed.

Lemma kf_subprocess_run argv input : keeps_files (subprocess_run E argv input).
Proof.
  intros w q Hq. rewrite subprocess_run_eq. cbn [snd fs].
  apply file_or_absent_write_all, Hq.
Qed.

Lemma kf_named_temporary_file suffix content :
  keeps_files (named_temporary_file E suffix content).
Proof.
  intros w q Hq. run. cbn [snd fs]. apply file_or_absent_insert, Hq.
Qed.

#[local] Hint Resolve kf_subprocess_run kf_named_temporary_file : effects.

Lemma ro_json_load p : reads_only (json_load E p).
Proof.
  unfold json_load, get_fs. apply ro_bind.
  - intros w. exists (Ret (fs w)), []. f_equal. apply world_eta.
  - intros f. destruct (f !! p) as [[|text]|]; try apply ro_raise.
    destruct (e_json_load E text); [apply ro_ret | apply ro_raise].
Qed.

Lemma verify_absent dir w :
  fs w !! path_join dir "metadata.json" = None ->
  verify_potree_metadata E dir w =
    (Ret false,
     World (fs w) (stdin w)
           (log w ++ [Print msg_no_metadata [PStr (path_join dir "metadata.json")]])).
Proof.
  intros H. unfold verify_potree_metadata.
  unfold bind at 1. rewrite (path_exists_none _ _ H). reflexivity.
Qed.

Lemma py_get_total d k x y k' x' :
  py_get d k x = Ret y -> exists y', py_get d k' x' = Ret y'.
Proof. destruct d; try discriminate. intros _. simpl. eauto. Qed.

(** The run of the verifier on numeric triples. *)
Lemma verify_numeric_run dir w d a0 a1 a2 b0 b1 b2 :
  metadata_on_disk E w dir d ->
  bounding_box d (triple a0 a1 a2) (triple b0 b1 b2) ->
  points_printable d ->
  exists ver p,
    verify_potree_metadata E dir w =
      (Ret (verdict a0 a1 b0 b1 b2).1,
       World (fs w) (stdin w)
             (log w ++ bounds_report ver p a0 a1 a2 b0 b1 b2 ++
                       [Print (verdict a0 a1 b0 b1 b2).2 []])).
Proof.
  intros (text & Hf & Hj) (bbox & Hb & Hmn & Hmx) (p & Hp & Hfmt).
  destruct (py_get_total _ _ _ _ "version" (PStr "unknown") Hb) as [ver Hver].
  exists ver, p.
  unfold verify_potree_metadata.
  unfold bind at 1. rewrite (path_exists_some _ _ _ Hf). cbn [negb].
  unfold json_load. unfold bind at 1. unfold bind at 1. unfold get_fs at 1.
  rewrite Hf, Hj. unfold ret at 1.
  unfold bind, print, emit, lift, ret, and_then, or_else, fmt_coord,
    abs_coord_gt, coord_gt.
  rewrite Hb, Hmn, Hmx, Hver, Hp, Hfmt.
  cbn -[Qle_bool Qabs inject_Z].
  unfold verdict, bad_abs, bounds_report, report_head.
  destruct (negb (Qle_bool (Qabs a0) _)); cbn -[Qle_bool Qabs inject_Z];
    [ rewrite <- !app_assoc; reflexivity |].
  unfold bind, lift, ret; cbn -[Qle_bool Qabs inject_Z].
  destruct (negb (Qle_bool (Qabs b0) _)); cbn -[Qle_bool Qabs inject_Z];
    [ rewrite <- !app_assoc; reflexivity |].
  destruct (negb (Qle_bool (Qabs a1) _)); cbn -[Qle_bool Qabs inject_Z];
    [ rewrite <- !app_assoc; reflexivity |].
  unfold bind, lift, ret; cbn -[Qle_bool Qabs inject_Z].
  destruct (negb (Qle_bool (Qabs b1) _)); cbn -[Qle_bool Qabs inject_Z];
    [ rewrite <- !app_assoc; reflexivity |].
  destruct (negb (Qle_bool b2 _)); cbn -[Qle_bool Qabs inject_Z];
    rewrite <- !app_assoc; reflexivity.
Qed.

(** The run of the verifier when a bound list is too short. *)
Lemma verify_short_run dir w d (mn mx : list doc) :
  metadata_on_disk E w dir d ->
  bounding_box d (PList mn) (PList mx) ->
  points_printable d ->
  (List.length mn < 3 \/ List.length mx < 3)%nat ->
  exists ver p,
    verify_potree_metadata E dir w =
      (Ret false,
       World (fs w) (stdin w)
             (log w ++ report_head ver p ++ [Print msg_no_bounds []])).
Proof.
  intros (text & Hf & Hj) (bbox & Hb & Hmn & Hmx) (p & Hp & Hfmt) Hlen.
  destruct (py_get_total _ _ _ _ "version" (PStr "unknown") Hb) as [ver Hver].
  exists ver, p.
  unfold verify_potree_metadata.
  unfold bind at 1. rewrite (path_exists_some _ _ _ Hf). cbn [negb].
  unfold json_load. unfold bind at 1. unfold bind at 1. unfold get_fs at 1.
  rewrite Hf, Hj. unfold ret at 1.
  unfold bind, print, emit, lift, ret, and_then.
  rewrite Hb, Hmn, Hmx, Hver, Hp, Hfmt.
  cbn [py_len fs stdin log]. unfold report_head.
  destruct (3 <=? List.length mn)%nat eqn:H1.
  - destruct (3 <=? List.length mx)%nat eqn:H2.
    + apply Nat.leb_le in H1, H2. lia.
    + cbn. rewrite <- !app_assoc. reflexivity.
  - cbn. rewrite <- !app_assoc. reflexivity.
Qed.


Lemma ro_verify dir : reads_only (verify_potree_metadata E dir).
Proof.
  unfold verify_potree_metadata, and_then, or_else, fmt_coord, abs_coord_gt,
    coord_gt.
  repeat first
    [ apply ro_ret | apply ro_raise | apply ro_print | apply ro_lift
    | apply ro_path_exists | apply ro_json_load
    | apply ro_bind; [|intros ?]
    | apply ro_if ].
Qed.

Lemma kf_reproject i o : keeps_files (reproject_copc_to_las E i o).
Proof. unfold reproject_copc_to_las. effects. Qed.

Lemma kf_convert_las_to_potree i o : keeps_files (convert_las_to_potree E i o).
Proof. unfold convert_las_to_potree. effects. Qed.

Lemma kf_verify dir : keeps_files (verify_potree_metadata E dir).
Proof. apply kf_reads_only, ro_verify. Qed.

#[local] Hint Resolve kf_reproject kf_convert_las_to_potree kf_verify : effects.

(** The clean-up clause of [copc_main]: the temporary LAS file is gone. *)
Lemma cleanup_removes temp w :
  file_or_absent (fs w) temp ->
  exists w',
    cleanup_temp temp w = (Ret tt, w') /\
    fs w' !! temp = None /\
    exists evs, log w' = log w ++ evs.
Proof.
  unfold cleanup_temp. intros [Hn | [c Hc]].
  - unfold bind at 1. rewrite (path_exists_none _ _ Hn). eexists. split; [reflexivity|].
    split; [exact Hn | exists []; symmetry; apply app_nil_r].
  - unfold bind at 1. rewrite (path_exists_some _ _ _ Hc). run. rewrite Hc. run.
    eexists. split; [reflexivity|]. cbn [fs log]. split; [apply lookup_delete_eq|].
    eexists. rewrite <- app_assoc. reflexivity.
Qed.

Lemma kf_step {A} (m : M A) w r w' q :
  keeps_files m -> m w = (r, w') -> file_or_absent (fs w) q ->
  file_or_absent (fs w') q.
Proof. intros H Hm Hq. specialize (H w q Hq). rewrite Hm in H. exact H. Qed.

Lemma copc_main_reports_success prog input out w n w0 temp w1 w2 w3 b w4 :
  fs w !! input = Some n ->
  mkdir out w = (Ret tt, w0) ->
  named_temporary_file E ".las" "" w0 = (Ret temp, w1) ->
  reproject_copc_to_las E input temp w1 = (Ret true, w2) ->
  convert_las_to_potree E temp out w2 = (Ret true, w3) ->
  verify_potree_metadata E out w3 = (Ret b, w4) ->
  exists w5,
    copc_main E [prog; input; out] w = (Ret tt, w5) /\
    In (Print msg_success [PStr out]) (log w5).
Proof.
  intros Hin Hmk Htmp Hre Hco Hve.
  assert (Hq : file_or_absent (fs w4) temp).
  { eapply (kf_step _ _ _ _ _ (kf_reads_only _ (ro_verify out)) Hve).
    eapply (kf_step _ _ _ _ _ (kf_convert_las_to_potree _ _) Hco).
    eapply (kf_step _ _ _ _ _ (kf_reproject _ _) Hre).
    revert Htmp. run. intros [= <- <-]. cbn [fs].
    right. eexists. apply lookup_insert_eq. }
  unfold copc_main.
  unfold bind at 1. rewrite (path_exists_some _ _ _ Hin). cbn [negb].
  unfold bind at 1. rewrite Hmk.
  unfold bind at 1. rewrite Htmp.
  unfold try_finally.
  unfold bind at 1. rewrite Hre. cbn [negb].
  unfold bind at 1. rewrite Hco. cbn [negb].
  unfold bind at 1. rewrite Hve.
  run.
  match goal with |- context [cleanup_temp temp ?w'] =>
    destruct (cleanup_removes temp w') as (w5 & Hw5 & _ & evs & Hlog);
      [exact Hq|]
  end.
  rewrite Hw5. exists w5. split; [reflexivity|].
  rewrite Hlog. cbn [log]. rewrite !in_app_iff. left. left. right. left. reflexivity.
Qed.

Lemma copc_main_missing_input prog input out w :
  fs w !! input = None ->
  copc_main E [prog; input; out] w =
    (Raise (SystemExit 1),
     World (fs w) (stdin w) (log w ++ [Print msg_input_not_found [PStr input]])).
Proof.
  intros H. unfold copc_main. unfold bind at 1.
  rewrite (path_exists_none _ _ H). reflexivity.
Qed.

Lemma named_temporary_file_eq suffix content w :
  named_temporary_file E suffix content w =
    (Ret (e_temp_name E suffix (fs w)),
     World (<[e_temp_name E suffix (fs w) := File content]> (fs w)) (stdin w)
           (log w ++ [MkTemp (e_temp_name E suffix (fs w))])).
Proof. reflexivity. Qed.

Lemma copc_main_temp_removed prog input out w n w0 :
  fs w !! input = Some n ->
  mkdir out w = (Ret tt, w0) ->
  fs (copc_main E [prog; input; out] w).2 !! e_temp_name E ".las" (fs w0) = None.
Proof.
  intros Hin Hmk. unfold copc_main.
  unfold bind at 1. rewrite (path_exists_some _ _ _ Hin). cbn [negb].
  unfold bind at 1. rewrite Hmk.
  unfold bind at 1. rewrite named_temporary_file_eq.
  set (temp := e_temp_name E ".las" (fs w0)).
  match goal with |- context [try_finally ?b ?f ?w1] =>
    assert (Hkf : keeps_files b)
      by (unfold sys_exit; effects);
    unfold try_finally; destruct (b w1) as [r w2] eqn:Hb;
    assert (Hq : file_or_absent (fs w2) temp)
      by (eapply (kf_step _ _ _ _ _ Hkf Hb); right; eexists;
          apply lookup_insert_eq)
  end.
  destruct (cleanup_removes temp w2 Hq) as (w5 & Hw5 & Hnone & _).
  rewrite Hw5. exact Hnone.
Qed.

(** *** The latitude tiler *)

Lemma process_tile_run las out base t w :
  exists w' evs,
    steps_with (process_tile E las out base t) w tt w' evs /\
    spawns evs = [tile_spawn las out base t] /\
    (count_printed msg_tile_created evs + count_printed msg_tile_error evs = 1)%nat /\
    (forall e,
        spawn_outcome (e_spawn E (pdal_stdin_cmd pdal_bin)
          (Some (dumps None (tile_pipeline las (tile_copc_path out base t) t)))
          (fs w)) = Raise e ->
        In (Print msg_tile_error [PStr (exn_str e)]) evs).
Proof.
  unfold steps_with, process_tile. run. rewrite subprocess_run_eq. cbn [fs stdin log].
  set (sp := e_spawn E _ _ _).
  destruct sp as [c|]; cbn [spawn_outcome spawn_writes].
  - destruct (returncode c =? 0)%Z eqn:Hrc.
    + unfold stat_size_mb. run.
      destruct (write_all (c_writes c) (fs w) !! tile_copc_path out base t)
        as [[|text]|]; run;
        (eexists _, _; split; [split; [reflexivity| split; [reflexivity|
           cbn [log]; rewrite <- !app_assoc; reflexivity]] |];
         split; [reflexivity | split; [reflexivity | intros e; discriminate]]).
    + run. eexists _, _; split; [split; [reflexivity| split; [reflexivity|
           cbn [log]; rewrite <- !app_assoc; reflexivity]] |].
      split; [reflexivity | split; [reflexivity |]].
      intros e [= <-]. simpl. auto.
  - run. cbn [is_Exception]. run.
    eexists _, _; split; [split; [reflexivity| split; [reflexivity|
           cbn [log]; rewrite <- !app_assoc; reflexivity]] |].
    split; [reflexivity | split; [reflexivity |]].
    intros e [= <-]. simpl. auto.
Qed.

Lemma for_each_tiles_run las out base (l : list tile) w :
  exists w' evs,
    steps_with (for_each l (process_tile E las out base)) w tt w' evs /\
    spawns evs = map (tile_spawn las out base) l /\
    (count_printed msg_tile_created evs + count_printed msg_tile_error evs
     = List.length l)%nat.
Proof.
  revert w. induction l as [|t l IH]; intros w.
  - exists w, []. unfold steps_with. cbn. rewrite app_nil_r. auto.
  - destruct (process_tile_run las out base t w)
      as (w1 & evs1 & (Hr1 & Hin1 & Hlog1) & Hsp1 & Hcnt1 & _).
    destruct (IH w1) as (w2 & evs2 & (Hr2 & Hin2 & Hlog2) & Hsp2 & Hcnt2).
    exists w2, (evs1 ++ evs2). split; [|split].
    + unfold steps_with. cbn [for_each]. unfold bind. rewrite Hr1, Hr2.
      split; [reflexivity|]. split; [congruence|].
      rewrite Hlog2, Hlog1, app_assoc. reflexivity.
    + rewrite spawns_app, Hsp1, Hsp2. reflexivity.
    + rewrite !count_printed_app. cbn [List.length]. lia.
Qed.

Lemma mkdir_run p w :
  can_mkdir (fs w) p ->
  exists w' evs,
    steps_with (mkdir p) w tt w' evs /\
    (evs = [] \/ evs = [Mkdir p]) /\
    fs w' = match fs w !! p with None => <[p := Dir]> (fs w) | Some _ => fs w end.
Proof.
  intros Hp. unfold steps_with, mkdir. run.
  destruct (fs w !! p) as [[|c]|] eqn:Hl.
  - exists w, []. rewrite app_nil_r. auto.
  - destruct (Hp c Hl).
  - run. eexists _, _. split; [split; [reflexivity | split; reflexivity]|].
    auto.
Qed.

Lemma split_las_to_tiles_run las out w :
  can_mkdir (fs w) out ->
  exists w' evs,
    steps_with (split_las_to_tiles E las out) w tt w' evs /\
    spawns evs = map (tile_spawn las out (path_stem las)) tiles /\
    (count_printed msg_tile_created evs + count_printed msg_tile_error evs
     = 4)%nat.
Proof.
  intros Hp.
  destruct (mkdir_run out w Hp) as (w0 & evs0 & (Hr0 & Hin0 & Hlog0) & Hevs0 & _).
  unfold split_las_to_tiles. unfold steps_with.
  unfold bind at 1. rewrite Hr0.
  unfold bind at 1, print at 1, emit at 1.
  unfold bind at 1, print at 1, emit at 1. cbn [fs stdin log].
  unfold bind at 1, print at 1, emit at 1. cbn [fs stdin log].
  unfold bind at 1.
  match goal with |- context [for_each tiles ?b ?w1] =>
    destruct (for_each_tiles_run las out (path_stem las) tiles w1)
      as (w2 & evs2 & (Hr2 & Hin2 & Hlog2) & Hsp2 & Hcnt2)
  end.
  rewrite Hr2. run. cbn [log stdin] in *.
  eexists _, _.
  split; [split; [reflexivity | split; [cbn [stdin]; congruence | cbn [log]]] |].
  - rewrite Hlog2, Hlog0. rewrite <- !app_assoc. reflexivity.
  - rewrite !spawns_app, !count_printed_app, Hsp2.
    change (List.length tiles) with 4%nat in Hcnt2.
    destruct Hevs0 as [-> | ->]; cbn; rewrite ?app_nil_r; split; try reflexivity; lia.
Qed.

(** *** The batch driver *)

Lemma for_each_print {A} (l : list A) t (args : A -> list doc) w :
  for_each l (fun x => print t (args x)) w =
    (Ret tt, World (fs w) (stdin w) (log w ++ map (fun x => Print t (args x)) l)).
Proof.
  revert w. induction l as [|x l IH]; intros w.
  - cbn. rewrite app_nil_r. destruct w; reflexivity.
  - cbn [for_each map]. unfold bind, print at 1, emit. rewrite IH.
    cbn [fs stdin log]. rewrite <- app_assoc. reflexivity.
Qed.

Lemma batch_main_missing_dir prog copc_dir out w :
  fs w !! copc_dir = None ->
  batch_main E [prog; copc_dir; out] w =
    (Raise (SystemExit 1),
     World (fs w) (stdin w) (log w ++ [Print msg_dir_not_found [PStr copc_dir]])).
Proof.
  intros H. unfold batch_main. unfold bind at 1.
  rewrite (path_exists_none _ _ H). reflexivity.
Qed.

Lemma batch_main_declined prog copc_dir out w n response rest :
  fs w !! copc_dir = Some n ->
  glob_suffix copc_dir ".copc.laz" (fs w) <> [] ->
  can_mkdir (fs w) out ->
  stdin w = response :: rest ->
  str_lower response <> "y" ->
  exists evs,
    batch_main E [prog; copc_dir; out] w =
      (Raise (SystemExit 0),
       World (fs_after_mkdir (fs w) out) rest
             (log w ++ evs ++ [Print msg_aborted []])) /\
    spawns evs = [].
Proof.
  intros Hdir Hglob Hmk Hin Hresp. unfold batch_main.
  unfold bind at 1. rewrite (path_exists_some _ _ _ Hdir). cbn [negb].
  unfold bind at 1, get_fs at 1.
  destruct (glob_suffix copc_dir ".copc.laz" (fs w)) as [|f0 fl] eqn:Hg;
    [congruence|].
  unfold bind at 1, print at 1, emit at 1.
  unfold bind at 1. rewrite for_each_print. cbn [fs stdin log].
  unfold bind at 1.
  match goal with |- context [mkdir out ?w1] =>
    destruct (mkdir_run out w1 Hmk) as (w0 & evs0 & (Hr0 & Hin0 & Hlog0) & Hevs0 & Hfs0)
  end.
  rewrite Hr0. cbn [fs stdin log] in *.
  unfold bind at 1, input at 1. rewrite Hin0, Hin.
  assert (Hne : String.eqb (str_lower response) "y" = false)
    by (apply String.eqb_neq; exact Hresp).
  rewrite Hne. cbn [negb]. run.
  destruct w0 as [f0' i0 l0]. cbn [fs stdin log] in *. subst f0' l0.
  exists ([Print "Found {} COPC file(s) to convert:"
             [PNum (inject_Z (Z.of_nat (List.length (f0 :: fl))))]] ++
          map (fun x : string => Print "  - {}" [PStr (path_name x)]) (f0 :: fl) ++
          evs0 ++ [Prompt "Convert {} file(s)? [y/N]: "]).
  split.
  - unfold fs_after_mkdir. do 2 f_equal. rewrite <- !app_assoc. reflexivity.
  - rewrite !spawns_app.
    assert (Hmap : forall l : list string,
               spawns (map (fun x : string => Print "  - {}" [PStr (path_name x)]) l) = []).
    { induction l as [|x l IH]; [reflexivity | exact IH]. }
    rewrite Hmap. destruct Hevs0 as [-> | ->]; reflexivity.
Qed.

(** *** The HDF pipeline *)

Lemma first_existing_eq ps w :
  first_existing ps w = (Ret (List.find (exists_in (fs w)) ps), w).
Proof.
  induction ps as [|p ps IH]; [reflexivity|].
  cbn [first_existing List.find]. unfold bind at 1, exists_in at 1.
  unfold path_exists, bind, get_fs, ret.
  destruct (bool_decide (is_Some (fs w !! p))); [reflexivity | exact IH].
Qed.

Lemma check_explicit_found pp p n w :
  truthy pp = Some p -> fs w !! p = Some n ->
  check_potree_converter E pp w = (Ret (Some p), w).
Proof.
  intros Hp Hf. unfold check_potree_converter. rewrite Hp.
  unfold bind. rewrite (path_exists_some _ _ _ Hf). reflexivity.
Qed.

Lemma check_explicit_missing pp p w :
  truthy pp = Some p -> fs w !! p = None ->
  check_potree_converter E pp w =
    (Ret None, World (fs w) (stdin w) (log w ++ [Print msg_not_at_path [PStr p]])).
Proof.
  intros Hp Hf. unfold check_potree_converter. rewrite Hp.
  unfold bind at 1. rewrite (path_exists_none _ _ Hf). reflexivity.
Qed.

Lemma check_search_path pp q w :
  truthy pp = None -> truthy (e_which E "PotreeConverter" (fs w)) = Some q ->
  check_potree_converter E pp w = (Ret (Some q), w).
Proof.
  intros Hp Hq. unfold check_potree_converter. rewrite Hp.
  unfold bind, get_fs. rewrite Hq. reflexivity.
Qed.

Lemma check_common_paths pp w :
  truthy pp = None -> truthy (e_which E "PotreeConverter" (fs w)) = None ->
  check_potree_converter E pp w =
    (Ret (List.find (exists_in (fs w)) (common_paths E)), w).
Proof.
  intros Hp Hq. unfold check_potree_converter. rewrite Hp.
  unfold bind, get_fs. rewrite Hq. apply first_existing_eq.
Qed.

Lemma for_each_print_lines (l : list string) w :
  for_each l (fun line => print line []) w =
    (Ret tt, World (fs w) (stdin w) (log w ++ map (fun line => Print line []) l)).
Proof.
  revert w. induction l as [|x l IH]; intros w.
  - cbn. rewrite app_nil_r. destruct w; reflexivity.
  - cbn [for_each map]. unfold bind, print at 1, emit. rewrite IH.
    cbn [fs stdin log]. rewrite <- app_assoc. reflexivity.
Qed.

Lemma hdf_tool_not_found hdf od pp pdal keep w w1 :
  check_potree_converter E pp w = (Ret None, w1) ->
  convert_hdf_to_potree E hdf od pp pdal keep w =
    (Raise (RuntimeError msg_tool_not_found),
     World (fs w1) (stdin w1)
           (log w1 ++ map (fun line => Print line []) installation_lines)).
Proof.
  intros H. unfold convert_hdf_to_potree. unfold bind at 1. rewrite H.
  unfold print_installation_instructions. unfold bind at 1.
  rewrite for_each_print_lines. reflexivity.
Qed.

Lemma remove_if_exists_ret p w w' :
  remove_if_exists p w = (Ret tt, w') ->
  fs w' !! p = None /\ (forall q, fs w !! q = None -> fs w' !! q = None).
Proof.
  unfold remove_if_exists, path_exists. run.
  destruct (fs w !! p) as [[|c]|] eqn:Hl; cbn; rewrite ?Hl.
  - discriminate.
  - run. intros [= <-]. cbn [fs]. split; [apply lookup_delete_eq|].
    intros q Hq. destruct (decide (p = q)) as [->|Hne];
      [apply lookup_delete_eq | rewrite lookup_delete_ne by done; exact Hq].
  - intros [= <-]. auto.
Qed.


Lemma try_except_ret_inv {A} (m : M A) h w a w' :
  try_except m h w = (Ret a, w') ->
  m w = (Ret a, w') \/
  exists e w1 k, m w = (Raise e, w1) /\ h e = Some k /\ k w1 = (Ret a, w').
Proof.
  unfold try_except. destruct (m w) as [[x|e] w1]; [auto|].
  destruct (h e) as [k|] eqn:Hk; [|discriminate].
  intros H. right. eauto 6.
Qed.

Lemma hdf_success_cleans hdf od pp pdal w out w' :
  convert_hdf_to_potree E hdf od pp pdal false w = (Ret out, w') ->
  fs w' !! hdf_las_path hdf od = None /\ fs w' !! hdf_copc_path hdf od = None.
Proof.
  unfold convert_hdf_to_potree. intros H.
  apply bind_ret_inv in H as (r & w1 & _ & H).
  destruct r as [exec|].
  2:{ apply bind_ret_inv in H as (? & ? & _ & H). discriminate H. }
  apply bind_ret_inv in H as (? & ? & _ & H).
  apply bind_ret_inv in H as (? & ? & _ & H).
  apply bind_ret_inv in H as (? & ? & _ & H).
  apply bind_ret_inv in H as (? & ? & _ & H).
  apply bind_ret_inv in H as (? & ? & _ & H).
  apply try_except_ret_inv in H as [H | (e & w2 & k & _ & Hk & H)].
  2:{ destruct (is_Exception e); [|discriminate Hk]. injection Hk as <-.
      apply bind_ret_inv in H as (? & ? & _ & H). discriminate H. }
  do 7 (apply bind_ret_inv in H as (? & ? & _ & H)).
  apply bind_ret_inv in H as (a & wc & Hclean & H). destruct a.
  cbn [negb] in Hclean.
  apply bind_ret_inv in Hclean as (? & ? & _ & Hclean).
  apply bind_ret_inv in Hclean as (u & wl & Hlas & Hcopc). destruct u.
  apply remove_if_exists_ret in Hlas as [Hl1 _].
  apply remove_if_exists_ret in Hcopc as [Hc1 Hc2].
  apply bind_ret_inv in H as (? & ? & Hp1 & H).
  apply bind_ret_inv in H as (? & ? & Hp2 & H).
  apply print_inv in Hp1 as [_ ->]. apply print_inv in Hp2 as [_ ->].
  injection H as _ <-. cbn [fs].
  split; [apply Hc2, Hl1 | exact Hc1].
Qed.

End ScriptFacts.

Lemma verdict_true a0 a1 b0 b1 b2 :
  (verdict a0 a1 b0 b1 b2).1 = true <->
  within (-180) 180 a0 /\ within (-180) 180 b0 /\
  within (-90) 90 a1 /\ within (-90) 90 b1 /\ (b2 <= inject_Z 100)%Q.
Proof.
  rewrite <- (within_abs 180 a0), <- (within_abs 180 b0),
          <- (within_abs 90 a1), <- (within_abs 90 b1), <- (at_most 100 b2).
  unfold verdict, bad_abs.
  destruct (negb (Qle_bool (Qabs a0) _)), (negb (Qle_bool (Qabs b0) _)),
    (negb (Qle_bool (Qabs a1) _)), (negb (Qle_bool (Qabs b1) _)),
    (negb (Qle_bool b2 _)); simpl; intuition congruence.
Qed.

(** A failing verdict closes with one of the three warnings. *)
Lemma verdict_false a0 a1 b0 b1 b2 :
  (verdict a0 a1 b0 b1 b2).1 = false ->
  In (verdict a0 a1 b0 b1 b2).2
     [msg_lon_warning; msg_lat_warning; msg_alt_warning].
Proof.
  unfold verdict.
  destruct (bad_abs a0 180 || bad_abs b0 180); [simpl; auto |].
  destruct (bad_abs a1 90 || bad_abs b1 90); [simpl; auto |].
  destruct (negb (Qle_bool b2 _)); simpl; [auto | discriminate].
Qed.



(** C9 (as stated, refuted).  A document that parses and whose bound
    lists are empty, but whose point count is [null]: the verifier
    raises [TypeError] when it formats the point count. *)
Lemma verify_short_bounds_can_raise :
  metadata_on_disk (quiet_env 0 null_points_doc) sample_world "out"
                   null_points_doc /\
  bounding_box null_points_doc (PList []) (PList []) /\
  (List.length (@nil doc) < 3)%nat /\
  (verify_potree_metadata (quiet_env 0 null_points_doc) "out" sample_world).1
    = Raise TypeError.
Proof.
  split; [exists "{}"; split; reflexivity|].
  split; [eexists; repeat split; reflexivity|].
  split; [cbn; lia | reflexivity].
Qed.

(** C9 (amended).  The verifier returns [False] without raising when
    the metadata file is absent, and when the document is an object
    whose point count is a number (or absent) and one of whose bound
    lists has fewer than three entries. *)
Theorem verify_potree_metadata_short_bounds :
  (forall E dir w,
      fs w !! path_join dir "metadata.json" = None ->
      exists w', verify_potree_metadata E dir w = (Ret false, w') /\
                 fs w' = fs w) /\
  (forall E dir w d (mn mx : list doc),
      metadata_on_disk E w dir d ->
      bounding_box d (PList mn) (PList mx) ->
      points_printable d ->
      (List.length mn < 3 \/ List.length mx < 3)%nat ->
      exists w', verify_potree_metadata E dir w = (Ret false, w') /\
                 fs w' = fs w).
Proof.
  split.
  - intros E dir w H. rewrite (verify_absent E dir w H). eauto.
  - intros E dir w d mn mx Hd Hb Hp Hlen.
    destruct (verify_short_run E dir w d mn mx Hd Hb Hp Hlen) as (ver & p & ->).
    eauto.
Qed.

Lemma verify_potree_metadata_short_bounds_witness :
  (exists w', verify_potree_metadata (quiet_env 0 short_bounds_doc) "nowhere"
                sample_world = (Ret false, w') /\ fs w' = fs sample_world) /\
  (exists w', verify_potree_metadata (quiet_env 0 short_bounds_doc) "out"
                sample_world = (Ret false, w') /\ fs w' = fs sample_world).
Proof.
  split.
  - apply (proj1 verify_potree_metadata_short_bounds). reflexivity.
  - apply (proj2 verify_potree_metadata_short_bounds _ _ _ short_bounds_doc
             [PNum 1%Q; PNum 2%Q] [PNum 45%Q; PNum 1%Q; PNum 2%Q]).
    + exists "{}". split; reflexivity.
    + eexists. repeat split; reflexivity.
    + eexists. split; reflexivity.
    + left. cbn. lia.
Defined.



Section MoreFacts.
Context (E : env).

Lemma reproject_removes_descriptor input_copc output_las w :
  fs (reproject_copc_to_las E input_copc output_las w).2
    !! e_temp_name E ".json" (fs w) = None.
Proof.
  set (p := e_temp_name E ".json" (fs w)).
  unfold reproject_copc_to_las. run. fold p.
  rewrite subprocess_run_eq. cbn [fs stdin log].
  set (sp := e_spawn E _ _ _).
  destruct (write_all_file (spawn_writes sp)
              (<[p := File (dumps (Some 2) (reproject_pipeline input_copc output_las))]> (fs w))
              p _ (lookup_insert_eq _ _ _)) as [c' Hc'].
  destruct sp as [c|]; cbn [spawn_outcome spawn_writes] in *.
  - destruct (returncode c =? 0)%Z; run; rewrite Hc'; run; cbn [snd fs];
      apply lookup_delete_eq.
  - run. rewrite Hc'. run. cbn [snd fs]. apply lookup_delete_eq.
Qed.

End MoreFacts.

Lemma tiles_cover (y : Q) :
  within (-90) 90 y <-> exists t, In t tiles /\ in_range (tile_range t) y.
Proof.
  unfold within, in_range, tiles. cbn [tile_range r_lo_closed r_hi_closed r_lo r_hi].
  split.
  - intros [H1 H2].
    destruct (Qlt_le_dec y (inject_Z (-30))) as [Ha|Ha].
    { exists (Tile "south" (-90) (-30)). unfold inject_Z in *. cbn.
      split; [auto|]. split; [exact H1 | lra]. }
    destruct (Qlt_le_dec y (inject_Z 0)) as [Hb|Hb].
    { exists (Tile "south_mid" (-30) 0). unfold inject_Z in *. cbn.
      split; [auto|]. split; [exact Ha | lra]. }
    destruct (Qlt_le_dec y (inject_Z 30)) as [Hc|Hc].
    { exists (Tile "north_mid" 0 30). unfold inject_Z in *. cbn.
      split; [auto|]. split; [exact Hb | lra]. }
    exists (Tile "north" 30 90). cbn. split; [auto 6|]. split; [exact Hc | exact H2].
  - intros (t & Ht & Hlo & Hhi). cbn in Ht.
    destruct Ht as [<-|[<-|[<-|[<-|[]]]]]; unfold inject_Z in *; cbn in *; split; lra.
Qed.

Lemma tiles_meet_at_boundaries t1 t2 (y : Q) :
  In t1 tiles -> In t2 tiles -> t1 <> t2 ->
  in_range (tile_range t1) y -> in_range (tile_range t2) y ->
  (y == inject_Z (-30) \/ y == inject_Z 0 \/ y == inject_Z 30)%Q.
Proof.
  unfold in_range, tiles. cbn [tile_range r_lo_closed r_hi_closed r_lo r_hi].
  intros H1 H2 Hne [A1 B1] [A2 B2]. cbn in H1, H2.
  destruct H1 as [<-|[<-|[<-|[<-|[]]]]]; destruct H2 as [<-|[<-|[<-|[<-|[]]]]];
    try (destruct Hne; reflexivity); unfold inject_Z in *; cbn in *;
    first [ left; lra | right; left; lra | right; right; lra | exfalso; lra ].
Qed.

Lemma tile_paths_distinct out base :
  NoDup (map (tile_copc_path out base) tiles).
Proof.
  assert (Hinj : forall t1 t2,
             tile_copc_path out base t1 = tile_copc_path out base t2 ->
             name t1 +:+ ".copc.laz" = name t2 +:+ ".copc.laz").
  { intros t1 t2 H. unfold tile_copc_path, path_join in H.
    apply (inj (String.app out)) in H. cbn in H. injection H as H.
    apply (inj (String.app base)) in H. cbn in H. injection H as H. exact H. }
  unfold tiles. cbn [map].
  repeat (apply NoDup_cons_2;
          [ rewrite ?elem_of_cons, ?elem_of_nil;
            intros H; repeat (destruct H as [H|H]; [apply Hinj in H; discriminate H|]);
            exact H | ]).
  apply NoDup_nil_2.
Qed.












(** C5 (as stated, refuted).  In the HDF pipeline the intermediate files
    are removed only after the last step has succeeded: when PDAL fails
    on the LAS file, the job ends with the error and the LAS file is
    still there, although the files were not to be kept. *)
Lemma failed_hdf_job_leaves_las :
  (convert_hdf_to_potree (hdf_env 1) "orbit.hdf" None None pdal_bin false
                         hdf_world).1
    = Raise (CalledProcessError 1 "" "pdal: failed") /\
  fs (convert_hdf_to_potree (hdf_env 1) "orbit.hdf" None None pdal_bin false
                            hdf_world).2 !! hdf_las_path "orbit.hdf" None
    = Some (File "las").
Proof. vm_compute. auto. Qed.

(** C5 (amended).  Whatever PDAL does, the pipeline-descriptor file of a
    reprojection is gone when [reproject_copc_to_las] ends, and the
    temporary LAS file of the COPC-to-Potree converter is gone when
    [main] ends, by return, by [sys.exit] or by an exception; the HDF
    pipeline, asked not to keep them, has removed its intermediate LAS
    and COPC files when it returns its output directory. *)
Theorem temporary_files_removed :
  (forall E input_copc output_las w,
      fs (reproject_copc_to_las E input_copc output_las w).2
        !! e_temp_name E ".json" (fs w) = None) /\
  (forall E prog input out w n w0,
      fs w !! input = Some n ->
      mkdir out w = (Ret tt, w0) ->
      fs (copc_main E [prog; input; out] w).2
        !! e_temp_name E ".las" (fs w0) = None) /\
  (forall E hdf od pp pdal w out w',
      convert_hdf_to_potree E hdf od pp pdal false w = (Ret out, w') ->
      fs w' !! hdf_las_path hdf od = None /\
      fs w' !! hdf_copc_path hdf od = None).
Proof.
  split; [|split].
  - intros. apply reproject_removes_descriptor.
  - intros. eapply copc_main_temp_removed; eassumption.
  - intros. eapply hdf_success_cleans; eassumption.
Qed.

Lemma temporary_files_removed_witness :
  fs (copc_main (quiet_env 1 (PDict [])) ["convert"; "in.copc.laz"; "out"]
                sample_world).2 !! "/tmp/tmp0.las" = None /\
  fs (convert_hdf_to_potree good_hdf_env "orbit.hdf" None None pdal_bin false
                            hdf_world).2 !! hdf_las_path "orbit.hdf" None = None /\
  fs (convert_hdf_to_potree good_hdf_env "orbit.hdf" None None pdal_bin false
                            hdf_world).2 !! hdf_copc_path "orbit.hdf" None = None.
Proof.
  destruct temporary_files_removed as (_ & B & C). split.
  - apply (B (quiet_env 1 (PDict [])) "convert" "in.copc.laz" "out" sample_world
             (File "copc") sample_world); reflexivity.
  - apply (C good_hdf_env "orbit.hdf" None None pdal_bin hdf_world
             "potree_data/orbit"). vm_compute. reflexivity.
Defined.

(** C6 (as stated, refuted).  The converter is on the search path, where
    it exists, but the caller names a path that does not exist: the
    search path is not tried and the job fails with tool-not-found. *)
Lemma explicit_path_stops_search :
  e_which (hdf_env 0) "PotreeConverter" (fs hdf_world)
    = Some "/usr/bin/PotreeConverter" /\
  fs hdf_world !! "/usr/bin/PotreeConverter" = Some (File "elf") /\
  (check_potree_converter (hdf_env 0) (Some "/opt/PotreeConverter") hdf_world).1
    = Ret None /\
  (convert_hdf_to_potree (hdf_env 0) "orbit.hdf" None
     (Some "/opt/PotreeConverter") pdal_bin false hdf_world).1
    = Raise (RuntimeError msg_tool_not_found).
Proof. vm_compute. auto. Qed.

Lemma lg_reads_only {A} (m : M A) : reads_only m -> log_grows m.
Proof. intros H w. destruct (H w) as (r & evs & ->). eauto. Qed.

Lemma lg_bind {A B} (m : M A) (k : A -> M B) :
  log_grows m -> (forall a, log_grows (k a)) -> log_grows (bind m k).
Proof.
  intros Hm Hk w. destruct (Hm w) as [evs Hevs]. unfold bind.
  destruct (m w) as [[a|e] w']; cbn [snd] in *; [|eauto].
  destruct (Hk a w') as [evs' Hevs']. exists (evs ++ evs').
  rewrite Hevs', Hevs, app_assoc. reflexivity.
Qed.

Lemma lg_try_except {A} (m : M A) h :
  log_grows m -> (forall e k, h e = Some k -> log_grows k) ->
  log_grows (try_except m h).
Proof.
  intros Hm Hh w. destruct (Hm w) as [evs Hevs]. unfold try_except.
  destruct (m w) as [[a|e] w']; cbn [snd] in *; [eauto|].
  destruct (h e) as [k|] eqn:Hk; [|eauto].
  destruct (Hh _ _ Hk w') as [evs' Hevs']. exists (evs ++ evs').
  rewrite Hevs', Hevs, app_assoc. reflexivity.
Qed.

Lemma lg_if {A} (b : bool) (m1 m2 : M A) :
  log_grows m1 -> log_grows m2 -> log_grows (if b then m1 else m2).
Proof. destruct b; auto. Qed.

Lemma lg_ret {A} (a : A) : log_grows (ret a).
Proof. apply lg_reads_only, ro_ret. Qed.
Lemma lg_raise {A} e : log_grows (@raise A e).
Proof. apply lg_reads_only, ro_raise. Qed.
Lemma lg_print t a : log_grows (print t a).
Proof. apply lg_reads_only, ro_print. Qed.
Lemma lg_path_exists p : log_grows (path_exists p).
Proof. apply lg_reads_only, ro_path_exists. Qed.

Lemma lg_unlink p : log_grows (unlink p).
Proof.
  intros w. unfold unlink. run.
  destruct (fs w !! p) as [[|c]|]; cbn [snd log]; eauto;
    exists []; symmetry; apply app_nil_r.
Qed.

Lemma lg_mkdir p : log_grows (mkdir p).
Proof.
  intros w. unfold mkdir. run.
  destruct (fs w !! p) as [[|c]|]; cbn [snd log]; eauto;
    exists []; symmetry; apply app_nil_r.
Qed.

#[local] Hint Resolve lg_ret lg_raise lg_print lg_path_exists lg_unlink lg_mkdir
  : effects.

Ltac grows :=
  repeat first
    [ solve [auto with effects]
    | apply lg_bind; [|intros ?]
    | apply lg_if
    | apply lg_try_except;
      [| let e := fresh "e" in let k := fresh "k" in let Hk := fresh "Hk" in
         intros e k Hk; destruct e; cbn in Hk; try discriminate Hk;
         injection Hk as <- ] ].

Section Resolution.
Context (E : env).

Lemma lg_subprocess_run argv input : log_grows (subprocess_run E argv input).
Proof. intros w. rewrite subprocess_run_eq. cbn [snd log]. eauto. Qed.

Lemma lg_stat_size_mb p : log_grows (stat_size_mb p).
Proof.
  intros w. unfold stat_size_mb. run.
  destruct (fs w !! p) as [[|c]|]; cbn [snd log];
    exists []; symmetry; apply app_nil_r.
Qed.

Lemma lg_convert_calipso_to_las hdf las : log_grows (convert_calipso_to_las E hdf las).
Proof.
  intros w. unfold convert_calipso_to_las. run.
  destruct (e_calipso_to_las E hdf las (fs w)) as [ws [e|]]; run; cbn [snd log]; eauto.
Qed.

#[local] Hint Resolve lg_subprocess_run lg_stat_size_mb
  lg_convert_calipso_to_las : effects.

Lemma lg_convert_las_to_copc las copc pdal :
  log_grows (convert_las_to_copc E las copc pdal).
Proof. unfold convert_las_to_copc. grows. Qed.

Lemma lg_convert_copc_to_potree copc out conv :
  log_grows (convert_copc_to_potree E copc out conv).
Proof. unfold convert_copc_to_potree. grows. Qed.

Lemma lg_remove_if_exists p : log_grows (remove_if_exists p).
Proof. unfold remove_if_exists. grows. Qed.

#[local] Hint Resolve lg_convert_las_to_copc lg_convert_copc_to_potree
  lg_remove_if_exists : effects.

Lemma hdf_tool_found hdf od pp pdal keep w exec w1 :
  check_potree_converter E pp w = (Ret (Some exec), w1) ->
  exists evs,
    log (convert_hdf_to_potree E hdf od pp pdal keep w).2 =
      log w1 ++ Print "Found PotreeConverter: {}" [PStr exec] :: evs.
Proof.
  intros H. unfold convert_hdf_to_potree. unfold bind at 1. rewrite H.
  unfold bind at 1, print at 1, emit at 1.
  match goal with |- context [bind ?m ?k ?w2] =>
    assert (Hg : log_grows (bind m k))
  end.
  { grows. }
  match goal with |- context [bind ?m ?k ?w2] =>
    destruct (Hg w2) as [evs Hevs]; exists evs; rewrite Hevs
  end.
  cbn [log]. rewrite <- app_assoc. reflexivity.
Qed.

End Resolution.

(** C6 (amended).  A non-empty path given by the caller decides alone:
    it is the result when it exists, and otherwise nothing is found,
    without any further search.  Without such a path the result is the
    program found on the search path, if any, and else the first of the
    common install locations that exists.  The job fails with the
    tool-not-found error, after printing the installation instructions
    and before starting any program, exactly when nothing is found. *)
Theorem potree_converter_resolution :
  forall E pp w,
  exists r w',
    check_potree_converter E pp w = (Ret r, w') /\
    fs w' = fs w /\
    (forall p, truthy pp = Some p ->
               r = if exists_in (fs w) p then Some p else None) /\
    (truthy pp = None ->
     forall q, truthy (e_which E "PotreeConverter" (fs w)) = Some q ->
               r = Some q) /\
    (truthy pp = None ->
     truthy (e_which E "PotreeConverter" (fs w)) = None ->
     r = List.find (exists_in (fs w)) (common_paths E)) /\
    (forall hdf od pdal keep,
        r = None <->
        tool_not_found_failure w'
          (convert_hdf_to_potree E hdf od pp pdal keep w)).
Proof.
  intros E pp w.
  assert (Hfail : forall r w',
             check_potree_converter E pp w = (Ret r, w') ->
             forall hdf od pdal keep,
               r = None <->
               tool_not_found_failure w'
                 (convert_hdf_to_potree E hdf od pp pdal keep w)).
  { intros r w' Hc hdf od pdal keep. unfold tool_not_found_failure. split.
    - intros ->. apply hdf_tool_not_found. exact Hc.
    - intros Hrun. destruct r as [exec|]; [|reflexivity]. exfalso.
      destruct (hdf_tool_found E hdf od pp pdal keep w exec w' Hc) as [evs Hevs].
      rewrite Hrun in Hevs. cbn [snd log] in Hevs.
      apply app_inv_head in Hevs. discriminate Hevs. }
  destruct (truthy pp) as [p|] eqn:Hp.
  - destruct (fs w !! p) as [n|] eqn:Hf.
    + exists (Some p), w. pose proof (check_explicit_found E pp p n w Hp Hf) as Hc.
      split; [exact Hc|]. split; [reflexivity|]. split.
      { intros p' [= <-]. unfold exists_in. rewrite Hf. reflexivity. }
      split; [discriminate|]. split; [discriminate|]. apply Hfail, Hc.
    + eexists None, _. pose proof (check_explicit_missing E pp p w Hp Hf) as Hc.
      split; [exact Hc|]. split; [reflexivity|]. split.
      { intros p' [= <-]. unfold exists_in. rewrite Hf. reflexivity. }
      split; [discriminate|]. split; [discriminate|]. apply Hfail, Hc.
  - destruct (truthy (e_which E "PotreeConverter" (fs w))) as [q|] eqn:Hq.
    + exists (Some q), w. pose proof (check_search_path E pp q w Hp Hq) as Hc.
      split; [exact Hc|]. split; [reflexivity|]. split; [discriminate|].
      split; [intros _ q' [= <-]; reflexivity|]. split; [discriminate|].
      apply Hfail, Hc.
    + eexists _, w. pose proof (check_common_paths E pp w Hp Hq) as Hc.
      split; [exact Hc|]. split; [reflexivity|]. split; [discriminate|].
      split; [discriminate|]. split; [reflexivity|]. apply Hfail, Hc.
Qed.

Lemma potree_converter_resolution_witness :
  exists r w',
    check_potree_converter (hdf_env 0) (Some "/opt/PotreeConverter") hdf_world
      = (Ret r, w') /\
    r = None /\
    tool_not_found_failure w'
      (convert_hdf_to_potree (hdf_env 0) "orbit.hdf" None
         (Some "/opt/PotreeConverter") pdal_bin false hdf_world).
Proof.
  destruct (potree_converter_resolution (hdf_env 0) (Some "/opt/PotreeConverter")
              hdf_world) as (r & w' & Hc & _ & Hexp & _ & _ & Hfail).
  exists r, w'. split; [exact Hc|].
  assert (Hr : r = None) by (apply (Hexp "/opt/PotreeConverter"); reflexivity).
  split; [exact Hr|]. apply Hfail, Hr.
Defined.

(** ** JSON text *)

Lemma str_app_cons (x : ascii) (a b : string) :
  String x a +:+ b = String x (a +:+ b).
Proof. reflexivity. Qed.

Lemma str_app_nil_l (a : string) : "" +:+ a = a.
Proof. reflexivity. Qed.

Lemma str_app_assoc (a b c : string) : (a +:+ b) +:+ c = a +:+ (b +:+ c).
Proof.
  induction a as [|x a IH]; [reflexivity|].
  rewrite !str_app_cons, IH. reflexivity.
Qed.

Lemma str_app_nil_r (a : string) : a +:+ "" = a.
Proof.
  induction a as [|x a IH]; [reflexivity|]. rewrite str_app_cons, IH. reflexivity.
Qed.

Lemma str_length_app (a b : string) :
  String.length (a +:+ b) = (String.length a + String.length b)%nat.
Proof.
  induction a as [|x a IH]; [reflexivity|].
  rewrite str_app_cons. cbn [String.length]. rewrite IH. reflexivity.
Qed.

(** *** Strings *)

Lemma scanstring_escape_char (c : ascii) (x : string) :
  scanstring (escape_char c +:+ x) = cons_char c (scanstring x).
Proof.
  destruct c as [b0 b1 b2 b3 b4 b5 b6 b7].
  destruct b0, b1, b2, b3, b4, b5, b6, b7; reflexivity.
Qed.

Lemma scanstring_escape (s rest : string) :
  scanstring (escape s +:+ String dquote rest) = Some (s, rest).
Proof.
  induction s as [|c s IH]; [reflexivity|].
  cbn [escape]. rewrite str_app_assoc, scanstring_escape_char, IH. reflexivity.
Qed.

Lemma encode_string_app (s rest : string) :
  encode_string s +:+ rest = String dquote (escape s +:+ String dquote rest).
Proof.
  unfold encode_string. rewrite str_app_cons, str_app_assoc, str_app_cons.
  reflexivity.
Qed.

Ltac ascii_cases c :=
  let b0 := fresh in let b1 := fresh in let b2 := fresh in let b3 := fresh in
  let b4 := fresh in let b5 := fresh in let b6 := fresh in let b7 := fresh in
  destruct c as [b0 b1 b2 b3 b4 b5 b6 b7];
  destruct b0, b1, b2, b3, b4, b5, b6, b7.

(** *** White space *)

Lemma skip_ws_app (w s : string) :
  all_ws w = true -> head_not_ws s = true -> skip_ws (w +:+ s) = s.
Proof.
  intros Hw Hs. induction w as [|c w IH].
  - rewrite str_app_nil_l. destruct s as [|c r]; [reflexivity|].
    cbn in Hs. cbn [skip_ws]. apply negb_true_iff in Hs. rewrite Hs. reflexivity.
  - cbn in Hw. apply andb_true_iff in Hw as [Hc Hw].
    rewrite str_app_cons. cbn [skip_ws]. rewrite Hc. apply IH, Hw.
Qed.

Lemma skip_ws_id (s : string) : head_not_ws s = true -> skip_ws s = s.
Proof. intros H. apply (skip_ws_app "" s); [reflexivity | exact H]. Qed.

Lemma all_ws_spaces n : all_ws (spaces n) = true.
Proof. induction n as [|n IH]; [reflexivity | exact IH]. Qed.

Lemma all_ws_newline_indent indent level :
  all_ws (newline_indent indent level) = true.
Proof. destruct indent as [n|]; [apply all_ws_spaces | reflexivity]. Qed.

Lemma item_separator_eq indent level :
  exists w, item_separator indent level = String "," w /\ all_ws w = true.
Proof.
  destruct indent as [n|].
  - exists (newline_indent (Some n) level). split; [reflexivity|].
    apply all_ws_newline_indent.
  - exists " ". split; reflexivity.
Qed.

(** *** Numbers *)

Lemma delim_facts c :
  is_delim c = true ->
  is_digit c = false /\ Ascii.eqb c "." = false /\
  Ascii.eqb c "e" = false /\ Ascii.eqb c "E" = false.
Proof. ascii_cases c; intros H; try discriminate H; repeat split. Qed.

Lemma digit_facts c :
  is_digit c = true -> Ascii.eqb c "-" = false /\ value_head (String c "") = true.
Proof. ascii_cases c; intros H; try discriminate H; repeat split. Qed.

Lemma span_digits_app (ds x : string) :
  all_digits ds = true -> head_not_digit x = true ->
  span_digits (ds +:+ x) = (ds, x).
Proof.
  intros Hds Hx. induction ds as [|c ds IH].
  - rewrite str_app_nil_l. destruct x as [|c r]; [reflexivity|].
    cbn in Hx. cbn [span_digits]. apply negb_true_iff in Hx. rewrite Hx. reflexivity.
  - cbn in Hds. apply andb_true_iff in Hds as [Hc Hds].
    rewrite str_app_cons. cbn [span_digits]. rewrite Hc, (IH Hds). reflexivity.
Qed.

Lemma delimited_not_digit rest : delimited rest = true -> head_not_digit rest = true.
Proof.
  destruct rest as [|c r]; [reflexivity|]. cbn. intros H.
  destruct (delim_facts c H) as (-> & _). reflexivity.
Qed.

Lemma scan_number_neg (x : string) :
  scan_number (String "-" x) =
    match scan_int_digits x with
    | Some (i, s2) =>
        let (f, s3) := scan_frac s2 in
        if has_exponent s3 then None else Some (NumLit true i f, s3)
    | None => None
    end.
Proof. reflexivity. Qed.

Lemma scan_number_pos (c : ascii) (r : string) :
  Ascii.eqb c "-" = false ->
  scan_number (String c r) =
    match scan_int_digits (String c r) with
    | Some (i, s2) =>
        let (f, s3) := scan_frac s2 in
        if has_exponent s3 then None else Some (NumLit false i f, s3)
    | None => None
    end.
Proof. intros H. unfold scan_number. rewrite H. reflexivity. Qed.

Lemma scan_number_repr (n : numlit) (rest : string) :
  numlit_ok n = true -> delimited rest = true ->
  scan_number (repr_num n +:+ rest) = Some (n, rest).
Proof.
  destruct n as [neg i f]. unfold numlit_ok, repr_num. cbn [n_neg n_int n_frac].
  intros Hok Hrest. apply andb_true_iff in Hok as [Hi Hf].
  rewrite !str_app_assoc.
  set (x := match f with Some f0 => "." +:+ f0 | None => "" end +:+ rest).
  assert (Hx : head_not_digit x = true).
  { subst x. destruct f as [f0|]; [reflexivity|].
    rewrite str_app_nil_l. apply delimited_not_digit, Hrest. }
  assert (Hint : scan_int_digits (i +:+ x) = Some (i, x)).
  { destruct i as [|c r]; [discriminate Hi|]. cbn in Hi.
    rewrite str_app_cons. cbn [scan_int_digits].
    destruct (Ascii.eqb c "0") eqn:Hc0.
    - apply String.eqb_eq in Hi. subst r. apply Ascii.eqb_eq in Hc0. subst c.
      reflexivity.
    - apply andb_true_iff in Hi as [Hc Hr]. rewrite Hc.
      rewrite <- str_app_cons. rewrite span_digits_app; [reflexivity| |exact Hx].
      cbn. rewrite Hc, Hr. reflexivity. }
  assert (Hfrac : scan_frac x = (f, rest)).
  { subst x. destruct f as [f0|].
    - cbn in Hf. apply andb_true_iff in Hf as [Hne Hd].
      rewrite str_app_assoc. change ("." +:+ (f0 +:+ rest)) with (String "." (f0 +:+ rest)).
      cbn [scan_frac]. change (Ascii.eqb "." ".") with true. cbn iota.
      rewrite span_digits_app; [|exact Hd|apply delimited_not_digit, Hrest].
      destruct f0; [discriminate Hne | reflexivity].
    - rewrite str_app_nil_l. destruct rest as [|c r]; [reflexivity|].
      cbn in Hrest. destruct (delim_facts c Hrest) as (_ & Hdot & _).
      cbn [scan_frac]. rewrite Hdot. reflexivity. }
  assert (Hexp : has_exponent rest = false).
  { destruct rest as [|c r]; [reflexivity|]. cbn in Hrest.
    destruct (delim_facts c Hrest) as (_ & _ & He & HE).
    cbn [has_exponent]. rewrite He, HE. reflexivity. }
  destruct neg.
  - change ("-" +:+ i +:+ x) with (String "-" (i +:+ x)).
    rewrite scan_number_neg, Hint, Hfrac, Hexp. reflexivity.
  - rewrite str_app_nil_l.
    destruct i as [|c r]; [discriminate Hi|]. rewrite str_app_cons in *.
    assert (Hc : is_digit c = true).
    { cbn in Hi. destruct (Ascii.eqb c "0") eqn:Hc0.
      - apply Ascii.eqb_eq in Hc0. subst c. reflexivity.
      - apply andb_true_iff in Hi as [Hc _]. exact Hc. }
    destruct (digit_facts c Hc) as [Hm _].
    rewrite (scan_number_pos _ _ Hm), Hint, Hfrac, Hexp. reflexivity.
Qed.

(** *** Induction on values *)

Lemma pyval_ind' {N} (P : pyval N -> Prop) :
  P PNone -> (forall b, P (PBool b)) -> (forall n, P (PNum n)) ->
  (forall s, P (PStr s)) ->
  (forall l, Forall P l -> P (PList l)) ->
  (forall d, Forall (fun kv => P (snd kv)) d -> P (PDict d)) ->
  forall v, P v.
Proof.
  intros HN HB HM HS HL HD.
  fix IH 1. intros [| b | n | s | l | d].
  - exact HN.
  - apply HB.
  - apply HM.
  - apply HS.
  - apply HL. induction l as [|x l IHl]; constructor; [apply IH | exact IHl].
  - apply HD. induction d as [|[k x] d IHd]; constructor; [apply IH | exact IHd].
Qed.

(** *** The equations of the encoder and of the decoder *)

Lemma encode_list_cons indent level x l :
  encode indent level (PList (x :: l)) =
    "[" +:+ newline_indent indent (S level) +:+
    String.concat (item_separator indent (S level))
                  (map (encode indent (S level)) (x :: l)) +:+
    newline_indent indent level +:+ "]".
Proof. reflexivity. Qed.

Lemma encode_dict_cons indent level kv d :
  encode indent level (PDict (kv :: d)) =
    "{" +:+ newline_indent indent (S level) +:+
    String.concat (item_separator indent (S level))
                  (map (encode_member indent (S level)) (kv :: d)) +:+
    newline_indent indent level +:+ "}".
Proof. reflexivity. Qed.

Lemma decode_value_string fuel r :
  decode_value (S fuel) (String dquote r) =
    match scanstring r with
    | Some (t, rest) => Some (PStr t, rest)
    | None => None
    end.
Proof. reflexivity. Qed.

Lemma decode_value_list fuel r :
  decode_value (S fuel) (String "[" r) =
    match skip_ws r with
    | String c' r' =>
        if Ascii.eqb c' "]" then Some (PList [], r')
        else match decode_elems fuel (String c' r') with
             | Some (vs, rest) => Some (PList vs, rest)
             | None => None
             end
    | EmptyString => None
    end.
Proof. reflexivity. Qed.

Lemma decode_value_dict fuel r :
  decode_value (S fuel) (String "{" r) =
    match skip_ws r with
    | String c' r' =>
        if Ascii.eqb c' "}" then Some (PDict [], r')
        else match decode_members fuel (String c' r') with
             | Some (ps, rest) => Some (PDict (dict_of_pairs ps), rest)
             | None => None
             end
    | EmptyString => None
    end.
Proof. reflexivity. Qed.

Lemma decode_value_number fuel c r :
  is_digit c || Ascii.eqb c "-" = true ->
  decode_value (S fuel) (String c r) =
    match scan_number (String c r) with
    | Some (n, rest) => Some (PNum n, rest)
    | None => None
    end.
Proof. ascii_cases c; intros H; try discriminate H; reflexivity. Qed.

Lemma decode_elems_eq fuel s :
  decode_elems (S fuel) s =
    match decode_value fuel s with
    | Some (v, rest) =>
        match skip_ws rest with
        | String c r =>
            if Ascii.eqb c "]" then Some ([v], r)
            else if Ascii.eqb c "," then
              match decode_elems fuel (skip_ws r) with
              | Some (vs, rest') => Some (v :: vs, rest')
              | None => None
              end
            else None
        | EmptyString => None
        end
    | None => None
    end.
Proof. reflexivity. Qed.

Lemma decode_members_eq fuel s :
  decode_members (S fuel) s =
    match expect dquote s with
    | Some s1 =>
        match scanstring s1 with
        | Some (k, s2) =>
            match expect ":" (skip_ws s2) with
            | Some s3 =>
                match decode_value fuel (skip_ws s3) with
                | Some (v, rest) =>
                    match skip_ws rest with
                    | String c r =>
                        if Ascii.eqb c "}" then Some ([(k, v)], r)
                        else if Ascii.eqb c "," then
                          match decode_members fuel (skip_ws r) with
                          | Some (ps, rest') => Some ((k, v) :: ps, rest')
                          | None => None
                          end
                        else None
                    | EmptyString => None
                    end
                | None => None
                end
            | None => None
            end
        | None => None
        end
    | None => None
    end.
Proof. reflexivity. Qed.

(** *** The first character of an encoded value *)

Lemma value_head_app s x : value_head s = true -> value_head (s +:+ x) = true.
Proof. destruct s as [|c r]; [discriminate | intros H; exact H]. Qed.

Lemma value_head_not_ws s : value_head s = true -> head_not_ws s = true.
Proof.
  destruct s as [|c r]; [discriminate|]. cbn. intros H.
  apply andb_true_iff in H as [H _]. apply andb_true_iff in H as [H _]. exact H.
Qed.

Lemma repr_num_head n : numlit_ok n = true -> value_head (repr_num n) = true.
Proof.
  destruct n as [neg i f]. unfold numlit_ok, repr_num. cbn [n_neg n_int n_frac].
  intros H. apply andb_true_iff in H as [Hi _]. destruct neg; [reflexivity|].
  rewrite str_app_nil_l. destruct i as [|c r]; [discriminate Hi|].
  rewrite str_app_cons.
  assert (Hc : is_digit c = true).
  { cbn in Hi. destruct (Ascii.eqb c "0") eqn:Hc0.
    - apply Ascii.eqb_eq in Hc0. subst c. reflexivity.
    - apply andb_true_iff in Hi as [Hc _]. exact Hc. }
  destruct (digit_facts c Hc) as [_ Hv]. exact Hv.
Qed.

Lemma encode_head indent level v :
  wf_value v = true -> value_head (encode indent level v) = true.
Proof.
  destruct v as [| [|] | n | s | [|x l] | [|kv d]]; intros H; try reflexivity.
  apply repr_num_head, H.
Qed.

Lemma concat_cons_cons sep (a b : string) l :
  String.concat sep (a :: b :: l) = a +:+ sep +:+ String.concat sep (b :: l).
Proof. reflexivity. Qed.

Lemma concat_head sep (a : string) l x :
  value_head a = true -> value_head (String.concat sep (a :: l) +:+ x) = true.
Proof.
  intros H. destruct l as [|b l].
  - apply value_head_app, H.
  - rewrite concat_cons_cons. rewrite str_app_assoc. apply value_head_app, H.
Qed.

Lemma delimited_close w c rest :
  all_ws w = true -> is_delim c = true -> delimited (w +:+ String c rest) = true.
Proof.
  intros Hw Hc. destruct w as [|x w]; [exact Hc|].
  rewrite str_app_cons. cbn in *. apply andb_true_iff in Hw as [Hx _].
  unfold is_delim. rewrite Hx. apply orb_true_r.
Qed.

Lemma sep_app (sep w x : string) :
  sep = String "," w -> sep +:+ x = String "," (w +:+ x).
Proof. intros ->. reflexivity. Qed.

(** *** Lists of elements *)

Section Elements.
Context (indent : option nat).

Lemma decode_elems_items (l : list descriptor) :
  Forall (decodes indent) l -> forallb wf_value l = true -> l <> [] ->
  forall level fuel w rest,
    (need_elems l <= fuel)%nat -> all_ws w = true ->
    decode_elems fuel
      (String.concat (item_separator indent level) (map (encode indent level) l)
       +:+ w +:+ String "]" rest) = Some (l, rest).
Proof.
  induction l as [|x l IH]; intros HP Hwf Hne level fuel w rest Hfuel Hw;
    [congruence|].
  inversion HP as [|? ? Hx HP']; subst.
  cbn [forallb] in Hwf. apply andb_true_iff in Hwf as [Hwx Hwl].
  cbn [need_elems fold_right] in Hfuel. fold (need_elems l) in Hfuel.
  destruct fuel as [|fuel]; [lia|].
  rewrite decode_elems_eq.
  destruct l as [|y l].
  - cbn [map String.concat].
    rewrite (Hx Hwx level fuel (w +:+ String "]" rest));
      [| lia | apply delimited_close; [exact Hw | reflexivity]].
    rewrite (skip_ws_app w (String "]" rest) Hw); reflexivity.
  - cbn [map]. rewrite concat_cons_cons, !str_app_assoc.
    destruct (item_separator_eq indent level) as (w' & Hsep & Hw').
    rewrite (sep_app _ _ _ Hsep).
    rewrite (Hx Hwx level fuel); [| lia | reflexivity].
    rewrite skip_ws_id by reflexivity.
    change (Ascii.eqb "," "]") with false. change (Ascii.eqb "," ",") with true.
    cbn iota.
    rewrite (skip_ws_app w').
    + rewrite <- str_app_assoc.
      change (encode indent level y :: map (encode indent level) l)
        with (map (encode indent level) (y :: l)).
      rewrite str_app_assoc.
      rewrite (IH HP' Hwl ltac:(discriminate) level fuel w rest ltac:(lia) Hw).
      reflexivity.
    + exact Hw'.
    + apply value_head_not_ws.
      apply concat_head. apply encode_head.
      cbn [forallb] in Hwl. apply andb_true_iff in Hwl as [Hy _]. exact Hy.
Qed.

End Elements.

(** *** Entries of a dictionary *)

Lemma encode_member_app indent level k x rest :
  encode_member indent level (k, x) +:+ rest =
    String dquote
      (escape k +:+
       String dquote (String ":" (String " " (encode indent level x +:+ rest)))).
Proof.
  unfold encode_member, key_separator.
  rewrite str_app_assoc, encode_string_app, str_app_assoc. reflexivity.
Qed.

Lemma concat_member_head sep indent level k x l rest :
  exists r, String.concat sep (encode_member indent level (k, x) :: l) +:+ rest
            = String dquote r.
Proof.
  destruct l as [|b l].
  - cbn [String.concat]. rewrite encode_member_app. eauto.
  - rewrite concat_cons_cons, str_app_assoc, encode_member_app. eauto.
Qed.

Lemma skip_ws_space (s : string) :
  head_not_ws s = true -> skip_ws (String " " s) = s.
Proof. intros H. apply (skip_ws_app " " s); [reflexivity | exact H]. Qed.

Section Members.
Context (indent : option nat).

Lemma decode_members_items (d : list (string * descriptor)) :
  Forall (fun kv => decodes indent (snd kv)) d ->
  forallb (fun kv => wf_value (snd kv)) d = true -> d <> [] ->
  forall level fuel w rest,
    (need_members d <= fuel)%nat -> all_ws w = true ->
    decode_members fuel
      (String.concat (item_separator indent level)
                     (map (encode_member indent level) d)
       +:+ w +:+ String "}" rest) = Some (d, rest).
Proof.
  induction d as [|[k x] d IH]; intros HP Hwf Hne level fuel w rest Hfuel Hw;
    [congruence|].
  inversion HP as [|? ? Hx HP']; subst. cbn [snd] in Hx.
  cbn [forallb snd] in Hwf. apply andb_true_iff in Hwf as [Hwx Hwd].
  cbn [need_members fold_right snd] in Hfuel. fold (need_members d) in Hfuel.
  destruct fuel as [|fuel]; [lia|].
  rewrite decode_members_eq.
  destruct d as [|[k' y] d].
  - cbn [map String.concat]. rewrite encode_member_app.
    cbn [expect]. change (Ascii.eqb dquote dquote) with true. cbn iota.
    rewrite scanstring_escape.
    rewrite skip_ws_id by reflexivity.
    cbn [expect]. change (Ascii.eqb ":" ":") with true. cbn iota.
    rewrite skip_ws_space by
      (apply value_head_not_ws, value_head_app, encode_head, Hwx).
    rewrite (Hx Hwx level fuel (w +:+ String "}" rest));
      [| lia | apply delimited_close; [exact Hw | reflexivity]].
    rewrite (skip_ws_app w (String "}" rest) Hw); reflexivity.
  - cbn [map]. rewrite concat_cons_cons, !str_app_assoc, encode_member_app.
    cbn [expect]. change (Ascii.eqb dquote dquote) with true. cbn iota.
    rewrite scanstring_escape.
    rewrite skip_ws_id by reflexivity.
    cbn [expect]. change (Ascii.eqb ":" ":") with true. cbn iota.
    rewrite skip_ws_space by
      (apply value_head_not_ws, value_head_app, encode_head, Hwx).
    destruct (item_separator_eq indent level) as (w' & Hsep & Hw').
    rewrite (sep_app _ _ _ Hsep).
    rewrite (Hx Hwx level fuel); [| lia | reflexivity].
    rewrite skip_ws_id by reflexivity.
    change (Ascii.eqb "," "}") with false. change (Ascii.eqb "," ",") with true.
    cbn iota.
    rewrite (skip_ws_app w').
    + change (encode_member indent level (k', y) :: map (encode_member indent level) d)
        with (map (encode_member indent level) ((k', y) :: d)).
      rewrite (IH HP' Hwd ltac:(discriminate) level fuel w rest ltac:(lia) Hw).
      reflexivity.
    + exact Hw'.
    + destruct (concat_member_head (item_separator indent level) indent level
                  k' y (map (encode_member indent level) d)
                  (w +:+ String "}" rest)) as [r ->].
      reflexivity.
Qed.

End Members.

(** *** [dict(pairs)] on pairs without a repeated key *)

Lemma dict_set_fresh {N} (d : list (string * pyval N)) k v :
  existsb (String.eqb k) (map fst d) = false ->
  dict_set d k v = d ++ [(k, v)].
Proof.
  induction d as [|[k' v'] d IH]; intros H; [reflexivity|].
  cbn in H. apply orb_false_iff in H as [H1 H2].
  cbn [dict_set]. rewrite H1, (IH H2). reflexivity.
Qed.

Lemma dict_of_pairs_nodup_from {N} (acc d : list (string * pyval N)) :
  nodup_keys (map fst (acc ++ d)) = true ->
  foldl (fun a kv => dict_set a kv.1 kv.2) acc d = acc ++ d.
Proof.
  revert acc. induction d as [|[k v] d IH]; intros acc H.
  - cbn. rewrite app_nil_r. reflexivity.
  - cbn [foldl fst snd]. rewrite dict_set_fresh.
    + rewrite IH; rewrite <- app_assoc; [reflexivity | exact H].
    + clear IH. induction acc as [|[k0 v0] acc IHa]; [reflexivity|].
      cbn in H. apply andb_true_iff in H as [H1 H2].
      cbn. rewrite (IHa H2), orb_false_r.
      apply negb_true_iff in H1. rewrite map_app, existsb_app in H1.
      apply orb_false_iff in H1 as [_ H1]. cbn in H1.
      apply orb_false_iff in H1 as [H1 _].
      rewrite String.eqb_sym. exact H1.
Qed.

Lemma dict_of_pairs_nodup {N} (d : list (string * pyval N)) :
  nodup_keys (map fst d) = true -> dict_of_pairs d = d.
Proof. intros H. apply (dict_of_pairs_nodup_from [] d). exact H. Qed.

(** *** Values *)

Lemma wf_dict_inv (d : list (string * descriptor)) :
  wf_value (PDict d) = true ->
  nodup_keys (map fst d) = true /\
  forallb (fun kv => wf_value (snd kv)) d = true.
Proof. cbn [wf_value]. intros H. apply andb_true_iff in H. exact H. Qed.

Lemma repr_num_first (n : numlit) (rest : string) :
  numlit_ok n = true ->
  exists c r, repr_num n +:+ rest = String c r /\
              is_digit c || Ascii.eqb c "-" = true.
Proof.
  destruct n as [neg i f]. unfold numlit_ok, repr_num.
  cbn [n_neg n_int n_frac]. intros Hwf.
  apply andb_true_iff in Hwf as [Hi _].
  destruct neg.
  - eexists _, _. split; [reflexivity|]. reflexivity.
  - rewrite str_app_nil_l. destruct i as [|c r]; [discriminate Hi|].
    exists c. eexists. split; [rewrite !str_app_cons; reflexivity|].
    cbn in Hi. destruct (Ascii.eqb c "0") eqn:Hc0.
    + apply Ascii.eqb_eq in Hc0. subst c. reflexivity.
    + apply andb_true_iff in Hi as [Hc _]. rewrite Hc. reflexivity.
Qed.

Lemma decode_encode indent (v : descriptor) : decodes indent v.
Proof.
  induction v as [| b | n | s | l IHl | d IHd] using pyval_ind';
    intros Hwf level fuel rest Hfuel Hrest;
    (destruct fuel as [|fuel]; [cbn in Hfuel; lia|]).
  - reflexivity.
  - destruct b; reflexivity.
  - cbn [encode wf_value] in *.
    destruct (repr_num_first n rest Hwf) as (c & r & Heq & Hc).
    pose proof (scan_number_repr n rest Hwf Hrest) as Hscan.
    rewrite Heq in *. rewrite (decode_value_number fuel c r Hc), Hscan.
    reflexivity.
  - cbn [encode]. rewrite encode_string_app, decode_value_string,
      scanstring_escape. reflexivity.
  - destruct l as [|x l]; [reflexivity|].
    rewrite encode_list_cons. rewrite !str_app_assoc.
    rewrite !str_app_cons, str_app_nil_l, decode_value_list.
    cbn [wf_value] in Hwf.
    assert (Hhead : value_head
              (String.concat (item_separator indent (S level))
                 (map (encode indent (S level)) (x :: l)) +:+
               newline_indent indent level +:+ String "]" rest) = true).
    { cbn [map]. apply concat_head, encode_head.
      cbn [forallb] in Hwf. apply andb_true_iff in Hwf as [Hx _]. exact Hx. }
    rewrite skip_ws_app;
      [| apply all_ws_newline_indent | apply value_head_not_ws, Hhead].
    pose proof (decode_elems_items indent (x :: l) IHl Hwf ltac:(discriminate)
                  (S level) fuel (newline_indent indent level) rest) as Hdec.
    destruct (String.concat _ _ +:+ _) as [|c r] eqn:Heq; [discriminate Hhead|].
    assert (Hc : Ascii.eqb c "]" = false).
    { cbn in Hhead. apply andb_true_iff in Hhead as [Hh _].
      apply andb_true_iff in Hh as [_ Hh]. apply negb_true_iff in Hh. exact Hh. }
    rewrite Hc, Hdec; [reflexivity | | apply all_ws_newline_indent].
    cbn [need] in Hfuel. unfold need_elems. lia.
  - destruct d as [|[k x] d]; [reflexivity|].
    rewrite encode_dict_cons. rewrite !str_app_assoc.
    rewrite !str_app_cons, ?str_app_nil_l, decode_value_dict.
    cbn [map]. rewrite ?str_app_nil_l.
    apply wf_dict_inv in Hwf as [Hnd Hwf].
    destruct (concat_member_head (item_separator indent (S level)) indent
                (S level) k x (map (encode_member indent (S level)) d)
                (newline_indent indent level +:+ String "}" rest)) as [r Heq].
    pose proof (decode_members_items indent ((k, x) :: d) IHd Hwf
                  ltac:(discriminate) (S level) fuel
                  (newline_indent indent level) rest) as Hdec.
    cbn [map] in Hdec.
    rewrite Heq in *.
    rewrite skip_ws_app; [| apply all_ws_newline_indent | reflexivity].
    change (Ascii.eqb dquote "}") with false. cbn iota.
    rewrite Hdec; [| | apply all_ws_newline_indent].
    + rewrite (dict_of_pairs_nodup _ Hnd). reflexivity.
    + cbn [need] in Hfuel. unfold need_members. lia.
Qed.

(** *** Fuel *)

Lemma item_separator_length indent level :
  (1 <= String.length (item_separator indent level))%nat.
Proof.
  destruct (item_separator_eq indent level) as (w & -> & _). cbn. lia.
Qed.

Lemma need_elems_le sep (enc : descriptor -> string) (l : list descriptor) :
  (1 <= String.length sep)%nat ->
  Forall (fun x => need x <= String.length (enc x))%nat l ->
  (need_elems l <= String.length (String.concat sep (map enc l)) + 1)%nat.
Proof.
  intros Hsep. induction l as [|x l IH]; intros H; [cbn; lia|].
  inversion H as [|? ? Hx Hl]; subst. specialize (IH Hl).
  cbn [need_elems fold_right]. fold (need_elems l).
  destruct l as [|y l].
  - cbn. lia.
  - cbn [map] in *. rewrite concat_cons_cons, !str_length_app. lia.
Qed.

Lemma need_members_le sep (enc : string * descriptor -> string)
  (d : list (string * descriptor)) :
  (1 <= String.length sep)%nat ->
  Forall (fun kv => need (snd kv) <= String.length (enc kv))%nat d ->
  (need_members d <= String.length (String.concat sep (map enc d)) + 1)%nat.
Proof.
  intros Hsep. induction d as [|x d IH]; intros H; [cbn; lia|].
  inversion H as [|? ? Hx Hl]; subst. specialize (IH Hl).
  cbn [need_members fold_right]. fold (need_members d).
  destruct d as [|y d].
  - cbn. lia.
  - cbn [map] in *. rewrite concat_cons_cons, !str_length_app. lia.
Qed.

Lemma need_le indent (v : descriptor) :
  wf_value v = true ->
  forall level, (need v <= String.length (encode indent level v))%nat.
Proof.
  induction v as [| b | n | s | l IHl | d IHd] using pyval_ind';
    intros Hwf level.
  - cbn. lia.
  - destruct b; cbn; lia.
  - cbn [encode need wf_value] in *.
    destruct (repr_num_first n "" Hwf) as (c & r & Heq & _).
    rewrite str_app_nil_r in Heq. rewrite Heq. cbn. lia.
  - cbn [encode need]. unfold encode_string. cbn [String.length]. lia.
  - destruct l as [|x l]; [cbn; lia|].
    rewrite encode_list_cons, !str_length_app.
    cbn [wf_value] in Hwf.
    assert (H : Forall (fun x => need x <=
                  String.length (encode indent (S level) x))%nat (x :: l)).
    { clear -IHl Hwf. induction IHl as [|y l' Hy _ IH]; constructor.
      - cbn [forallb] in Hwf. apply andb_true_iff in Hwf as [Hw _].
        apply Hy, Hw.
      - apply IH. cbn [forallb] in Hwf. apply andb_true_iff in Hwf as [_ Hw].
        exact Hw. }
    pose proof (need_elems_le (item_separator indent (S level))
                  (encode indent (S level)) (x :: l)
                  (item_separator_length indent (S level)) H) as Hle.
    cbn [need]. fold (need_elems (x :: l)). cbn [String.length]. lia.
  - destruct d as [|[k x] d]; [cbn; lia|].
    rewrite encode_dict_cons, !str_length_app.
    apply wf_dict_inv in Hwf as [_ Hwf].
    assert (H : Forall (fun kv => need (snd kv) <=
                  String.length (encode_member indent (S level) kv))%nat
                  ((k, x) :: d)).
    { clear -IHd Hwf. induction IHd as [|[k' y] d' Hy _ IH]; constructor.
      - cbn [forallb snd] in Hwf. apply andb_true_iff in Hwf as [Hw _].
        cbn [snd] in *. unfold encode_member. rewrite !str_length_app.
        specialize (Hy Hw (S level)). lia.
      - apply IH. cbn [forallb] in Hwf. apply andb_true_iff in Hwf as [_ Hw].
        exact Hw. }
    pose proof (need_members_le (item_separator indent (S level))
                  (encode_member indent (S level)) ((k, x) :: d)
                  (item_separator_length indent (S level)) H) as Hle.
    cbn [need]. fold (need_members ((k, x) :: d)). cbn [String.length]. lia.
Qed.

(** *** Documents *)

Lemma loads_dumps indent (v : descriptor) :
  wf_value v = true -> loads (dumps indent v) = Some v.
Proof.
  intros Hwf. unfold loads, dumps.
  rewrite skip_ws_id by (apply value_head_not_ws, encode_head, Hwf).
  pose proof (decode_encode indent v Hwf 0%nat
                (S (String.length (encode indent 0 v))) ""
                ltac:(pose proof (need_le indent v Hwf 0%nat); lia)
                eq_refl) as H.
  rewrite str_app_nil_r in H. rewrite H. reflexivity.
Qed.

(** ** Further properties *)

(** X1.  The JSON text of a value, written compactly or indented,
    decodes to the value itself: same entries, in the same order, with
    the same strings and numbers. *)
Theorem json_round_trip :
  forall indent (v : descriptor),
    wf_value v = true -> loads (dumps indent v) = Some v.
Proof. intros indent v H. apply loads_dumps, H. Qed.

Lemma json_round_trip_witness :
  loads (dumps (Some 2) sample_value) = Some sample_value.
Proof. apply (json_round_trip (Some 2) sample_value). reflexivity. Defined.

(** X2.  The pipeline descriptors that the scripts hand to PDAL read
    back, from their JSON text, as they were built: the same stages in
    the same order with the same parameters, whatever the file names and
    the band are. *)
Theorem pipeline_descriptors_round_trip :
  forall indent input_copc output_las las_path copc_path t,
    loads (dumps indent (reproject_pipeline input_copc output_las))
      = Some (reproject_pipeline input_copc output_las) /\
    loads (dumps indent (tile_pipeline las_path copc_path t))
      = Some (tile_pipeline las_path copc_path t) /\
    loads (dumps indent (las_to_copc_pipeline las_path copc_path))
      = Some (las_to_copc_pipeline las_path copc_path).
Proof.
  intros. repeat split; apply loads_dumps; reflexivity.
Qed.

(** *** The characters of the JSON text *)

Lemma all_chars_app P (a b : string) :
  all_chars P (a +:+ b) = all_chars P a && all_chars P b.
Proof.
  induction a as [|c a IH]; [reflexivity|].
  rewrite str_app_cons. cbn [all_chars]. rewrite IH, andb_assoc. reflexivity.
Qed.

Lemma all_chars_concat P sep (l : list string) :
  all_chars P sep = true -> Forall (fun s => all_chars P s = true) l ->
  all_chars P (String.concat sep l) = true.
Proof.
  intros Hsep H. induction H as [|a l Ha Hl IH]; [reflexivity|].
  destruct l as [|b l]; [exact Ha|].
  rewrite concat_cons_cons, !all_chars_app, Ha, Hsep, IH. reflexivity.
Qed.

Lemma escape_char_printable c : all_chars printable (escape_char c) = true.
Proof. ascii_cases c; reflexivity. Qed.

Lemma escape_printable s : all_chars printable (escape s) = true.
Proof.
  induction s as [|c s IH]; [reflexivity|].
  cbn [escape]. rewrite all_chars_app, escape_char_printable, IH. reflexivity.
Qed.

Lemma digit_printable c : is_digit c = true -> printable c = true.
Proof. ascii_cases c; intros H; try discriminate H; reflexivity. Qed.

Lemma digits_printable s : all_digits s = true -> all_chars printable s = true.
Proof.
  induction s as [|c s IH]; [reflexivity|]. cbn. intros H.
  apply andb_true_iff in H as [Hc Hs]. rewrite (digit_printable c Hc), (IH Hs).
  reflexivity.
Qed.

Lemma int_digits_all s : int_digits_ok s = true -> all_digits s = true.
Proof.
  destruct s as [|c r]; [discriminate|]. cbn.
  destruct (Ascii.eqb c "0") eqn:Hc; [|intros H; exact H].
  intros H. apply String.eqb_eq in H. apply Ascii.eqb_eq in Hc. subst. reflexivity.
Qed.

Lemma repr_num_printable n :
  numlit_ok n = true -> all_chars printable (repr_num n) = true.
Proof.
  destruct n as [neg i f]. unfold numlit_ok, repr_num. cbn [n_neg n_int n_frac].
  intros H. apply andb_true_iff in H as [Hi Hf].
  rewrite !all_chars_app, (digits_printable i (int_digits_all i Hi)).
  destruct f as [f0|].
  - cbn in Hf. apply andb_true_iff in Hf as [_ Hf].
    rewrite all_chars_app, (digits_printable f0 Hf). destruct neg; reflexivity.
  - destruct neg; reflexivity.
Qed.

Lemma all_chars_weaken (P Q : ascii -> bool) s :
  (forall c, P c = true -> Q c = true) ->
  all_chars P s = true -> all_chars Q s = true.
Proof.
  intros HPQ. induction s as [|c s IH]; [reflexivity|]. cbn. intros H.
  apply andb_true_iff in H as [Hc Hs]. rewrite (HPQ c Hc), (IH Hs). reflexivity.
Qed.

Lemma encode_chars (P : ascii -> bool) indent (v : descriptor) :
  (forall c, printable c = true -> P c = true) ->
  (forall level, all_chars P (newline_indent indent level) = true) ->
  wf_value v = true ->
  forall level, all_chars P (encode indent level v) = true.
Proof.
  intros HP Hnl.
  assert (Hsep : forall level, all_chars P (item_separator indent level) = true).
  { intros level. unfold item_separator. destruct indent as [n|].
    - rewrite all_chars_app, Hnl, andb_true_r. cbn. rewrite HP; reflexivity.
    - cbn. rewrite !HP; reflexivity. }
  induction v as [| b | n | s | l IHl | d IHd] using pyval_ind';
    intros Hwf level.
  - cbn. rewrite !HP; reflexivity.
  - destruct b; cbn; rewrite !HP; reflexivity.
  - cbn [encode]. apply (all_chars_weaken printable P _ HP).
    apply repr_num_printable, Hwf.
  - cbn [encode]. apply (all_chars_weaken printable P _ HP).
    unfold encode_string. cbn [all_chars]. rewrite all_chars_app, escape_printable.
    reflexivity.
  - destruct l as [|x l]; [cbn; rewrite !HP; reflexivity|].
    rewrite encode_list_cons, !all_chars_app, !Hnl. cbn [wf_value] in Hwf.
    rewrite all_chars_concat; [cbn; rewrite !HP; reflexivity | apply Hsep |].
    apply Forall_map. clear -IHl Hwf.
    induction IHl as [|y l' Hy _ IH]; constructor.
    + cbn [forallb] in Hwf. apply andb_true_iff in Hwf as [Hw _]. apply Hy, Hw.
    + apply IH. cbn [forallb] in Hwf. apply andb_true_iff in Hwf as [_ Hw].
      exact Hw.
  - destruct d as [|[k x] d]; [cbn; rewrite !HP; reflexivity|].
    rewrite encode_dict_cons, !all_chars_app, !Hnl.
    apply wf_dict_inv in Hwf as [_ Hwf].
    rewrite all_chars_concat; [cbn; rewrite !HP; reflexivity | apply Hsep |].
    apply Forall_map. clear -IHd Hwf HP.
    induction IHd as [|[k' y] d' Hy _ IH]; constructor.
    + cbn [forallb snd] in Hwf. apply andb_true_iff in Hwf as [Hw _].
      cbn [snd] in Hy. unfold encode_member, key_separator, encode_string.
      rewrite !all_chars_app, (Hy Hw). cbn [all_chars].
      rewrite all_chars_app, (all_chars_weaken printable P _ HP (escape_printable k')).
      cbn. rewrite !HP; reflexivity.
    + apply IH. cbn [forallb] in Hwf. apply andb_true_iff in Hwf as [_ Hw].
      exact Hw.
Qed.

(** X3.  The JSON text is plain ASCII whatever characters the file names
    hold: the compact form consists of printable characters only, the
    indented form of printable characters and line feeds. *)
Theorem json_text_is_ascii :
  forall (v : descriptor),
    wf_value v = true ->
    all_chars printable (dumps None v) = true /\
    forall n, all_chars printable_or_newline (dumps (Some n) v) = true.
Proof.
  intros v Hwf. split.
  - apply encode_chars; [auto | reflexivity | exact Hwf].
  - intros n. apply encode_chars; [| | exact Hwf].
    + intros c Hc. unfold printable_or_newline. rewrite Hc. reflexivity.
    + intros level. cbn [newline_indent all_chars].
      induction (n * level)%nat as [|m IH]; [reflexivity | exact IH].
Qed.

Lemma json_text_is_ascii_witness :
  all_chars printable
    (dumps None (reproject_pipeline (String (ascii_of_nat 233) "t" +:+ ".laz")
                                    "out.las")) = true.
Proof.
  exact (proj1 (json_text_is_ascii
           (reproject_pipeline (String (ascii_of_nat 233) "t" +:+ ".laz") "out.las")
           eq_refl)).
Defined.

(** *** The two conversion steps *)


(** X5.  [reproject_copc_to_las] starts PDAL once, on the descriptor
    file it has just written; it returns [True] when PDAL exits with
    status 0 and [False] when it exits with another status, but a PDAL
    that cannot be started is not caught: [FileNotFoundError] reaches
    the caller. *)
Theorem reproject_copc_to_las_reports :
  forall E input_copc output_las w,
    let p := e_temp_name E ".json" (fs w) in
    let text := dumps (Some 2) (reproject_pipeline input_copc output_las) in
    let sp := e_spawn E [pdal_bin; "pipeline"; p] None (<[p := File text]> (fs w)) in
    (reproject_copc_to_las E input_copc output_las w).1 =
      match sp with
      | Exited c => Ret (returncode c =? 0)%Z
      | NoSuchProgram => Raise FileNotFoundError
      end /\
    spawns (new_events w (reproject_copc_to_las E input_copc output_las w).2) =
      [Spawn [pdal_bin; "pipeline"; p] None].
Proof.
  intros E input_copc output_las w p text sp.
  unfold reproject_copc_to_las. run. fold p. fold text.
  rewrite subprocess_run_eq. cbn [fs stdin log]. fold sp.
  destruct (write_all_file (spawn_writes sp) (<[p := File text]> (fs w)) p _
              (lookup_insert_eq _ _ _)) as [c' Hc'].
  destruct sp as [c|]; cbn [spawn_outcome spawn_writes] in *.
  - destruct (returncode c =? 0)%Z; run; rewrite Hc'; run; cbn [fst snd log];
      (split; [reflexivity|]); unfold new_events; cbn [log];
      rewrite <- !app_assoc, drop_app_length; reflexivity.
  - run. rewrite Hc'. run. cbn [fst snd log]. split; [reflexivity|].
    unfold new_events. cbn [log]. rewrite <- !app_assoc, drop_app_length.
    reflexivity.
Qed.

(** ** The test reporter *)

Lemma prefix_app_l (a b s : string) :
  String.prefix (a +:+ b) s = true -> String.prefix a s = true.
Proof.
  revert s. induction a as [|c a IH]; intros s H; [destruct s; reflexivity|].
  rewrite str_app_cons in H. destruct s as [|c' s]; [discriminate H|].
  cbn [String.prefix] in *. destruct (ascii_dec c c'); [auto | discriminate H].
Qed.

Lemma contains_prefix (sub s : string) :
  String.prefix sub s = true -> contains sub s = true.
Proof. intros H. destruct s; cbn [contains]; rewrite H; reflexivity. Qed.

Lemma contains_tail (sub : string) c (s : string) :
  contains sub s = true -> contains sub (String c s) = true.
Proof. intros H. cbn [contains]. rewrite H. apply orb_true_r. Qed.

Lemma contains_app_l (a b s : string) :
  contains (a +:+ b) s = true -> contains a s = true.
Proof.
  induction s as [|c s IH]; cbn [contains]; intros H.
  - rewrite orb_false_r in *. apply prefix_app_l in H. exact H.
  - apply orb_true_iff in H as [H|H].
    + apply prefix_app_l in H. rewrite H. reflexivity.
    + rewrite (IH H). apply orb_true_r.
Qed.

Lemma prefix_app_r (a b s : string) :
  String.prefix (a +:+ b) s = true -> contains b s = true.
Proof.
  revert s. induction a as [|c a IH]; intros s H.
  - rewrite str_app_nil_l in H. apply contains_prefix, H.
  - rewrite str_app_cons in H. destruct s as [|c' s]; [discriminate H|].
    cbn [String.prefix] in H. destruct (ascii_dec c c'); [|discriminate H].
    apply contains_tail, IH, H.
Qed.

Lemma contains_app_r (a b s : string) :
  contains (a +:+ b) s = true -> contains b s = true.
Proof.
  induction s as [|c s IH]; cbn [contains]; intros H.
  - rewrite orb_false_r in H. apply prefix_app_r in H. exact H.
  - apply orb_true_iff in H as [H|H].
    + apply prefix_app_r in H. exact H.
    + apply contains_tail, IH, H.
Qed.

(** X6. A test whose name contains none of the ten keywords is filed
    under Other, and only such a test is. *)
Theorem infer_category_other (name : string) :
  infer_category name = "Other" <->
  forallb (fun k => negb (contains k name)) category_keywords = true.
Proof.
  unfold infer_category, category_keywords. cbn [forallb].
  repeat (destruct (contains _ name); cbn [negb andb];
          [split; discriminate|]).
  split; reflexivity.
Qed.

Lemma fps_group_in_keys (fps : string) : In (fps_group fps) fps_keys.
Proof.
  unfold fps_group, fps_keys.
  repeat (match goal with |- context [if ?b then _ else _] => destruct b end);
    cbn [In]; auto 10.
Qed.

(** X7. An expected frame rate that mentions the range 45-60 goes to
    the group 45-60 FPS, also when it mentions 60 again, and one that
    mentions 45 never goes to the group 60 FPS. *)
Theorem fps_group_45_60 (fps : string) :
  (contains "45-60" fps = true -> fps_group fps = "45-60 FPS") /\
  (contains "45" fps = true -> fps_group fps <> "60 FPS").
Proof.
  split; intros H; unfold fps_group.
  - rewrite (contains_app_l "45" "-60" fps H), H, andb_false_r. reflexivity.
  - rewrite H, andb_false_r.
    repeat (match goal with |- context [if ?b then _ else _] => destruct b end);
      discriminate.
Qed.

(** *** Grouping *)

Lemma group_add_sizes {A} (groups : list (string * list A)) cat x :
  group_sizes (group_add groups cat x) = S (group_sizes groups).
Proof.
  unfold group_sizes. induction groups as [|[c xs] g IH]; [reflexivity|].
  cbn [group_add]. destruct (String.eqb cat c); cbn [map snd concat].
  - rewrite !length_app. cbn. lia.
  - rewrite !length_app in *. rewrite IH. lia.
Qed.

Lemma foldl_group_add_sizes {A B} (key : B -> string) (f : B -> A)
    (l : list B) (g0 : list (string * list A)) :
  group_sizes (foldl (fun groups t => group_add groups (key t) (f t)) g0 l) =
  (group_sizes g0 + List.length l)%nat.
Proof.
  revert g0. induction l as [|t l IH]; intros g0; cbn [foldl List.length]; [lia|].
  rewrite IH, group_add_sizes. lia.
Qed.

Lemma group_add_keys {A} (groups : list (string * list A)) cat x c :
  In c (map fst (group_add groups cat x)) <-> c = cat \/ In c (map fst groups).
Proof.
  induction groups as [|[k xs] g IH]; cbn [group_add map fst In].
  - split; [intros [H|[]]; left; symmetry; exact H | intros [H|[]]; left; symmetry; exact H].
  - destruct (String.eqb cat k) eqn:Hc; cbn [map fst In].
    + apply String.eqb_eq in Hc. subst k. split; [tauto|].
      intros [->|H]; [left; reflexivity | exact H].
    + rewrite IH. tauto.
Qed.

Lemma group_add_nodup {A} (groups : list (string * list A)) cat x :
  List.NoDup (map fst groups) -> List.NoDup (map fst (group_add groups cat x)).
Proof.
  induction groups as [|[k xs] g IH]; intros Hnd.
  - cbn. constructor; [intros [] | constructor].
  - cbn [map fst] in Hnd. apply List.NoDup_cons_iff in Hnd as [Hk Hnd].
    cbn [group_add]. destruct (String.eqb cat k) eqn:Hc; cbn [map fst].
    + constructor; assumption.
    + apply String.eqb_neq in Hc. constructor; [|apply IH, Hnd].
      rewrite group_add_keys. intros [->|H]; [apply Hc; reflexivity | exact (Hk H)].
Qed.

Lemma group_add_in {A} (groups : list (string * list A)) cat x c ts :
  List.NoDup (map fst groups) ->
  In (c, ts) (group_add groups cat x) ->
  (c <> cat /\ In (c, ts) groups) \/
  (c = cat /\ ((exists ts0, In (c, ts0) groups /\ ts = ts0 ++ [x]) \/
               (~ In cat (map fst groups) /\ ts = [x]))).
Proof.
  induction groups as [|[k xs] g IH]; intros Hnd Hin.
  - destruct Hin as [[= <- <-]|[]]. right. split; [reflexivity|].
    right. split; [intros []|reflexivity].
  - cbn [map fst] in Hnd. apply List.NoDup_cons_iff in Hnd as [Hk Hnd].
    cbn [group_add] in Hin. destruct (String.eqb cat k) eqn:Hc.
    + apply String.eqb_eq in Hc. subst k. destruct Hin as [[= <- <-]|Hin].
      * right. split; [reflexivity|]. left. exists xs. split; [left|]; reflexivity.
      * destruct (decide (c = cat)) as [->|Hne].
        -- exfalso. apply Hk. apply in_map_iff. exists (cat, ts). auto.
        -- left. split; [exact Hne | right; exact Hin].
    + apply String.eqb_neq in Hc. destruct Hin as [[= <- <-]|Hin].
      * left. split; [intros ->; apply Hc; reflexivity | left; reflexivity].
      * destruct (IH Hnd Hin) as [[Hne H]|[-> [(ts0 & H & ->)|[Hno ->]]]].
        -- left. split; [exact Hne | right; exact H].
        -- right. split; [reflexivity|]. left. exists ts0.
           split; [right; exact H | reflexivity].
        -- right. split; [reflexivity|]. right. split; [|reflexivity].
           intros [H|H]; [apply Hc; symmetry; exact H | exact (Hno H)].
Qed.

Section Grouping.
Context {B : Type} (key : B -> string).

Lemma keyed_snoc c l t :
  keyed key c (l ++ [t]) = keyed key c l ++ (if String.eqb (key t) c then [t] else []).
Proof. unfold keyed. rewrite List.filter_app. reflexivity. Qed.

Lemma keyed_nil c l : ~ In c (map key l) -> keyed key c l = [].
Proof.
  induction l as [|t l IH]; [reflexivity|]. cbn [map In keyed List.filter].
  intros H. destruct (String.eqb (key t) c) eqn:Hc.
  - apply String.eqb_eq in Hc. tauto.
  - apply IH. tauto.
Qed.

(** The groups after the tests [l], from the dictionary [g0]: every
    list is the one of [g0] followed by the tests of its key, and the
    keys are those of [g0] and those of the tests. *)
Lemma grouped (g0 : list (string * list B)) (l : list B) :
  List.NoDup (map fst g0) ->
  let g := foldl (fun groups t => group_add groups (key t) t) g0 l in
  List.NoDup (map fst g) /\
  (forall c ts, In (c, ts) g ->
     (exists ts0, In (c, ts0) g0 /\ ts = ts0 ++ keyed key c l) \/
     (~ In c (map fst g0) /\ ts = keyed key c l /\ ts <> [])) /\
  (forall c, In c (map fst g) <-> In c (map fst g0) \/ In c (map key l)).
Proof.
  intros Hnd. induction l as [|t l IH] using rev_ind; cbn zeta.
  - cbn [foldl]. split; [exact Hnd|]. split.
    + intros c ts Hin. left. exists ts. split; [exact Hin|].
      rewrite app_nil_r. reflexivity.
    + intros c. cbn. tauto.
  - cbn zeta in IH. rewrite foldl_app. cbn [foldl].
    destruct IH as (Hnd' & Hin' & Hkeys).
    set (g := foldl _ g0 l) in *.
    split; [apply group_add_nodup, Hnd'|]. split.
    + intros c ts Hin. rewrite keyed_snoc.
      destruct (group_add_in g (key t) t c ts Hnd' Hin)
        as [[Hne H]|[-> [(ts0 & H & ->)|[Hno ->]]]].
      * assert (Hk : String.eqb (key t) c = false).
        { apply String.eqb_neq. intros Heq. apply Hne. symmetry. exact Heq. }
        rewrite Hk, app_nil_r. apply Hin', H.
      * rewrite String.eqb_refl.
        destruct (Hin' _ _ H) as [(ts1 & H1 & ->)|(Hno & -> & Hne)].
        -- left. exists ts1. split; [exact H1|]. rewrite app_assoc. reflexivity.
        -- right. split; [exact Hno|]. split; [reflexivity|].
           intros Hnil. apply app_eq_nil in Hnil as [_ Hnil]. discriminate Hnil.
      * rewrite String.eqb_refl. right.
        assert (Hf1 : ~ In (key t) (map fst g0)).
        { intros H; apply Hno, Hkeys; left; exact H. }
        assert (Hf2 : ~ In (key t) (map key l)).
        { intros H; apply Hno, Hkeys; right; exact H. }
        split; [exact Hf1|]. rewrite (keyed_nil _ _ Hf2).
        split; [reflexivity | discriminate].
    + intros c. rewrite group_add_keys, Hkeys, map_app, in_app_iff.
      cbn [map In]. split; [intros [->|[H|H]] | intros [H|[H|[<-|[]]]]]; auto.
Qed.

End Grouping.

(** X8. The summary files every test under exactly one category: the
    categories are distinct, each holds the tests whose name gives that
    category, in the order of the file and at least one, and a category
    is there as soon as one test has it. *)
Theorem categories_partition (tests : list test_config) :
  List.NoDup (map fst (categories tests)) /\
  (forall cat ts, In (cat, ts) (categories tests) ->
     ts = in_category cat tests /\ ts <> []) /\
  (forall t, In t tests ->
     In (infer_category (test_name t)) (map fst (categories tests))).
Proof.
  destruct (grouped (fun t => infer_category (test_name t)) [] tests)
    as (Hnd & Hin & Hkeys); [constructor|].
  split; [exact Hnd|]. split.
  - intros cat ts H. destruct (Hin cat ts H) as [(ts0 & [] & _)|(_ & -> & Hne)].
    split; [reflexivity | exact Hne].
  - intros t Ht. apply Hkeys. right.
    apply (in_map (fun t => infer_category (test_name t))), Ht.
Qed.

Lemma sorted_categories_perm tests :
  Permutation (sorted_categories tests) (categories tests).
Proof. unfold sorted_categories. apply merge_sort_Permutation. Qed.

Lemma group_sizes_sum {A} (g : list (string * list A)) :
  group_sizes g = list_sum (map (fun x => List.length x.2) g).
Proof.
  unfold group_sizes. induction g as [|[c xs] g IH]; [reflexivity|].
  cbn [map snd concat]. rewrite length_app, IH. reflexivity.
Qed.

Lemma list_sum_perm {A} (f : A -> nat) (l l' : list A) :
  Permutation l l' -> list_sum (map f l) = list_sum (map f l').
Proof.
  induction 1; simpl; lia.
Qed.

(** X9. The counts that the summary prints for the categories add up
    to the number of tests, and the categories come in ascending
    order. *)
Theorem category_counts_total (tests : list test_config) :
  list_sum (map snd (category_counts tests)) = List.length tests /\
  Sorted String.le (map fst (category_counts tests)).
Proof.
  unfold category_counts. rewrite !map_map. cbn [fst snd]. split.
  - rewrite (list_sum_perm _ _ _ (sorted_categories_perm tests)).
    rewrite <- group_sizes_sum. unfold categories.
    rewrite (foldl_group_add_sizes (fun t => infer_category (test_name t)) id).
    reflexivity.
  - unfold sorted_categories.
    assert (Htot : Total (fun a b : string * list test_config =>
                            String.le a.1 b.1)).
    { intros a b. apply String.le_total. }
    pose proof (Sorted_merge_sort (fun a b : string * list test_config =>
                                     String.le a.1 b.1) (categories tests)) as H.
    induction H as [|x l Hs IH Hhd]; [constructor|].
    cbn [map]. constructor; [exact IH|].
    destruct Hhd; cbn [map]; constructor. assumption.
Qed.

Lemma group_add_keys_eq {A} (groups : list (string * list A)) cat x :
  In cat (map fst groups) -> map fst (group_add groups cat x) = map fst groups.
Proof.
  induction groups as [|[k xs] g IH]; [intros []|].
  cbn [group_add map fst In]. destruct (String.eqb cat k) eqn:Hc; [reflexivity|].
  apply String.eqb_neq in Hc. intros [H|H]; [congruence|].
  cbn [map fst]. rewrite (IH H). reflexivity.
Qed.

(** X10. The quick reference puts every test in exactly one of its four
    groups: the keys stay the four it starts with, each group holds the
    tests whose expected frame rate gives its key, in the order of the
    file, and the sizes of the groups add up to the number of tests. *)
Theorem fps_groups_partition (tests : list test_config) :
  map fst (fps_groups tests) = fps_keys /\
  (forall key ts, In (key, ts) (fps_groups tests) -> ts = in_fps_group key tests) /\
  list_sum (map (fun g => List.length g.2) (fps_groups tests)) = List.length tests.
Proof.
  split; [|split].
  - unfold fps_groups.
    assert (H : map fst (map (fun k : string => (k, @nil test_config)) fps_keys)
                = fps_keys) by reflexivity.
    revert H. generalize (map (fun k : string => (k, @nil test_config)) fps_keys).
    induction tests as [|t tests IH]; intros g Hg; [exact Hg|].
    cbn [foldl]. apply IH. rewrite group_add_keys_eq; [exact Hg|].
    rewrite Hg. apply fps_group_in_keys.
  - intros key ts Hin.
    destruct (grouped (fun t => fps_group (expected_fps t))
                (map (fun k => (k, [])) fps_keys) tests) as (_ & H & _).
    { cbn. repeat constructor; cbn; intros H; intuition discriminate. }
    destruct (H key ts Hin) as [(ts0 & H0 & ->)|(_ & -> & _)]; [|reflexivity].
    apply in_map_iff in H0 as (k & [= <- <-] & _). reflexivity.
  - rewrite <- group_sizes_sum. unfold fps_groups.
    rewrite (foldl_group_add_sizes (fun t => fps_group (expected_fps t)) id).
    reflexivity.
Qed.
(** ** Invariants of the file system *)

Lemma pr_reads_only {A} I (m : M A) : reads_only m -> preserves I m.
Proof. intros H w Hw. destruct (H w) as (r & evs & ->). exact Hw. Qed.

Lemma pr_ret {A} I (a : A) : preserves I (ret a).
Proof. apply pr_reads_only, ro_ret. Qed.

Lemma pr_raise {A} I e : preserves I (@raise A e).
Proof. apply pr_reads_only, ro_raise. Qed.

Lemma pr_print I t a : preserves I (print t a).
Proof. apply pr_reads_only, ro_print. Qed.

Lemma pr_path_exists I p : preserves I (path_exists p).
Proof. apply pr_reads_only, ro_path_exists. Qed.

Lemma pr_bind {A B} I (m : M A) (k : A -> M B) :
  preserves I m -> (forall a, preserves I (k a)) -> preserves I (bind m k).
Proof.
  intros Hm Hk w Hw. specialize (Hm w Hw). unfold bind.
  destruct (m w) as [[a|e] w']; cbn [snd] in *; [apply Hk|]; exact Hm.
Qed.

Lemma pr_try_except {A} I (m : M A) h :
  preserves I m -> (forall e k, h e = Some k -> preserves I k) ->
  preserves I (try_except m h).
Proof.
  intros Hm Hh w Hw. specialize (Hm w Hw). unfold try_except.
  destruct (m w) as [[a|e] w']; cbn [snd] in *; [exact Hm|].
  destruct (h e) as [k|] eqn:Hk; [apply (Hh _ _ Hk)|]; exact Hm.
Qed.

Lemma pr_try_finally {A} I (m : M A) final :
  preserves I m -> preserves I final -> preserves I (try_finally m final).
Proof.
  intros Hm Hf w Hw. specialize (Hm w Hw). unfold try_finally.
  destruct (m w) as [r w']; cbn [snd] in *. specialize (Hf w' Hm).
  destruct (final w') as [[[]|e] w'']; exact Hf.
Qed.

Lemma pr_if {A} I (b : bool) (m1 m2 : M A) :
  preserves I m1 -> preserves I m2 -> preserves I (if b then m1 else m2).
Proof. destruct b; auto. Qed.

Lemma pr_for_each {A} I (l : list A) body :
  (forall x, preserves I (body x)) -> preserves I (for_each l body).
Proof.
  intros H. induction l as [|x l IH]; cbn [for_each]; [apply pr_ret|].
  apply pr_bind; [apply H | intros _; exact IH].
Qed.

Lemma pr_for_each_from {A} I start (l : list A) body :
  (forall i x, preserves I (body i x)) -> preserves I (for_each_from start l body).
Proof.
  intros H. revert start.
  induction l as [|x l IH]; intros start; cbn [for_each_from]; [apply pr_ret|].
  apply pr_bind; [apply H | intros _; apply IH].
Qed.

Lemma pr_mkdir (I : gmap string node -> Prop) p :
  (forall f, I f -> f !! p = None -> I (<[p := Dir]> f)) -> preserves I (mkdir p).
Proof.
  intros H w Hw. unfold mkdir. run.
  destruct (fs w !! p) as [[|c]|] eqn:Hp; cbn [snd fs]; auto.
Qed.

Lemma pr_unlink (I : gmap string node -> Prop) p :
  (forall f c, I f -> f !! p = Some (File c) -> I (delete p f)) ->
  preserves I (unlink p).
Proof.
  intros H w Hw. unfold unlink. run.
  destruct (fs w !! p) as [[|c]|] eqn:Hp; cbn [snd fs]; eauto.
Qed.

Lemma pr_step {A} I (m : M A) w r w' :
  preserves I m -> m w = (r, w') -> I (fs w) -> I (fs w').
Proof. intros H Hm Hw. specialize (H w Hw). rewrite Hm in H. exact H. Qed.

(** *** What a computation can raise *)

Lemma rz_ret {A} P (a : A) : raises_only P (ret a).
Proof. intros w e H. discriminate H. Qed.

Lemma rz_print P t a : raises_only P (print t a).
Proof. intros w e H. discriminate H. Qed.

Lemma rz_raise {A} (P : exn -> Prop) e : P e -> raises_only P (@raise A e).
Proof. intros He w e' H. injection H as <-. exact He. Qed.

Lemma rz_reads_ret {A} P (m : M A) :
  (forall w, exists a w', m w = (Ret a, w')) -> raises_only P m.
Proof. intros H w e He. destruct (H w) as (a & w' & Hr). rewrite Hr in He. discriminate He. Qed.

Lemma rz_path_exists P p : raises_only P (path_exists p).
Proof. intros w e H. discriminate H. Qed.

Lemma rz_bind {A B} P (m : M A) (k : A -> M B) :
  raises_only P m -> (forall a, raises_only P (k a)) -> raises_only P (bind m k).
Proof.
  intros Hm Hk w e. unfold bind. specialize (Hm w).
  destruct (m w) as [[a|e'] w']; cbn [fst] in *; [apply Hk|].
  intros H. injection H as <-. apply Hm. reflexivity.
Qed.

Lemma rz_if {A} P (b : bool) (m1 m2 : M A) :
  raises_only P m1 -> raises_only P m2 -> raises_only P (if b then m1 else m2).
Proof. destruct b; auto. Qed.

Lemma rz_try_except {A} (P Q : exn -> Prop) (m : M A) h :
  raises_only Q m ->
  (forall e, Q e -> match h e with Some k => raises_only P k | None => P e end) ->
  raises_only P (try_except m h).
Proof.
  intros Hm Hh w e. unfold try_except. specialize (Hm w).
  destruct (m w) as [[a|e'] w']; cbn [fst] in *; [discriminate|].
  specialize (Hh e' (Hm e' eq_refl)).
  destruct (h e') as [k|]; [apply Hh|].
  intros H. injection H as <-. exact Hh.
Qed.

Lemma rz_for_each {A} P (l : list A) body :
  (forall x, raises_only P (body x)) -> raises_only P (for_each l body).
Proof.
  intros H. induction l as [|x l IH]; cbn [for_each]; [apply rz_ret|].
  apply rz_bind; [apply H | intros _; exact IH].
Qed.

Lemma rz_for_each_from {A} P start (l : list A) body :
  (forall i x, raises_only P (body i x)) ->
  raises_only P (for_each_from start l body).
Proof.
  intros H. revert start.
  induction l as [|x l IH]; intros start; cbn [for_each_from]; [apply rz_ret|].
  apply rz_bind; [apply H | intros _; apply IH].
Qed.

Lemma rz_weaken {A} (P Q : exn -> Prop) (m : M A) :
  (forall e, Q e -> P e) -> raises_only Q m -> raises_only P m.
Proof. intros H Hm w e He. apply H, (Hm w e He). Qed.

Lemma rz_mkdir (P : exn -> Prop) p : P FileExistsError -> raises_only P (mkdir p).
Proof.
  intros HP w e. unfold mkdir. run.
  destruct (fs w !! p) as [[|c]|]; cbn; intros H; try discriminate H.
  injection H as <-. exact HP.
Qed.

Lemma rz_unlink (P : exn -> Prop) p : P FileNotFoundError -> raises_only P (unlink p).
Proof.
  intros HP w e. unfold unlink. run.
  destruct (fs w !! p) as [[|c]|]; cbn; intros H; try discriminate H;
    injection H as <-; exact HP.
Qed.

Lemma rz_stat_size_mb (P : exn -> Prop) p :
  P FileNotFoundError -> raises_only P (stat_size_mb p).
Proof.
  intros HP w e. unfold stat_size_mb. run.
  destruct (fs w !! p) as [[|c]|]; cbn; intros H; try discriminate H.
  injection H as <-. exact HP.
Qed.

Section Invariants.
Context (E : env).

Lemma rz_subprocess_run (P : exn -> Prop) argv input :
  P FileNotFoundError -> (forall rc out err, P (CalledProcessError rc out err)) ->
  raises_only P (subprocess_run E argv input).
Proof.
  intros H1 H2 w e. rewrite subprocess_run_eq. cbn [fst].
  destruct (e_spawn E argv input (fs w)) as [c|]; cbn.
  - destruct (returncode c =? 0)%Z; intros H; [discriminate H|].
    injection H as <-. apply H2.
  - intros H. injection H as <-. exact H1.
Qed.

Lemma pr_subprocess_run (I : gmap string node -> Prop) argv input :
  (forall f c, e_spawn E argv input f = Exited c -> I f ->
               I (write_all (c_writes c) f)) ->
  preserves I (subprocess_run E argv input).
Proof.
  intros H w Hw. rewrite subprocess_run_eq. cbn [snd fs].
  destruct (e_spawn E argv input (fs w)) as [c|] eqn:Hs; cbn; [|exact Hw].
  apply (H _ _ Hs Hw).
Qed.

Lemma process_tile_returns las out base t w :
  exists w', process_tile E las out base t w = (Ret tt, w').
Proof.
  destruct (process_tile_run E las out base t w) as (w' & evs & (H & _) & _).
  exists w'. exact H.
Qed.

Lemma rz_split_las_to_tiles las out :
  raises_only (fun e => e = FileExistsError) (split_las_to_tiles E las out).
Proof.
  unfold split_las_to_tiles.
  apply rz_bind; [apply rz_mkdir; reflexivity | intros _].
  repeat (apply rz_bind; [apply rz_print | intros _]).
  apply rz_bind; [|intros _; apply rz_bind; [apply rz_print | intros _; apply rz_print]].
  apply rz_for_each. intros t. apply rz_reads_ret. intros w.
  destruct (process_tile_returns las out (path_stem las) t w) as (w' & H).
  exists tt, w'. exact H.
Qed.

End Invariants.
(** ** The tiler as a script *)

Lemma write_all_spares ws (f : gmap string node) p :
  ~ In p (map fst ws) -> write_all ws f !! p = f !! p.
Proof.
  revert f. induction ws as [|[k c] ws IH]; intros f H; [reflexivity|].
  cbn [map fst In] in H. unfold write_all in *. cbn [foldl fst snd].
  rewrite IH by tauto. apply lookup_insert_ne. tauto.
Qed.

Lemma pr_stat_size_mb I p : preserves I (stat_size_mb p).
Proof.
  intros w Hw. unfold stat_size_mb. run.
  destruct (fs w !! p) as [[|c]|]; exact Hw.
Qed.

Section TilerScript.
Context (E : env).

Lemma pr_split_las_to_tiles las out :
  programs_spare E out ->
  preserves (fun f => can_mkdir f out) (split_las_to_tiles E las out).
Proof.
  intros Hsp. unfold split_las_to_tiles.
  apply pr_bind; [|intros _].
  { apply pr_mkdir. intros f _ _ c. rewrite lookup_insert_eq. discriminate. }
  repeat (apply pr_bind; [apply pr_print | intros _]).
  apply pr_bind; [|intros _; apply pr_bind; [apply pr_print | intros _; apply pr_print]].
  apply pr_for_each. intros t. unfold process_tile.
  apply pr_bind; [apply pr_print | intros _].
  apply pr_try_except.
  - apply pr_bind; [|intros _].
    + apply pr_subprocess_run. intros f c Hc Hf c'.
      rewrite write_all_spares; [apply Hf | apply (Hsp _ _ _ _ Hc)].
    + apply pr_bind; [apply pr_stat_size_mb | intros ?; apply pr_print].
  - intros e k Hk. destruct e; cbn in Hk; try discriminate Hk;
      injection Hk as <-;
      repeat first [apply pr_print | apply pr_bind; [apply pr_print | intros _]].
Qed.

Lemma for_each_las_run out n (l : list string) start w :
  programs_spare E out -> can_mkdir (fs w) out ->
  exists w' evs,
    steps_with
      (for_each_from start l
         (fun i las_file =>
            print "[{}/{}] Processing {}"
                  [PNum (inject_Z (Z.of_nat i)); n; PStr (path_name las_file)];;
            split_las_to_tiles E las_file out)) w tt w' evs /\
    spawns evs = tiling_spawns l out.
Proof.
  intros Hsp. revert start w. induction l as [|las l IH]; intros start w Hw.
  - exists w, []. split; [|reflexivity]. split; [reflexivity|].
    split; [reflexivity | rewrite app_nil_r; reflexivity].
  - cbn [for_each_from]. unfold steps_with.
    unfold bind at 1. unfold bind at 1, print at 1, emit at 1.
    match goal with |- context [split_las_to_tiles E las out ?w1] =>
      set (w1' := w1);
      destruct (split_las_to_tiles_run E las out w1' Hw)
        as (w2 & evs2 & (Hr2 & Hin2 & Hlog2) & Hsp2 & _)
    end.
    rewrite Hr2.
    assert (Hw2 : can_mkdir (fs w2) out).
    { apply (pr_step _ _ _ _ _ (pr_split_las_to_tiles las out Hsp) Hr2). exact Hw. }
    destruct (IH (S start) w2 Hw2) as (w3 & evs3 & (Hr3 & Hin3 & Hlog3) & Hsp3).
    exists w3, ([Print "[{}/{}] Processing {}"
                   [PNum (inject_Z (Z.of_nat start)); n; PStr (path_name las)]]
                ++ evs2 ++ evs3).
    split; [split; [exact Hr3 | split] |].
    + rewrite Hin3, Hin2. reflexivity.
    + rewrite Hlog3, Hlog2. subst w1'. cbn [log]. rewrite <- !app_assoc. reflexivity.
    + rewrite !spawns_app, Hsp2, Hsp3. reflexivity.
Qed.

Lemma process_all_las_files_run las_dir out w :
  programs_spare E out -> can_mkdir (fs w) out ->
  exists w' evs,
    steps_with (process_all_las_files E las_dir out) w tt w' evs /\
    spawns evs =
      tiling_spawns (sorted_paths (glob_suffix las_dir ".las" (fs w))) out.
Proof.
  intros Hsp Hw. unfold process_all_las_files. unfold steps_with.
  unfold bind at 1, get_fs at 1.
  destruct (sorted_paths (glob_suffix las_dir ".las" (fs w))) as [|las l] eqn:Hl.
  - exists (World (fs w) (stdin w) (log w ++ [Print msg_no_las [PStr las_dir]])),
      [Print msg_no_las [PStr las_dir]].
    split; [|reflexivity]. split; [reflexivity|]. split; reflexivity.
  - set (n := PNum (inject_Z (Z.of_nat (List.length (las :: l))))).
    unfold bind at 1, print at 1, emit at 1.
    unfold bind at 1, print at 1, emit at 1.
    unfold bind at 1, print at 1, emit at 1. cbn [fs stdin log].
    match goal with |- context [for_each_from 1 _ _ ?w1] =>
      destruct (for_each_las_run out n (las :: l) 1%nat w1 Hsp Hw)
        as (w2 & evs2 & (Hr2 & Hin2 & Hlog2) & Hsp2)
    end.
    exists w2. eexists (_ :: _ :: _ :: evs2).
    split; [split; [exact Hr2 | split] |].
    + rewrite Hin2. reflexivity.
    + rewrite Hlog2. cbn [log]. rewrite <- !app_assoc. reflexivity.
    + cbn [spawns filter is_spawn]. exact Hsp2.
Qed.

Lemma rz_process_all_las_files las_dir out :
  raises_only (fun e => e = FileExistsError) (process_all_las_files E las_dir out).
Proof.
  unfold process_all_las_files. apply rz_bind; [intros w e H; discriminate H|].
  intros f. destruct (sorted_paths _); [apply rz_print|].
  repeat (apply rz_bind; [apply rz_print | intros _]).
  apply rz_for_each_from. intros i x.
  apply rz_bind; [apply rz_print | intros _; apply rz_split_las_to_tiles].
Qed.

Lemma rz_tiler_main argv :
  raises_only (fun e => e = SystemExit 1) (tiler_main E argv).
Proof.
  assert (Husage : raises_only (fun e => e = SystemExit 1)
            (for_each tiler_usage (fun line => print line []);;
             @sys_exit unit 1)).
  { apply rz_bind; [apply rz_for_each; intros; apply rz_print | intros _].
    apply rz_raise. reflexivity. }
  unfold tiler_main. destruct argv as [|prog [|arg1 rest]]; try exact Husage.
  apply rz_try_except
    with (Q := fun e => e = FileExistsError \/ e = SystemExit 1).
  - destruct (String.eqb arg1 "--all").
    + destruct rest as [|las_dir [|output_dir rest]].
      1,2: apply rz_bind; [apply rz_print | intros _; apply rz_raise; right; reflexivity].
      eapply rz_weaken; [|apply rz_process_all_las_files]. intros e ->. left. reflexivity.
    + eapply rz_weaken; [|apply rz_split_las_to_tiles]. intros e ->. left. reflexivity.
  - intros e [-> | ->]; cbn; [|reflexivity].
    apply rz_bind; [apply rz_print | intros _; apply rz_raise; reflexivity].
Qed.

End TilerScript.

(** X11. Whatever happens to a tile or to the output directory, the
    tiler ends in one of two ways: it returns, or it exits with status
    1; no other exception leaves the script. *)
Theorem tiler_main_exit (E : env) (argv : list string) (w : world) :
  (tiler_main E argv w).1 = Ret tt \/
  (tiler_main E argv w).1 = Raise (SystemExit 1).
Proof.
  pose proof (rz_tiler_main E argv w) as H.
  destruct (tiler_main E argv w) as [[[]|e] w']; cbn [fst] in *.
  - left. reflexivity.
  - right. rewrite (H e eq_refl). reflexivity.
Qed.

(** X12. With the option for a whole directory, a directory without a
    file named *.las is reported in one line; the tiler then returns
    without making the output directory, writing a file or starting a
    process. *)
Theorem tiler_all_without_las_files (E : env) prog las_dir out rest (w : world) :
  glob_suffix las_dir ".las" (fs w) = [] ->
  tiler_main E (prog :: "--all" :: las_dir :: out :: rest) w =
    (Ret tt,
     World (fs w) (stdin w) (log w ++ [Print msg_no_las [PStr las_dir]])).
Proof.
  intros H. unfold tiler_main. cbn [String.eqb Ascii.eqb Bool.eqb].
  unfold try_except, process_all_las_files. unfold bind at 1, get_fs at 1.
  rewrite H. reflexivity.
Qed.

Lemma tiler_all_without_las_files_witness :
  tiler_main tiler_env ["tiler"; "--all"; "empty"; "tiles"] las_world =
    (Ret tt,
     World (fs las_world) (stdin las_world)
           (log las_world ++ [Print msg_no_las [PStr "empty"]])).
Proof.
  apply (tiler_all_without_las_files tiler_env "tiler" "empty" "tiles" [] las_world).
  vm_compute. reflexivity.
Defined.

(** X13. A command line without an input, or with the option for a
    whole directory but without the two directories, ends the tiler
    with status 1 after messages only: no file, no directory and no
    process. *)
Theorem tiler_usage_errors (E : env) (argv : list string) (w : world) :
  tiler_usage_error argv ->
  exists evs,
    tiler_main E argv w =
      (Raise (SystemExit 1), World (fs w) (stdin w) (log w ++ evs)) /\
    Forall (fun ev => exists t a, ev = Print t a) evs.
Proof.
  assert (Husage : exists evs,
            (for_each tiler_usage (fun line => print line []);;
             @sys_exit unit 1) w =
              (Raise (SystemExit 1), World (fs w) (stdin w) (log w ++ evs)) /\
            Forall (fun ev => exists t a, ev = Print t a) evs).
  { exists (map (fun line => Print line []) tiler_usage). split.
    - unfold bind. rewrite for_each_print_lines. reflexivity.
    - apply List.Forall_forall. intros ev Hev. apply in_map_iff in Hev as (l & <- & _).
      eauto. }
  intros [Hlen | [Hall Hlen]].
  - destruct argv as [|prog [|arg1 rest]]; cbn in Hlen; try lia; exact Husage.
  - destruct argv as [|prog [|arg1 rest]]; cbn in Hall; try discriminate Hall.
    injection Hall as ->. unfold tiler_main.
    cbn [String.eqb Ascii.eqb Bool.eqb].
    exists [Print "Error: --all requires <las_dir> and <output_dir>" []].
    split; [|repeat constructor; eauto].
    destruct rest as [|a [|b rest]]; cbn in Hlen; try lia; reflexivity.
Qed.

Lemma tiler_usage_errors_witness :
  exists evs,
    tiler_main tiler_env ["tiler"; "--all"; "las"] las_world =
      (Raise (SystemExit 1),
       World (fs las_world) (stdin las_world) (log las_world ++ evs)) /\
    Forall (fun ev => exists t a, ev = Print t a) evs.
Proof.
  apply (tiler_usage_errors tiler_env ["tiler"; "--all"; "las"] las_world).
  right. split; [reflexivity | cbn; lia].
Defined.


Lemma tiler_env_spares : programs_spare tiler_env "tiles".
Proof.
  intros argv input f c H. unfold tiler_env in H. cbn [e_spawn] in H.
  destruct input as [text|]; [|discriminate H].
  destruct (String.eqb text south_job); injection H as <-; cbn;
    intuition discriminate.
Qed.

(** ** Messages *)

Lemma prints_no_spawn evs :
  Forall (fun ev => exists t args, ev = Print t args) evs -> spawns evs = [].
Proof.
  induction 1 as [|ev evs (t & a & ->) _ IH]; [reflexivity | exact IH].
Qed.

Lemma says_ret {A} (a : A) : says (ret a).
Proof.
  intros w. exists a, []. split; [|constructor].
  unfold ret. f_equal. apply world_eta.
Qed.

Lemma says_print t a : says (print t a).
Proof. intros w. exists tt, [Print t a]. split; [reflexivity|]. repeat constructor. eauto. Qed.

Lemma says_bind {A B} (m : M A) (k : A -> M B) :
  says m -> (forall a, says (k a)) -> says (bind m k).
Proof.
  intros Hm Hk w. destruct (Hm w) as (a & evs & Hr & Hp). unfold bind. rewrite Hr.
  destruct (Hk a (World (fs w) (stdin w) (log w ++ evs))) as (b & evs' & Hr' & Hp').
  rewrite Hr'. cbn [fs stdin log]. exists b, (evs ++ evs').
  rewrite app_assoc. split; [reflexivity|]. apply Forall_app. split; assumption.
Qed.

Lemma says_for_each {A} (l : list A) body :
  (forall x, says (body x)) -> says (for_each l body).
Proof.
  intros H. induction l as [|x l IH]; cbn [for_each]; [apply says_ret|].
  apply says_bind; [apply H | intros _; exact IH].
Qed.

Ltac say_all :=
  repeat first
    [ apply says_print
    | apply says_ret
    | apply says_bind; [|intros ?]
    | apply says_for_each; intros ? ].

(** ** The batch driver, once confirmed *)

Section BatchRun.
Context (E : env).

Lemma convert_single_file_run copc_file out w :
  e_spawn E ["python3"; "convert_copc_to_potree.py"; copc_file;
             path_join out (str_replace ".copc" "" (path_stem copc_file))]
          None (fs w) <> NoSuchProgram ->
  exists r w' evs,
    steps_with (convert_single_file E copc_file out) w r w' evs /\
    spawns evs = [batch_spawn out copc_file].
Proof.
  intros Hstart. unfold steps_with, convert_single_file. run.
  rewrite subprocess_run_eq. cbn [fs stdin log].
  destruct (e_spawn E _ None (fs w)) as [c|]; [|congruence].
  cbn [spawn_outcome spawn_writes].
  destruct (returncode c =? 0)%Z; run;
    (eexists _, _, _; split; [split; [reflexivity | split; [reflexivity |
       cbn [log]; rewrite <- !app_assoc; reflexivity]] | reflexivity]).
Qed.

Lemma map_m_convert_run (l : list string) out w :
  programs_start E ->
  exists rs w' evs,
    steps_with (map_m (fun f => convert_single_file E f out) l) w rs w' evs /\
    spawns evs = map (batch_spawn out) l.
Proof.
  intros Hstart. revert w. induction l as [|f l IH]; intros w.
  - exists [], w, []. split; [|reflexivity]. split; [reflexivity|].
    split; [reflexivity | rewrite app_nil_r; reflexivity].
  - destruct (convert_single_file_run f out w (Hstart _ _ _))
      as (r & w1 & evs1 & (Hr1 & Hin1 & Hlog1) & Hsp1).
    destruct (IH w1) as (rs & w2 & evs2 & (Hr2 & Hin2 & Hlog2) & Hsp2).
    exists (r :: rs), w2, (evs1 ++ evs2).
    split; [split; [|split] |].
    + cbn [map_m]. unfold bind at 1. rewrite Hr1.
      unfold bind at 1. rewrite Hr2. reflexivity.
    + congruence.
    + rewrite Hlog2, Hlog1, app_assoc. reflexivity.
    + rewrite spawns_app, Hsp1, Hsp2. reflexivity.
Qed.

(** The run up to the answer [y]: what is left is the conversions and
    the summary. *)
Lemma batch_main_confirmed prog copc_dir out w n response rest :
  fs w !! copc_dir = Some n ->
  glob_suffix copc_dir ".copc.laz" (fs w) <> [] ->
  can_mkdir (fs w) out ->
  stdin w = response :: rest ->
  str_lower response = "y" ->
  exists evs,
    Forall (fun ev => ~ is_spawn ev = true /\ ev <> Print "CONVERSION SUMMARY" []) evs /\
    batch_main E [prog; copc_dir; out] w =
      (results <- map_m (fun f => convert_single_file E f out)
                        (glob_suffix copc_dir ".copc.laz" (fs w));;
       print "CONVERSION SUMMARY" [];;
       let successes := filter (fun r => r.1.2 = true) results in
       let failures := filter (fun r => r.1.2 = false) results in
       let total := PNum (inject_Z (Z.of_nat (List.length results))) in
       print "Successful: {}/{}"
             [PNum (inject_Z (Z.of_nat (List.length successes))); total];;
       for_each successes (fun r => print "   - {}" [PStr r.1.1]);;
       (match failures with
        | [] => ret tt
        | _ =>
            print "Failed: {}/{}"
                  [PNum (inject_Z (Z.of_nat (List.length failures))); total];;
            for_each failures
              (fun r => print "   - {}: {}" [PStr r.1.1; PStr r.2])
        end);;
       print "Output directory: {}" [PStr out])
      (World (fs_after_mkdir (fs w) out) rest (log w ++ evs)).
Proof.
  intros Hdir Hglob Hmk Hin Hresp. unfold batch_main.
  unfold bind at 1. rewrite (path_exists_some _ _ _ Hdir). cbn [negb].
  unfold bind at 1, get_fs at 1.
  destruct (glob_suffix copc_dir ".copc.laz" (fs w)) as [|f0 fl] eqn:Hg;
    [congruence|].
  unfold bind at 1, print at 1, emit at 1.
  unfold bind at 1. rewrite for_each_print. cbn [fs stdin log].
  unfold bind at 1.
  match goal with |- context [mkdir out ?w1] =>
    destruct (mkdir_run out w1 Hmk) as (w0 & evs0 & (Hr0 & Hin0 & Hlog0) & Hevs0 & Hfs0)
  end.
  rewrite Hr0. cbn [fs stdin log] in *.
  unfold bind at 1, input at 1. rewrite Hin0, Hin.
  rewrite Hresp. cbn [String.eqb Ascii.eqb Bool.eqb negb].
  unfold bind at 1, print at 1, emit at 1. cbn [fs stdin log].
  destruct w0 as [f0' i0 l0]. cbn [fs stdin log] in *. subst f0' l0.
  exists ([Print "Found {} COPC file(s) to convert:"
             [PNum (inject_Z (Z.of_nat (List.length (f0 :: fl))))]] ++
          map (fun x : string => Print "  - {}" [PStr (path_name x)]) (f0 :: fl) ++
          evs0 ++ [Prompt "Convert {} file(s)? [y/N]: ";
                   Print "Starting conversion (max_workers={})..." [PNum 1%Q]]).
  split.
  - apply Forall_app. split; [repeat constructor; discriminate|].
    apply Forall_app. split.
    { apply List.Forall_forall. intros ev Hev. apply in_map_iff in Hev as (x & <- & _).
      split; discriminate. }
    apply Forall_app. split.
    { destruct Hevs0 as [-> | ->]; repeat constructor; discriminate. }
    repeat constructor; discriminate.
  - unfold fs_after_mkdir. rewrite <- !app_assoc. cbn [app]. rewrite <- ?app_assoc.
    reflexivity.
Qed.

End BatchRun.
Lemma quiet_events evs :
  Forall (fun ev => ~ is_spawn ev = true /\ ev <> Print "CONVERSION SUMMARY" []) evs ->
  spawns evs = [] /\ ~ In (Print "CONVERSION SUMMARY" []) evs.
Proof.
  induction 1 as [|ev evs [Hev Hne] _ [IH1 IH2]]; [split; [reflexivity | intros []]|].
  split.
  - unfold spawns in *. cbn [List.filter].
    destruct (is_spawn ev); [congruence | exact IH1].
  - intros [H|H]; [exact (Hne H) | exact (IH2 H)].
Qed.

Lemma summary_says (results : list (string * bool * string)) out :
  says (print "CONVERSION SUMMARY" [];;
        let successes := filter (fun r => r.1.2 = true) results in
        let failures := filter (fun r => r.1.2 = false) results in
        let total := PNum (inject_Z (Z.of_nat (List.length results))) in
        print "Successful: {}/{}"
              [PNum (inject_Z (Z.of_nat (List.length successes))); total];;
        for_each successes (fun r => print "   - {}" [PStr r.1.1]);;
        (match failures with
         | [] => ret tt
         | _ =>
             print "Failed: {}/{}"
                   [PNum (inject_Z (Z.of_nat (List.length failures))); total];;
             for_each failures
               (fun r => print "   - {}: {}" [PStr r.1.1; PStr r.2])
         end);;
        print "Output directory: {}" [PStr out]).
Proof.
  cbv zeta. destruct (filter (fun r => r.1.2 = false) results); say_all.
Qed.

(** X15. A directory without a file named *.copc.laz ends the batch
    with status 1 after one message: the output directory is not made,
    no question is asked and no conversion is started. *)
Theorem batch_without_inputs (E : env) prog copc_dir out (w : world) n :
  fs w !! copc_dir = Some n ->
  glob_suffix copc_dir ".copc.laz" (fs w) = [] ->
  batch_main E [prog; copc_dir; out] w =
    (Raise (SystemExit 1),
     World (fs w) (stdin w)
           (log w ++ [Print "No .copc.laz files found in {}" [PStr copc_dir]])).
Proof.
  intros Hdir Hglob. unfold batch_main.
  unfold bind at 1. rewrite (path_exists_some _ _ _ Hdir). cbn [negb].
  unfold bind at 1, get_fs at 1. rewrite Hglob. reflexivity.
Qed.

Lemma batch_without_inputs_witness :
  batch_main (quiet_env 0 (PDict [])) ["batch"; "las"; "potree_out"] las_world =
    (Raise (SystemExit 1),
     World (fs las_world) (stdin las_world)
           (log las_world ++ [Print "No .copc.laz files found in {}" [PStr "las"]])).
Proof.
  apply (batch_without_inputs (quiet_env 0 (PDict [])) "batch" "las" "potree_out"
           las_world Dir).
  - reflexivity.
  - vm_compute. reflexivity.
Defined.

(** X16. After the answer y or Y the batch starts one conversion for
    each file it has listed, in the order of the list, each on the
    output directory named after the file, and then returns: a
    conversion that fails is noted and the next one starts, and the
    status of the batch is 0 all the same. *)
Theorem batch_confirmed_runs_all (E : env) prog copc_dir out (w : world) n
    response rest :
  fs w !! copc_dir = Some n ->
  glob_suffix copc_dir ".copc.laz" (fs w) <> [] ->
  can_mkdir (fs w) out ->
  stdin w = response :: rest ->
  str_lower response = "y" ->
  programs_start E ->
  exists w',
    batch_main E [prog; copc_dir; out] w = (Ret tt, w') /\
    spawns (new_events w w') =
      map (batch_spawn out) (glob_suffix copc_dir ".copc.laz" (fs w)) /\
    stdin w' = rest.
Proof.
  intros Hdir Hglob Hmk Hin Hresp Hstart.
  destruct (batch_main_confirmed E prog copc_dir out w n response rest
              Hdir Hglob Hmk Hin Hresp) as (evs & Hevs & ->).
  set (w1 := World (fs_after_mkdir (fs w) out) rest (log w ++ evs)).
  destruct (map_m_convert_run E (glob_suffix copc_dir ".copc.laz" (fs w)) out w1 Hstart)
    as (rs & w2 & evs2 & (Hr2 & Hin2 & Hlog2) & Hsp2).
  unfold bind at 1. rewrite Hr2.
  destruct (summary_says rs out w2) as ([] & evs3 & Hr3 & Hp3).
  exists (World (fs w2) (stdin w2) (log w2 ++ evs3)).
  split; [exact Hr3|]. split; [|exact Hin2].
  unfold new_events. cbn [log]. rewrite Hlog2. subst w1. cbn [log].
  rewrite <- !app_assoc, drop_app_length, !spawns_app, Hsp2.
  rewrite (prints_no_spawn _ Hp3), app_nil_r.
  destruct (quiet_events _ Hevs) as [-> _]. reflexivity.
Qed.

Lemma batch_confirmed_runs_all_witness :
  exists w',
    batch_main (quiet_env 1 (PDict [])) ["batch"; "copc"; "potree_out"]
               batch_yes_world = (Ret tt, w') /\
    spawns (new_events batch_yes_world w') =
      map (batch_spawn "potree_out")
          (glob_suffix "copc" ".copc.laz" (fs batch_yes_world)) /\
    stdin w' = [].
Proof.
  apply (batch_confirmed_runs_all (quiet_env 1 (PDict [])) "batch" "copc"
           "potree_out" batch_yes_world Dir "Y" []).
  - reflexivity.
  - vm_compute. discriminate.
  - intros c. vm_compute. discriminate.
  - reflexivity.
  - reflexivity.
  - intros argv input f. discriminate.
Defined.

(** X17. A Python interpreter that cannot be started is not one of the
    failures the batch notes: the error of the first conversion leaves
    the script, no other conversion is started and no summary is
    printed. *)
Theorem batch_interpreter_missing (E : env) prog copc_dir out (w : world) n
    response rest first others :
  fs w !! copc_dir = Some n ->
  glob_suffix copc_dir ".copc.laz" (fs w) = first :: others ->
  can_mkdir (fs w) out ->
  stdin w = response :: rest ->
  str_lower response = "y" ->
  (forall f,
     e_spawn E ["python3"; "convert_copc_to_potree.py"; first;
                path_join out (str_replace ".copc" "" (path_stem first))]
             None f = NoSuchProgram) ->
  exists w',
    batch_main E [prog; copc_dir; out] w = (Raise FileNotFoundError, w') /\
    spawns (new_events w w') = [batch_spawn out first] /\
    ~ In (Print "CONVERSION SUMMARY" []) (new_events w w').
Proof.
  intros Hdir Hglob Hmk Hin Hresp Hmiss.
  destruct (batch_main_confirmed E prog copc_dir out w n response rest
              Hdir ltac:(rewrite Hglob; discriminate) Hmk Hin Hresp)
    as (evs & Hevs & ->).
  rewrite Hglob. cbn [map_m]. unfold convert_single_file. run.
  rewrite subprocess_run_eq. cbn [fs stdin log]. rewrite Hmiss.
  cbn [spawn_outcome spawn_writes write_all foldl].
  eexists. split; [reflexivity|].
  unfold new_events. cbn [log]. rewrite <- !app_assoc, drop_app_length.
  destruct (quiet_events _ Hevs) as [Hno1 Hno2].
  split.
  - rewrite spawns_app, Hno1. reflexivity.
  - rewrite in_app_iff. intros [H|H]; [exact (Hno2 H)|].
    cbn in H. intuition discriminate.
Qed.

Lemma batch_interpreter_missing_witness :
  exists w',
    batch_main tiler_env ["batch"; "copc"; "potree_out"] batch_yes_world
      = (Raise FileNotFoundError, w') /\
    spawns (new_events batch_yes_world w') =
      [batch_spawn "potree_out" "copc/a.copc.laz"] /\
    ~ In (Print "CONVERSION SUMMARY" []) (new_events batch_yes_world w').
Proof.
  apply (batch_interpreter_missing tiler_env "batch" "copc" "potree_out"
           batch_yes_world Dir "Y" [] "copc/a.copc.laz" ["copc/b.copc.laz"]).
  - reflexivity.
  - vm_compute. reflexivity.
  - intros c. vm_compute. discriminate.
  - reflexivity.
  - reflexivity.
  - intros f. reflexivity.
Defined.
(** ** Computations that only report *)

Lemma rp_ret {A} (a : A) : reports_only (ret a).
Proof.
  intros w. exists (Ret a), []. split; [|constructor].
  unfold ret. f_equal. apply world_eta.
Qed.

Lemma rp_raise {A} e : reports_only (@raise A e).
Proof.
  intros w. exists (Raise e), []. split; [|constructor].
  unfold raise. f_equal. apply world_eta.
Qed.

Lemma rp_lift {A} (o : outcome A) : reports_only (lift o).
Proof.
  intros w. exists o, []. split; [|constructor].
  unfold lift. f_equal. apply world_eta.
Qed.

Lemma rp_print t a : reports_only (print t a).
Proof.
  intros w. exists (Ret tt), [Print t a]. split; [reflexivity|].
  repeat constructor. unfold is_print. eauto.
Qed.

Lemma rp_bind {A B} (m : M A) (k : A -> M B) :
  reports_only m -> (forall a, reports_only (k a)) -> reports_only (bind m k).
Proof.
  intros Hm Hk w. destruct (Hm w) as (r & evs & Hr & Hp). unfold bind. rewrite Hr.
  destruct r as [a|e].
  - destruct (Hk a (World (fs w) (stdin w) (log w ++ evs))) as (r' & evs' & Hr' & Hp').
    rewrite Hr'. cbn [fs stdin log]. exists r', (evs ++ evs').
    rewrite app_assoc. split; [reflexivity|]. apply Forall_app. split; assumption.
  - exists (Raise e), evs. split; [reflexivity | exact Hp].
Qed.

Lemma rp_get_fs : reports_only get_fs.
Proof.
  intros w. exists (Ret (fs w)), []. split; [|constructor].
  unfold get_fs. f_equal. apply world_eta.
Qed.

Lemma rp_path_exists p : reports_only (path_exists p).
Proof. unfold path_exists. apply rp_bind; [apply rp_get_fs | intros; apply rp_ret]. Qed.

Lemma rp_if {A} (b : bool) (m1 m2 : M A) :
  reports_only m1 -> reports_only m2 -> reports_only (if b then m1 else m2).
Proof. destruct b; auto. Qed.

Lemma rp_json_load E p : reports_only (json_load E p).
Proof.
  unfold json_load. apply rp_bind; [apply rp_get_fs|].
  intros f. destruct (f !! p) as [[|text]|]; try apply rp_raise.
  destruct (e_json_load E text); [apply rp_ret | apply rp_raise].
Qed.

Lemma rp_verify E dir : reports_only (verify_potree_metadata E dir).
Proof.
  unfold verify_potree_metadata, and_then, or_else, fmt_coord, abs_coord_gt,
    coord_gt.
  repeat first
    [ apply rp_ret | apply rp_raise | apply rp_print | apply rp_lift
    | apply rp_path_exists | apply rp_json_load
    | apply rp_bind; [|intros ?]
    | apply rp_if ].
Qed.

(** X18. Whatever metadata.json holds, the verifier only reports: it
    leaves every file and the console input as they are, and all it adds
    to the output is messages; it starts no process and removes
    nothing. *)
Theorem verify_only_reports (E : env) (dir : string) (w : world) :
  fs (verify_potree_metadata E dir w).2 = fs w /\
  stdin (verify_potree_metadata E dir w).2 = stdin w /\
  exists evs,
    log (verify_potree_metadata E dir w).2 = log w ++ evs /\
    Forall is_print evs.
Proof.
  destruct (rp_verify E dir w) as (r & evs & -> & Hp). cbn [snd fs stdin log].
  split; [reflexivity|]. split; [reflexivity|]. exists evs. auto.
Qed.

(** X19. A metadata.json that is there but is not JSON is not one of
    the verifier's warnings: the decoding error leaves the function, and
    nothing has been printed. *)
Theorem verify_corrupt_metadata (E : env) (dir text : string) (w : world) :
  fs w !! path_join dir "metadata.json" = Some (File text) ->
  e_json_load E text = None ->
  verify_potree_metadata E dir w = (Raise JSONDecodeError, w).
Proof.
  intros Hf Hj. unfold verify_potree_metadata.
  unfold bind at 1. rewrite (path_exists_some _ _ _ Hf). cbn [negb].
  unfold bind at 1, json_load, bind, get_fs. rewrite Hf, Hj. reflexivity.
Qed.

Lemma verify_corrupt_metadata_witness :
  verify_potree_metadata (hdf_env 0) "out" sample_world
    = (Raise JSONDecodeError, sample_world).
Proof.
  apply (verify_corrupt_metadata (hdf_env 0) "out" "{}" sample_world);
    reflexivity.
Defined.

(** ** The step from LAS to COPC *)

(** ** The single conversion, when the reprojection fails *)

Section Abort.
Context (E : env).

Lemma reproject_fails input output_las w :
  pdal_fails E ->
  exists w' evs,
    reproject_copc_to_las E input output_las w = (Ret false, w') /\
    log w' = log w ++ evs /\
    spawns evs =
      [Spawn [pdal_bin; "pipeline"; e_temp_name E ".json" (fs w)] None].
Proof.
  intros Hfail. unfold reproject_copc_to_las. run.
  set (p := e_temp_name E ".json" (fs w)).
  set (text := dumps (Some 2) (reproject_pipeline input output_las)).
  rewrite subprocess_run_eq. cbn [fs stdin log].
  destruct (Hfail p (<[p := File text]> (fs w))) as (c & Hc & Hrc).
  rewrite Hc. cbn [spawn_outcome spawn_writes].
  destruct (write_all_file (c_writes c) (<[p := File text]> (fs w)) p _
              (lookup_insert_eq _ _ _)) as [c' Hc'].
  apply Z.eqb_neq in Hrc. rewrite Hrc. run. rewrite Hc'. run.
  eexists.
  exists [Print "Reprojecting {} from EPSG:3857 to EPSG:4326..." [PStr input];
          MkTemp p; Spawn [pdal_bin; "pipeline"; p] None;
          Print "PDAL reprojection failed:" [];
          Print "  stdout: {}" [PStr (c_stdout c)];
          Print "  stderr: {}" [PStr (c_stderr c)];
          Unlink p].
  split; [reflexivity|]. cbn [log]. rewrite <- !app_assoc. split; reflexivity.
Qed.

Lemma cleanup_temp_run temp w :
  file_or_absent (fs w) temp ->
  exists w' evs,
    cleanup_temp temp w = (Ret tt, w') /\ log w' = log w ++ evs /\ spawns evs = [].
Proof.
  unfold cleanup_temp. intros [Hn | [c Hc]].
  - unfold bind at 1. rewrite (path_exists_none _ _ Hn).
    exists w, []. split; [reflexivity|]. split; [rewrite app_nil_r|]; reflexivity.
  - unfold bind at 1. rewrite (path_exists_some _ _ _ Hc). run. rewrite Hc. run.
    eexists _, [Unlink temp; Print "Cleaned up temp file: {}" [PStr temp]].
    split; [reflexivity|]. cbn [log]. rewrite <- app_assoc. split; reflexivity.
Qed.

End Abort.

(** X21. When PDAL fails on the reprojection, the conversion of a COPC
    file stops there: the script ends with status 1 after the one PDAL
    process, and PotreeConverter is never started. *)
Theorem copc_main_reprojection_failed (E : env) prog input out (w : world) n :
  fs w !! input = Some n ->
  can_mkdir (fs w) out ->
  pdal_fails E ->
  exists w' p,
    copc_main E [prog; input; out] w = (Raise (SystemExit 1), w') /\
    spawns (new_events w w') = [Spawn [pdal_bin; "pipeline"; p] None].
Proof.
  intros Hin Hmk Hfail. unfold copc_main.
  unfold bind at 1. rewrite (path_exists_some _ _ _ Hin). cbn [negb].
  destruct (mkdir_run out w Hmk) as (w0 & evs0 & (Hr0 & Hin0 & Hlog0) & Hevs0 & _).
  unfold bind at 1. rewrite Hr0.
  unfold bind at 1. rewrite named_temporary_file_eq.
  set (temp := e_temp_name E ".las" (fs w0)).
  set (w1 := World (<[temp := File ""]> (fs w0)) (stdin w0) (log w0 ++ [MkTemp temp])).
  destruct (reproject_fails E input temp w1 Hfail) as (w2 & evs2 & Hr2 & Hlog2 & Hsp2).
  assert (Hq : file_or_absent (fs w2) temp).
  { apply (kf_step _ _ _ _ _ (kf_reproject E input temp) Hr2).
    right. eexists. apply lookup_insert_eq. }
  unfold try_finally. unfold bind at 1. rewrite Hr2. cbn [negb].
  unfold bind at 1, print at 1, emit at 1, sys_exit, raise.
  set (w3 := World (fs w2) (stdin w2)
                   (log w2 ++ [Print "Reprojection failed, aborting" []])).
  destruct (cleanup_temp_run temp w3 Hq) as (w5 & evs5 & Hr5 & Hlog5 & Hsp5).
  rewrite Hr5. exists w5, (e_temp_name E ".json" (fs w1)).
  split; [reflexivity|].
  unfold new_events. rewrite Hlog5. subst w3. cbn [log].
  rewrite Hlog2. subst w1. cbn [log]. rewrite Hlog0.
  rewrite <- !app_assoc, drop_app_length.
  rewrite !spawns_app, Hsp2, Hsp5.
  destruct Hevs0 as [-> | ->]; reflexivity.
Qed.

Lemma copc_main_reprojection_failed_witness :
  exists w' p,
    copc_main (quiet_env 1 (PDict [])) ["convert"; "in.copc.laz"; "out"] sample_world
      = (Raise (SystemExit 1), w') /\
    spawns (new_events sample_world w') = [Spawn [pdal_bin; "pipeline"; p] None].
Proof.
  apply (copc_main_reprojection_failed (quiet_env 1 (PDict [])) "convert"
           "in.copc.laz" "out" sample_world (File "copc")).
  - reflexivity.
  - intros c. vm_compute. discriminate.
  - intros p f. eexists. split; [reflexivity | discriminate].
Defined.
(** ** The HDF pipeline *)

Lemma is_Some_write_all ws (f : gmap string node) q :
  is_Some (f !! q) -> is_Some (write_all ws f !! q).
Proof.
  revert f. induction ws as [|[k c] ws IH]; intros f H; [exact H|].
  unfold write_all in *. cbn [foldl fst snd]. apply IH.
  destruct (decide (k = q)) as [->|Hne].
  - rewrite lookup_insert_eq. eauto.
  - rewrite lookup_insert_ne by exact Hne. exact H.
Qed.

Lemma pr_remove_if_exists (I : gmap string node -> Prop) p :
  (forall f c, I f -> f !! p = Some (File c) -> I (delete p f)) ->
  preserves I (remove_if_exists p).
Proof.
  intros H. unfold remove_if_exists.
  apply pr_bind; [apply pr_path_exists | intros ex].
  apply pr_if; [|apply pr_ret].
  apply pr_bind; [apply pr_unlink, H | intros _; apply pr_print].
Qed.

Lemma rz_remove_if_exists (P : exn -> Prop) p :
  P FileNotFoundError -> raises_only P (remove_if_exists p).
Proof.
  intros H. unfold remove_if_exists.
  apply rz_bind; [apply rz_path_exists | intros ex].
  apply rz_if; [|apply rz_ret].
  apply rz_bind; [apply rz_unlink, H | intros _; apply rz_print].
Qed.

Section Hdf.
Context (E : env).

Lemma check_potree_converter_run pp w :
  exists o evs,
    check_potree_converter E pp w =
      (Ret o, World (fs w) (stdin w) (log w ++ evs)) /\
    Forall is_print evs.
Proof.
  unfold check_potree_converter. destruct (truthy pp) as [p|].
  - unfold bind at 1, path_exists, bind, get_fs, ret.
    destruct (bool_decide (is_Some (fs w !! p))).
    + exists (Some p), []. split; [f_equal; apply world_eta | constructor].
    + exists None, [Print msg_not_at_path [PStr p]]. split; [reflexivity|].
      repeat constructor. unfold is_print. eauto.
  - unfold bind, get_fs.
    destruct (truthy (e_which E "PotreeConverter" (fs w))) as [q|].
    + exists (Some q), []. split; [unfold ret; f_equal; apply world_eta | constructor].
    + rewrite first_existing_eq. eexists _, []. split; [f_equal; apply world_eta | constructor].
Qed.

Lemma pr_check_potree_converter I pp : preserves I (check_potree_converter E pp).
Proof.
  intros w Hw. destruct (check_potree_converter_run pp w) as (o & evs & -> & _).
  exact Hw.
Qed.

Lemma rz_check_potree_converter P pp : raises_only P (check_potree_converter E pp).
Proof.
  intros w e. destruct (check_potree_converter_run pp w) as (o & evs & -> & _).
  discriminate.
Qed.

Lemma pr_convert_calipso_to_las (I : gmap string node -> Prop) hdf las :
  (forall ws f, I f -> I (write_all ws f)) ->
  preserves I (convert_calipso_to_las E hdf las).
Proof.
  intros H w Hw. unfold convert_calipso_to_las. run.
  destruct (e_calipso_to_las E hdf las (fs w)) as [ws [e|]]; run; cbn [snd fs];
    apply H, Hw.
Qed.

Lemma rz_convert_calipso_to_las (P : exn -> Prop) hdf las :
  (forall f e, (e_calipso_to_las E hdf las f).2 = Some e -> P e) ->
  raises_only P (convert_calipso_to_las E hdf las).
Proof.
  intros H w e. unfold convert_calipso_to_las. run.
  specialize (H (fs w)).
  destruct (e_calipso_to_las E hdf las (fs w)) as [ws [e'|]]; run; cbn [fst snd] in *;
    intros He; [|discriminate He].
  injection He as <-. apply H. reflexivity.
Qed.

Lemma rz_convert_las_to_copc las copc pdal :
  raises_only an_exception (convert_las_to_copc E las copc pdal).
Proof.
  unfold convert_las_to_copc.
  repeat (apply rz_bind; [apply rz_print | intros _]).
  apply rz_try_except with (Q := an_exception).
  - apply rz_bind; [apply rz_subprocess_run; reflexivity | intros _].
    apply rz_bind; [apply rz_stat_size_mb; reflexivity | intros ?].
    apply rz_bind; [apply rz_print | intros _; apply rz_print].
  - intros e He. destruct e; cbn; try exact He.
    repeat (apply rz_bind; [apply rz_print | intros _]). apply rz_raise. exact He.
Qed.

Lemma rz_convert_copc_to_potree copc out conv :
  raises_only an_exception (convert_copc_to_potree E copc out conv).
Proof.
  unfold convert_copc_to_potree.
  repeat (apply rz_bind; [apply rz_print | intros _]).
  apply rz_bind; [apply rz_mkdir; reflexivity | intros _].
  apply rz_try_except with (Q := an_exception).
  - apply rz_bind; [apply rz_subprocess_run; reflexivity | intros c].
    apply rz_bind; [apply rz_print | intros _].
    apply rz_if; [apply rz_ret | apply rz_print].
  - intros e He. destruct e; cbn; try exact He.
    apply rz_bind; [apply rz_print | intros _].
    apply rz_bind; [apply rz_if; [apply rz_ret | apply rz_print] | intros _].
    apply rz_raise. exact He.
Qed.

Lemma rz_convert_hdf_to_potree hdf od pp pdal keep :
  reader_raises_exceptions E ->
  raises_only an_exception (convert_hdf_to_potree E hdf od pp pdal keep).
Proof.
  intros Hreader. unfold convert_hdf_to_potree.
  apply rz_bind; [apply rz_check_potree_converter | intros [exec|]].
  2:{ apply rz_bind; [|intros _; apply rz_raise; reflexivity].
      unfold print_installation_instructions. apply rz_for_each. intros.
      apply rz_print. }
  apply rz_bind; [apply rz_print | intros _].
  apply rz_bind; [apply rz_mkdir; reflexivity | intros _].
  repeat (apply rz_bind; [apply rz_print | intros _]).
  apply rz_try_except with (Q := an_exception).
  - apply rz_bind; [apply rz_print | intros _].
    apply rz_bind; [apply rz_convert_calipso_to_las; intros f e; apply Hreader | intros _].
    repeat (apply rz_bind; [apply rz_print | intros _]).
    apply rz_bind; [apply rz_convert_las_to_copc | intros _].
    apply rz_bind; [apply rz_print | intros _].
    apply rz_bind; [apply rz_convert_copc_to_potree | intros _].
    apply rz_bind; [|intros _].
    { apply rz_if; [|apply rz_ret].
      apply rz_bind; [apply rz_print | intros _].
      apply rz_bind; [apply rz_remove_if_exists; reflexivity | intros _].
      apply rz_remove_if_exists; reflexivity. }
    repeat (apply rz_bind; [apply rz_print | intros _]). apply rz_ret.
  - intros e He. unfold an_exception in He. rewrite He.
    apply rz_bind; [apply rz_print | intros _]. apply rz_raise. exact He.
Qed.

Lemma pr_convert_hdf_to_potree (I : gmap string node -> Prop) hdf od pp pdal keep :
  (forall f p, I f -> f !! p = None -> I (<[p := Dir]> f)) ->
  (forall ws f, I f -> I (write_all ws f)) ->
  (keep = false ->
   forall f c p, p = hdf_las_path hdf od \/ p = hdf_copc_path hdf od ->
                 I f -> f !! p = Some (File c) -> I (delete p f)) ->
  preserves I (convert_hdf_to_potree E hdf od pp pdal keep).
Proof.
  intros Hdir Hwrite Hdel. unfold convert_hdf_to_potree.
  assert (Hsub : forall argv input, preserves I (subprocess_run E argv input)).
  { intros argv input. apply pr_subprocess_run. intros f c _. apply Hwrite. }
  assert (Hmk : forall p, preserves I (mkdir p)).
  { intros p. apply pr_mkdir. intros f. apply Hdir. }
  apply pr_bind; [apply pr_check_potree_converter | intros [exec|]].
  2:{ apply pr_bind; [|intros _; apply pr_raise].
      unfold print_installation_instructions. apply pr_for_each. intros.
      apply pr_print. }
  apply pr_bind; [apply pr_print | intros _].
  apply pr_bind; [apply Hmk | intros _].
  repeat (apply pr_bind; [apply pr_print | intros _]).
  apply pr_try_except.
  2:{ intros e k Hk. destruct (is_Exception e); [|discriminate Hk].
      injection Hk as <-. apply pr_bind; [apply pr_print | intros _; apply pr_raise]. }
  apply pr_bind; [apply pr_print | intros _].
  apply pr_bind; [apply pr_convert_calipso_to_las, Hwrite | intros _].
  repeat (apply pr_bind; [apply pr_print | intros _]).
  apply pr_bind; [|intros _].
  { unfold convert_las_to_copc.
    repeat (apply pr_bind; [apply pr_print | intros _]).
    apply pr_try_except.
    - apply pr_bind; [apply Hsub | intros _].
      apply pr_bind; [apply pr_stat_size_mb | intros ?].
      apply pr_bind; [apply pr_print | intros _; apply pr_print].
    - intros e k Hk. destruct e; cbn in Hk; try discriminate Hk. injection Hk as <-.
      repeat (apply pr_bind; [apply pr_print | intros _]). apply pr_raise. }
  apply pr_bind; [apply pr_print | intros _].
  apply pr_bind; [|intros _].
  { unfold convert_copc_to_potree.
    repeat (apply pr_bind; [apply pr_print | intros _]).
    apply pr_bind; [apply Hmk | intros _].
    apply pr_try_except.
    - apply pr_bind; [apply Hsub | intros c].
      apply pr_bind; [apply pr_print | intros _].
      apply pr_if; [apply pr_ret | apply pr_print].
    - intros e k Hk. destruct e; cbn in Hk; try discriminate Hk. injection Hk as <-.
      apply pr_bind; [apply pr_print | intros _].
      apply pr_bind; [apply pr_if; [apply pr_ret | apply pr_print] | intros _].
      apply pr_raise. }
  apply pr_bind; [|intros _].
  { destruct keep; cbn [negb]; [apply pr_ret|].
    apply pr_bind; [apply pr_print | intros _].
    apply pr_bind; [|intros _]; apply pr_remove_if_exists; intros f c;
      apply (Hdel eq_refl); [left | right]; reflexivity. }
  repeat (apply pr_bind; [apply pr_print | intros _]). apply pr_ret.
Qed.

End Hdf.

(** X22. The HDF pipeline removes nothing but its two intermediate
    files, and nothing at all when they are to be kept: any other path
    that exists before the job exists after it, however the job ends. *)
Theorem hdf_pipeline_keeps_other_files (E : env) hdf od pp pdal keep
    (w : world) (q : string) :
  is_Some (fs w !! q) ->
  keep = true \/ (q <> hdf_las_path hdf od /\ q <> hdf_copc_path hdf od) ->
  is_Some (fs (convert_hdf_to_potree E hdf od pp pdal keep w).2 !! q).
Proof.
  intros Hq Hkeep.
  apply (pr_convert_hdf_to_potree E (fun f => is_Some (f !! q))); [| | |exact Hq].
  - intros f p Hf Hp. destruct (decide (p = q)) as [->|Hne].
    + rewrite lookup_insert_eq. eauto.
    + rewrite lookup_insert_ne by exact Hne. exact Hf.
  - intros ws f. apply is_Some_write_all.
  - intros -> f c p Hp Hf _. destruct Hkeep as [Hk | [Hl Hc]]; [discriminate Hk|].
    rewrite lookup_delete_ne; [exact Hf|]. destruct Hp as [-> | ->]; congruence.
Qed.

Lemma hdf_pipeline_keeps_other_files_witness :
  is_Some (fs (convert_hdf_to_potree good_hdf_env "orbit.hdf" None None pdal_bin
                 false hdf_world).2 !! "orbit.hdf").
Proof.
  apply (hdf_pipeline_keeps_other_files good_hdf_env "orbit.hdf" None None pdal_bin
           false hdf_world "orbit.hdf").
  - vm_compute. eauto.
  - right. split; vm_compute; discriminate.
Defined.




(** ** The processes of a run that returns *)

Lemma rw_quiet {A} (m : M A) :
  (forall w, exists r evs, m w = (r, World (fs w) (stdin w) (log w ++ evs)) /\
                           Forall is_print evs) ->
  returns_with m (fun _ => True) [].
Proof.
  intros H w a w' Hm. destruct (H w) as (r & evs & Hr & Hp).
  rewrite Hr in Hm. injection Hm as -> <-. split; [exact I|].
  exists evs. split; [reflexivity | apply prints_no_spawn, Hp].
Qed.

Lemma rw_ret {A} (a : A) : returns_with (ret a) (eq a) [].
Proof.
  intros w a' w' [= <- <-]. split; [reflexivity|].
  exists []. rewrite app_nil_r. auto.
Qed.

Lemma rw_raise {A} e (V : A -> Prop) l : returns_with (@raise A e) V l.
Proof. intros w a w' H. discriminate H. Qed.

Lemma rw_print t a : returns_with (print t a) (fun _ => True) [].
Proof. apply rw_quiet, rp_print. Qed.

Lemma rw_path_exists p : returns_with (path_exists p) (fun _ => True) [].
Proof. apply rw_quiet, rp_path_exists. Qed.

Lemma rw_weaken {A} (m : M A) (V V' : A -> Prop) l :
  (forall a, V a -> V' a) -> returns_with m V l -> returns_with m V' l.
Proof. intros HV H w a w' Hm. destruct (H w a w' Hm) as [Ha Hl]. auto. Qed.

Lemma rw_bind {A B} (m : M A) (k : A -> M B) V1 (V : B -> Prop) l1 l2 :
  returns_with m V1 l1 -> (forall a, returns_with (k a) V l2) ->
  returns_with (bind m k) V (l1 ++ l2).
Proof.
  intros Hm Hk w b w' H. apply bind_ret_inv in H as (a & w1 & H1 & H2).
  destruct (Hm _ _ _ H1) as (_ & evs1 & Hlog1 & Hs1).
  destruct (Hk a _ _ _ H2) as (Hb & evs2 & Hlog2 & Hs2).
  split; [exact Hb|]. exists (evs1 ++ evs2).
  rewrite Hlog2, Hlog1, app_assoc, spawns_app, Hs1, Hs2. auto.
Qed.

Lemma rw_then {A B} (m : M A) (k : A -> M B) V1 (V : B -> Prop) l :
  returns_with m V1 [] -> (forall a, returns_with (k a) V l) ->
  returns_with (bind m k) V l.
Proof. intros Hm Hk. apply (rw_bind m k V1 V [] l Hm Hk). Qed.

Lemma rw_step {A B} (m : M A) (k : A -> M B) V1 (V : B -> Prop) x l :
  returns_with m V1 [x] -> (forall a, returns_with (k a) V l) ->
  returns_with (bind m k) V (x :: l).
Proof. intros Hm Hk. apply (rw_bind m k V1 V [x] l Hm Hk). Qed.

Lemma rw_if {A} (b : bool) (m1 m2 : M A) V l :
  returns_with m1 V l -> returns_with m2 V l ->
  returns_with (if b then m1 else m2) V l.
Proof. destruct b; auto. Qed.

Lemma rw_try_except {A} (m : M A) h (V : A -> Prop) l :
  returns_with m V l -> (forall e k, h e = Some k -> no_return k) ->
  returns_with (try_except m h) V l.
Proof.
  intros Hm Hh w a w' H.
  apply try_except_ret_inv in H as [H | (e & w1 & k & _ & Hk & H)].
  - apply (Hm _ _ _ H).
  - destruct (Hh _ _ Hk _ _ _ H).
Qed.

Lemma nr_raise {A} e : no_return (@raise A e).
Proof. intros w a w' H. discriminate H. Qed.

Lemma nr_bind {A B} (m : M A) (k : A -> M B) :
  (forall a, no_return (k a)) -> no_return (bind m k).
Proof.
  intros Hk w b w' H. apply bind_ret_inv in H as (a & w1 & _ & H).
  exact (Hk a _ _ _ H).
Qed.

Lemma rw_mkdir p : returns_with (mkdir p) (fun _ => True) [].
Proof.
  intros w a w'. unfold mkdir. run.
  destruct (fs w !! p) as [[|c]|]; cbn; intros H; inversion H; subst; clear H;
    (split; [exact I|]).
  - exists []. rewrite app_nil_r. auto.
  - exists [Mkdir p]. auto.
Qed.

Lemma rw_unlink p : returns_with (unlink p) (fun _ => True) [].
Proof.
  intros w a w'. unfold unlink. run.
  destruct (fs w !! p) as [[|c]|]; cbn; intros H; inversion H; subst; clear H.
  split; [exact I|]. exists [Unlink p]. auto.
Qed.

Lemma rw_stat_size_mb p : returns_with (stat_size_mb p) (fun _ => True) [].
Proof.
  intros w a w'. unfold stat_size_mb. run.
  destruct (fs w !! p) as [[|c]|]; cbn; intros H; inversion H; subst; clear H;
    (split; [exact I|]); exists []; rewrite app_nil_r; auto.
Qed.

Lemma rw_remove_if_exists p : returns_with (remove_if_exists p) (fun _ => True) [].
Proof.
  unfold remove_if_exists. eapply rw_then; [apply rw_path_exists | intros ex].
  apply rw_if.
  - eapply rw_then; [apply rw_unlink | intros _; apply rw_print].
  - eapply rw_weaken; [|apply rw_ret]. auto.
Qed.

Section Returns.
Context (E : env).

Lemma rw_subprocess_run argv input :
  returns_with (subprocess_run E argv input) (fun _ => True) [Spawn argv input].
Proof.
  intros w a w'. rewrite subprocess_run_eq. intros H. inversion H; subst; clear H.
  split; [exact I|]. exists [Spawn argv input]. auto.
Qed.

Lemma rw_convert_calipso_to_las hdf las :
  returns_with (convert_calipso_to_las E hdf las) (fun _ => True) [].
Proof.
  intros w a w'. unfold convert_calipso_to_las. run.
  destruct (e_calipso_to_las E hdf las (fs w)) as [ws [e|]]; run; intros H;
    inversion H; subst; clear H.
  split; [exact I|]. exists [Call "convert_calipso_to_las" [hdf; las]]. auto.
Qed.

Lemma rw_convert_las_to_copc las copc pdal :
  returns_with (convert_las_to_copc E las copc pdal) (fun _ => True)
               [las_to_copc_spawn las copc pdal].
Proof.
  unfold convert_las_to_copc.
  do 3 (eapply rw_then; [apply rw_print | intros _]).
  apply rw_try_except.
  - eapply rw_step; [apply rw_subprocess_run | intros _].
    eapply rw_then; [apply rw_stat_size_mb | intros ?].
    eapply rw_then; [apply rw_print | intros _; apply rw_print].
  - intros e k Hk. destruct e; cbn in Hk; try discriminate Hk. injection Hk as <-.
    do 2 (apply nr_bind; intros _). apply nr_raise.
Qed.

Lemma rw_convert_copc_to_potree copc out conv :
  returns_with (convert_copc_to_potree E copc out conv) (fun _ => True)
               [Spawn [conv; copc; "-o"; out] None].
Proof.
  unfold convert_copc_to_potree.
  do 3 (eapply rw_then; [apply rw_print | intros _]).
  eapply rw_then; [apply rw_mkdir | intros _].
  apply rw_try_except.
  - eapply rw_step; [apply rw_subprocess_run | intros c].
    eapply rw_then; [apply rw_print | intros _].
    apply rw_if; [eapply rw_weaken; [|apply rw_ret]; auto | apply rw_print].
  - intros e k Hk. destruct e; cbn in Hk; try discriminate Hk. injection Hk as <-.
    do 2 (apply nr_bind; intros _). apply nr_raise.
Qed.

End Returns.

(** X25. When the HDF pipeline returns, what it returns is the Potree
    directory named after the HDF file inside the output directory, and
    it has started exactly two processes: PDAL on the LAS file of the
    first step, then the PotreeConverter it found on the COPC file that
    PDAL was to write. *)
Theorem hdf_pipeline_returns (E : env) hdf od pp pdal keep (w w' : world)
    (out : string) :
  convert_hdf_to_potree E hdf od pp pdal keep w = (Ret out, w') ->
  out = hdf_potree_output hdf od /\
  exists exec,
    (check_potree_converter E pp w).1 = Ret (Some exec) /\
    spawns (new_events w w') =
      [las_to_copc_spawn (hdf_las_path hdf od) (hdf_copc_path hdf od) pdal;
       Spawn [exec; hdf_copc_path hdf od; "-o"; out] None].
Proof.
  unfold convert_hdf_to_potree. intros H.
  apply bind_ret_inv in H as (r & w1 & Hcheck & H).
  destruct (check_potree_converter_run E pp w) as (o & evs0 & Hr0 & Hp0).
  rewrite Hr0 in Hcheck. injection Hcheck as <- <-.
  destruct o as [exec|].
  2:{ apply bind_ret_inv in H as (? & ? & _ & H). discriminate H. }
  cbv zeta in H. fold (hdf_output_dir od) in H.
  fold (hdf_las_path hdf od) (hdf_copc_path hdf od) (hdf_potree_output hdf od) in H.
  revert H.
  match goal with |- ?m ?w1 = _ -> _ =>
    assert (Hrw : returns_with m (eq (hdf_potree_output hdf od))
              [las_to_copc_spawn (hdf_las_path hdf od) (hdf_copc_path hdf od) pdal;
               Spawn [exec; hdf_copc_path hdf od; "-o"; hdf_potree_output hdf od]
                     None])
  end.
  { eapply rw_then; [apply rw_print | intros _].
    eapply rw_then; [apply rw_mkdir | intros _].
    do 3 (eapply rw_then; [apply rw_print | intros _]).
    apply rw_try_except.
    2:{ intros e k Hk. destruct (is_Exception e); [|discriminate Hk].
        injection Hk as <-. apply nr_bind. intros _. apply nr_raise. }
    eapply rw_then; [apply rw_print | intros _].
    eapply rw_then; [apply rw_convert_calipso_to_las | intros _].
    do 2 (eapply rw_then; [apply rw_print | intros _]).
    eapply rw_step; [apply rw_convert_las_to_copc | intros _].
    eapply rw_then; [apply rw_print | intros _].
    eapply rw_step; [apply rw_convert_copc_to_potree | intros _].
    eapply rw_then; [|intros _].
    { apply rw_if with (V := fun _ => True);
        [|eapply rw_weaken; [|apply rw_ret]; auto].
      eapply rw_then; [apply rw_print | intros _].
      eapply rw_then; [apply rw_remove_if_exists | intros _].
      apply rw_remove_if_exists. }
    do 2 (eapply rw_then; [apply rw_print | intros _]). apply rw_ret. }
  intros H. destruct (Hrw _ _ _ H) as (<- & evs & Hlog & Hs).
  split; [reflexivity|]. exists exec. split; [rewrite Hr0; reflexivity|].
  unfold new_events. rewrite Hlog. cbn [log].
  rewrite <- app_assoc, drop_app_length, spawns_app, (prints_no_spawn _ Hp0).
  exact Hs.
Qed.

Lemma hdf_pipeline_returns_witness :
  exists w',
    convert_hdf_to_potree good_hdf_env "orbit.hdf" None None pdal_bin false hdf_world
      = (Ret "potree_data/orbit", w') /\
    spawns (new_events hdf_world w') =
      [las_to_copc_spawn (hdf_las_path "orbit.hdf" None)
                         (hdf_copc_path "orbit.hdf" None) pdal_bin;
       Spawn ["/usr/bin/PotreeConverter"; hdf_copc_path "orbit.hdf" None; "-o";
              "potree_data/orbit"] None].
Proof.
  assert (H : exists w',
             convert_hdf_to_potree good_hdf_env "orbit.hdf" None None pdal_bin
                                   false hdf_world = (Ret "potree_data/orbit", w')).
  { eexists. vm_compute. reflexivity. }
  destruct H as [w' H]. exists w'. split; [exact H|].
  destruct (hdf_pipeline_returns good_hdf_env "orbit.hdf" None None pdal_bin false
              hdf_world w' "potree_data/orbit" H) as (_ & exec & Hc & Hs).
  vm_compute in Hc. injection Hc as <-. exact Hs.
Defined.
(** ** A single conversion that returns *)

Lemma try_finally_ret_inv {A} (body : M A) final w a w' :
  try_finally body final w = (Ret a, w') ->
  exists w1, body w = (Ret a, w1) /\ final w1 = (Ret tt, w').
Proof.
  unfold try_finally. destruct (body w) as [r w1].
  destruct (final w1) as [[[]|e] w2] eqn:Hf; intros H; inversion H; subst.
  exists w1. auto.
Qed.

Lemma rw_cleanup_temp temp : returns_with (cleanup_temp temp) (fun _ => True) [].
Proof.
  unfold cleanup_temp. eapply rw_then; [apply rw_path_exists | intros ex].
  apply rw_if.
  - eapply rw_then; [apply rw_unlink | intros _; apply rw_print].
  - eapply rw_weaken; [|apply rw_ret]. auto.
Qed.

Section Single.
Context (E : env).

Lemma reproject_run input output_las w :
  exists r w' evs,
    reproject_copc_to_las E input output_las w = (r, w') /\
    log w' = log w ++ evs /\
    spawns evs =
      [Spawn [pdal_bin; "pipeline"; e_temp_name E ".json" (fs w)] None].
Proof.
  unfold reproject_copc_to_las. run.
  set (p := e_temp_name E ".json" (fs w)).
  set (text := dumps (Some 2) (reproject_pipeline input output_las)).
  rewrite subprocess_run_eq. cbn [fs stdin log].
  set (sp := e_spawn E _ None _).
  destruct (write_all_file (spawn_writes sp) (<[p := File text]> (fs w)) p _
              (lookup_insert_eq _ _ _)) as [c' Hc'].
  destruct sp as [c|]; cbn [spawn_outcome spawn_writes] in *.
  - destruct (returncode c =? 0)%Z; run; rewrite Hc'; run.
    + eexists _, _.
      exists [Print "Reprojecting {} from EPSG:3857 to EPSG:4326..." [PStr input];
              MkTemp p; Spawn [pdal_bin; "pipeline"; p] None;
              Print "Reprojection complete: {}" [PStr output_las];
              Unlink p].
      split; [reflexivity|]. cbn [log]. rewrite <- !app_assoc. split; reflexivity.
    + eexists _, _.
      exists [Print "Reprojecting {} from EPSG:3857 to EPSG:4326..." [PStr input];
              MkTemp p; Spawn [pdal_bin; "pipeline"; p] None;
              Print "PDAL reprojection failed:" [];
              Print "  stdout: {}" [PStr (c_stdout c)];
              Print "  stderr: {}" [PStr (c_stderr c)];
              Unlink p].
      split; [reflexivity|]. cbn [log]. rewrite <- !app_assoc. split; reflexivity.
  - run. rewrite Hc'. run. eexists _, _.
    exists [Print "Reprojecting {} from EPSG:3857 to EPSG:4326..." [PStr input];
            MkTemp p; Spawn [pdal_bin; "pipeline"; p] None; Unlink p].
    split; [reflexivity|]. cbn [log]. rewrite <- !app_assoc. split; reflexivity.
Qed.

Lemma las_to_potree_run input_las out w :
  exists r w' evs,
    convert_las_to_potree E input_las out w = (r, w') /\
    log w' = log w ++ evs /\
    spawns evs = [Spawn (potree_cmd input_las out) None].
Proof.
  unfold convert_las_to_potree. run. rewrite subprocess_run_eq. cbn [fs stdin log].
  set (sp := e_spawn E _ None _).
  destruct sp as [c|]; cbn [spawn_outcome spawn_writes].
  - destruct (returncode c =? 0)%Z; run.
    + eexists _, _.
      exists [Print "Converting {} to Potree format..." [PStr input_las];
              Print "Running: {}" [PStr (str_join " " (potree_cmd input_las out))];
              Spawn (potree_cmd input_las out) None;
              Print "Potree conversion complete: {}" [PStr out];
              Print "Output:" []; Print "{}" [PStr (c_stdout c)]].
      split; [reflexivity|]. cbn [log]. rewrite <- !app_assoc. split; reflexivity.
    + eexists _, _.
      exists [Print "Converting {} to Potree format..." [PStr input_las];
              Print "Running: {}" [PStr (str_join " " (potree_cmd input_las out))];
              Spawn (potree_cmd input_las out) None;
              Print "PotreeConverter failed:" [];
              Print "  stdout: {}" [PStr (c_stdout c)];
              Print "  stderr: {}" [PStr (c_stderr c)]].
      split; [reflexivity|]. cbn [log]. rewrite <- !app_assoc. split; reflexivity.
  - run. eexists _, _.
    exists [Print "Converting {} to Potree format..." [PStr input_las];
            Print "Running: {}" [PStr (str_join " " (potree_cmd input_las out))];
            Spawn (potree_cmd input_las out) None;
            Print "PotreeConverter not found!" [];
            Print "Please install PotreeConverter: https://github.com/potree/PotreeConverter" []].
    split; [reflexivity|]. cbn [log]. rewrite <- !app_assoc. split; reflexivity.
Qed.

End Single.

(** X26. A conversion of a COPC file that returns has started exactly
    two processes, PDAL on a descriptor file and then PotreeConverter on
    the temporary LAS file and the output directory, and has printed
    the message of success; the verdict of the verifier plays no part
    in it. *)
Theorem copc_main_returns (E : env) prog input out (w w' : world) :
  copc_main E [prog; input; out] w = (Ret tt, w') ->
  exists p temp,
    spawns (new_events w w') =
      [Spawn [pdal_bin; "pipeline"; p] None; Spawn (potree_cmd temp out) None] /\
    In (Print msg_success [PStr out]) (new_events w w').
Proof.
  unfold copc_main. intros H.
  apply bind_ret_inv in H as (ex & w0 & Hex & H).
  unfold path_exists, bind, get_fs, ret in Hex. injection Hex as <- <-.
  destruct (bool_decide (is_Some (fs w !! input))); cbn [negb] in H.
  2:{ apply bind_ret_inv in H as (? & ? & _ & H). discriminate H. }
  apply bind_ret_inv in H as ([] & w1 & Hmk & H).
  destruct (rw_mkdir out _ _ _ Hmk) as (_ & evs1 & Hlog1 & Hs1).
  apply bind_ret_inv in H as (temp & w2 & Htemp & H).
  rewrite named_temporary_file_eq in Htemp. injection Htemp as <- <-.
  set (temp := e_temp_name E ".las" (fs w1)) in *.
  apply try_finally_ret_inv in H as (w5 & H & Hclean).
  destruct (rw_cleanup_temp temp _ _ _ Hclean) as (_ & evs6 & Hlog6 & Hs6).
  apply bind_ret_inv in H as (ok1 & w3 & Hre & H).
  match type of Hre with reproject_copc_to_las E input temp ?w2 = _ =>
    destruct (reproject_run E input temp w2) as (r & w3' & evs3 & Hr3 & Hlog3 & Hs3)
  end.
  rewrite Hr3 in Hre. injection Hre as -> ->.
  destruct ok1; cbn [negb] in H.
  2:{ apply bind_ret_inv in H as (? & ? & _ & H). discriminate H. }
  apply bind_ret_inv in H as (ok2 & w4 & Hpo & H).
  destruct (las_to_potree_run E temp out w3) as (r & w4' & evs4 & Hr4 & Hlog4 & Hs4).
  rewrite Hr4 in Hpo. injection Hpo as -> ->.
  destruct ok2; cbn [negb] in H.
  2:{ apply bind_ret_inv in H as (? & ? & _ & H). discriminate H. }
  apply bind_ret_inv in H as (b & w6 & Hver & H).
  destruct (rp_verify E out w4) as (r & evs5 & Hr5 & Hp5).
  rewrite Hr5 in Hver. injection Hver as -> <-.
  unfold bind, print, emit in H. cbn [fs stdin log] in H. injection H as <-.
  cbn [log] in Hlog6.
  eexists _, temp.
  unfold new_events. rewrite Hlog6, Hlog4, Hlog3. cbn [log]. rewrite Hlog1.
  rewrite <- !app_assoc, drop_app_length.
  split.
  - rewrite !spawns_app, Hs1, Hs3, Hs4, Hs6, (prints_no_spawn _ Hp5). reflexivity.
  - rewrite !in_app_iff. do 5 right. left. left. reflexivity.
Qed.

Lemma copc_main_returns_witness :
  exists p temp,
    spawns (new_events sample_world
              (copc_main (quiet_env 0 (PDict [])) ["convert"; "in.copc.laz"; "out"]
                         sample_world).2) =
      [Spawn [pdal_bin; "pipeline"; p] None; Spawn (potree_cmd temp "out") None] /\
    In (Print msg_success [PStr "out"])
       (new_events sample_world
          (copc_main (quiet_env 0 (PDict [])) ["convert"; "in.copc.laz"; "out"]
                     sample_world).2).
Proof.
  apply (copc_main_returns (quiet_env 0 (PDict [])) "convert" "in.copc.laz" "out"
           sample_world).
  vm_compute. reflexivity.
Defined.
(** ** The names of the outputs *)

Lemma no_char_app c a b : no_char c (a +:+ b) = no_char c a && no_char c b.
Proof.
  induction a as [|x a IH]; [rewrite str_app_nil_l; reflexivity|].
  rewrite str_app_cons. cbn [no_char]. rewrite IH, andb_assoc. reflexivity.
Qed.

Lemma split_last_none c s : no_char c s = true -> split_last c s = None.
Proof.
  induction s as [|a s IH]; [reflexivity|]. cbn [no_char split_last].
  intros H. apply andb_true_iff in H as [Ha Hs]. rewrite (IH Hs).
  apply negb_true_iff in Ha. rewrite Ha. reflexivity.
Qed.

Lemma split_last_app c u v :
  no_char c v = true -> split_last c (u +:+ String c v) = Some (u, v).
Proof.
  intros Hv. induction u as [|a u IH].
  - rewrite str_app_nil_l. cbn [split_last].
    rewrite (split_last_none _ _ Hv), Ascii.eqb_refl. reflexivity.
  - rewrite str_app_cons. cbn [split_last]. rewrite IH. reflexivity.
Qed.

Lemma path_name_join dir b :
  no_char "/" b = true -> path_name (path_join dir b) = b.
Proof.
  intros Hb. unfold path_name, path_join.
  change ("/" +:+ b) with (String "/" b). rewrite (split_last_app _ _ _ Hb).
  reflexivity.
Qed.

Lemma path_stem_join dir b ext :
  b <> "" -> ext <> "" -> no_char "/" b = true -> no_char "/" ext = true ->
  no_char "." ext = true ->
  path_stem (path_join dir (b +:+ "." +:+ ext)) = b.
Proof.
  intros Hb Hext Hb1 Hext1 Hext2. unfold path_stem.
  rewrite path_name_join.
  2:{ rewrite !no_char_app, Hb1, Hext1. reflexivity. }
  change ("." +:+ ext) with (String "." ext). rewrite (split_last_app _ _ _ Hext2).
  destruct b as [|x b]; [congruence|]. destruct ext; [congruence | reflexivity].
Qed.

Lemma replace_copc_suffix s :
  no_char "." s = true -> str_replace ".copc" "" (s +:+ ".copc") = s.
Proof.
  unfold str_replace. induction s as [|a s IH]; intros H.
  - reflexivity.
  - cbn [no_char] in H. apply andb_true_iff in H as [Ha Hs].
    rewrite str_app_cons. cbn [replace_from String.prefix].
    apply negb_true_iff in Ha.
    destruct (ascii_dec "." a) as [<-|Hne]; [discriminate Ha|].
    rewrite (IH Hs). reflexivity.
Qed.

(** X27. For a file NAME.copc.laz of the input directory, where NAME
    has neither dot nor slash, the batch runs the converter on the
    directory NAME inside the output directory. *)
Theorem batch_output_directory (copc_dir out nm : string) :
  plain_name nm ->
  batch_spawn out (path_join copc_dir (nm +:+ ".copc.laz")) =
    Spawn ["python3"; "convert_copc_to_potree.py";
           path_join copc_dir (nm +:+ ".copc.laz"); path_join out nm] None.
Proof.
  intros (Hne & Hslash & Hdot). unfold batch_spawn.
  change (nm +:+ ".copc.laz") with (nm +:+ (".copc" +:+ ("." +:+ "laz"))).
  rewrite <- str_app_assoc.
  rewrite (path_stem_join copc_dir (nm +:+ ".copc") "laz").
  - rewrite (replace_copc_suffix _ Hdot). rewrite str_app_assoc. reflexivity.
  - destruct nm; [congruence | discriminate].
  - discriminate.
  - rewrite no_char_app, Hslash. reflexivity.
  - reflexivity.
  - reflexivity.
Qed.

Lemma batch_output_directory_witness :
  batch_spawn "potree_out" (path_join "copc" ("a" +:+ ".copc.laz")) =
    Spawn ["python3"; "convert_copc_to_potree.py";
           path_join "copc" ("a" +:+ ".copc.laz"); path_join "potree_out" "a"] None.
Proof.
  apply (batch_output_directory "copc" "potree_out" "a").
  split; [discriminate | split; reflexivity].
Defined.

Lemma path_parent_join dir b :
  no_char "/" b = true -> path_parent (path_join dir b) = Some dir.
Proof.
  intros Hb. unfold path_parent, path_join.
  change ("/" +:+ b) with (String "/" b). rewrite (split_last_app _ _ _ Hb).
  reflexivity.
Qed.

(** X28. For a file NAME.las, where NAME has neither dot nor slash, the
    tiler writes the tile of a band to NAME_tile_BAND.copc.laz, a file
    of the output directory itself, whatever the directory of the LAS
    file. *)
Theorem tile_output_path (las_dir out nm : string) (t : tile) :
  plain_name nm ->
  In t tiles ->
  let p := tile_copc_path out (path_stem (path_join las_dir (nm +:+ ".las"))) t in
  p = path_join out (nm +:+ "_tile_" +:+ name t +:+ ".copc.laz") /\
  path_parent p = Some out /\
  path_name p = nm +:+ "_tile_" +:+ name t +:+ ".copc.laz".
Proof.
  intros (Hne & Hslash & Hdot) Ht p. subst p.
  change (nm +:+ ".las") with (nm +:+ "." +:+ "las").
  rewrite (path_stem_join las_dir nm "las" Hne); try reflexivity; try discriminate;
    try exact Hslash.
  assert (Hname : no_char "/" (nm +:+ "_tile_" +:+ name t +:+ ".copc.laz") = true).
  { rewrite !no_char_app, Hslash.
    cbn in Ht. destruct Ht as [<-|[<-|[<-|[<-|[]]]]]; reflexivity. }
  unfold tile_copc_path. split; [reflexivity|]. split.
  - apply path_parent_join, Hname.
  - apply path_name_join, Hname.
Qed.

Lemma tile_output_path_witness :
  tile_copc_path "tiles" (path_stem (path_join "las" ("a" +:+ ".las")))
                 (Tile "south" (-90) (-30)) =
    path_join "tiles" ("a" +:+ "_tile_" +:+ "south" +:+ ".copc.laz").
Proof.
  refine (proj1 (tile_output_path "las" "tiles" "a" (Tile "south" (-90) (-30)) _ _)).
  - split; [discriminate | split; reflexivity].
  - left. reflexivity.
Defined.

Lemma infer_category_other_witness : infer_category "Stress" = "Other".
Proof.
  exact (proj2 (infer_category_other "Stress") eq_refl).
Defined.

Lemma fps_group_45_60_witness :
  fps_group "45-60 (60 on desktop)" = "45-60 FPS".
Proof.
  exact (proj1 (fps_group_45_60 "45-60 (60 on desktop)") eq_refl).
Defined.

Lemma categories_partition_witness :
  In (infer_category "Mobile Balanced") (map fst (categories sample_tests)).
Proof.
  refine (proj2 (proj2 (categories_partition sample_tests))
            (TestConfig "T003" "Mobile Balanced" "30-45") _).
  right. right. left. reflexivity.
Defined.

Lemma fps_groups_partition_witness :
  [TestConfig "T004" "Stress" "<30"] = in_fps_group "Below 30 FPS" sample_tests.
Proof.
  refine (proj1 (proj2 (fps_groups_partition sample_tests)) "Below 30 FPS" _ _).
  vm_compute. right. right. right. left. reflexivity.
Defined.
